(** * gsG1System: index allocation, assembly and reduction of the G1 system

    A shallow embedding of [src/gsG1Basis/gsG1System.h] (G+Smo).

    Conventions of the embedding.
    - [index_t] values are mathematical integers ([Z]); signed overflow is
      undefined in C++, so there is no wrap-around to model.  Quantities
      stored in [size_t] containers go through [to_size_t] (reduction
      modulo 2^64) and are read back into an [index_t] with [to_index_t].
    - [gsVector<>] offset tables hold integral doubles; they are lists of
      [Z].  Entity and patch indices, which only ever index containers, are
      [nat].
    - [real_t] coefficients are exact rationals ([Q]): the comparisons of
      the source against its tolerances are modelled in exact arithmetic.
    - Out-of-range container reads, which are undefined in the source,
      return the default element ([0], [false], the empty list).
    - [gsSparseMatrix::insert(i,j) = v] is a finite-map insertion at key
      [(i,j)].
    - The geometry kernel (Jacobians, [computeTopology]), the spline bases
      and the sparse linear algebra and solver (Eigen) are external: they
      enter as record fields and as operations of the interface
      [EigenOps].

    The line search [stepsize] of [examples/LinpLap_example.cpp] is
    embedded at the end of the definitions, with its assembler as a
    parameter. *)

From Stdlib Require Import ZArith QArith Lia.
From stdpp Require Import gmap list.

Local Open Scope Z_scope.

(** ** Scalars *)

Abbreviation real_t := Q (only parsing).
Abbreviation index_t := Z (only parsing).

(** Defaults returned by out-of-range reads ([v !!! i]). *)
#[global] Instance Q_inhabited : Inhabited Q := populate 0%Q.
#[global] Instance index_inhabited : Inhabited Z := populate 0.
#[global] Instance flag_inhabited : Inhabited bool := populate false.

(** [a > b] on [real_t]. *)
Definition Qgtb (a b : Q) : bool :=
  (Qnum b * Zpos (Qden a) <? Qnum a * Zpos (Qden b))%Z.

Definition to_size_t (z : Z) : Z := z mod 2 ^ 64.
Definition to_index_t (u : Z) : Z := if u <? 2 ^ 63 then u else u - 2 ^ 64.

Definition b2z (b : bool) : Z := if b then 1 else 0.

(** ** Topology and bases (external collaborators) *)

Record patchSide := { ps_patch : nat; m_index : Z }.
Record boundaryInterface := { first : patchSide; second : patchSide }.
Record patchCorner := { pc_patch : nat }.

(** A 2x2 Jacobian is given by its two columns. *)
Definition gsVector2 : Type := Q * Q.
Definition gsMatrix2 : Type := gsVector2 * gsVector2.
Definition col (m : gsMatrix2) (k : nat) : gsVector2 :=
  match k with O => fst m | _ => snd m end.
Definition determinant (m : gsMatrix2) : Q :=
  (fst (fst m) * snd (snd m) - fst (snd m) * snd (fst m))%Q.

Record gsGeometry := {
  coefs : list real_t;
  jacobian : gsVector2 -> gsMatrix2
}.

Record gsMultiPatch := {
  patches : list gsGeometry;
  interfaces : list boundaryInterface;
  boundaries : list patchSide;
  vertices : list (list patchCorner);
  (** number of interfaces [computeTopology()] finds on the multi-patch made
      of the patches that meet in the given corners *)
  localInterfaces : list patchCorner -> nat
}.

Record gsBSplineBasis := {
  degree : Z;
  multiplicityIndex : Z -> Z;
  numElements : Z;
  bsize : Z
}.
Definition maxDegree (b : gsBSplineBasis) : Z := degree b.

Record gsBasis := {
  size : Z;
  component : nat -> gsBSplineBasis
}.
Abbreviation gsMultiBasis := (list gsBasis) (only parsing).

#[global] Instance patchSide_inhabited : Inhabited patchSide :=
  populate {| ps_patch := 0%nat; m_index := 0 |}.
#[global] Instance boundaryInterface_inhabited : Inhabited boundaryInterface :=
  populate {| first := inhabitant; second := inhabitant |}.
#[global] Instance gsGeometry_inhabited : Inhabited gsGeometry :=
  populate {| coefs := []; jacobian := fun _ => ((0, 0), (0, 0))%Q |}.
#[global] Instance gsBSplineBasis_inhabited : Inhabited gsBSplineBasis :=
  populate {| degree := 0; multiplicityIndex := fun _ => 0;
              numElements := 0; bsize := 0 |}.
#[global] Instance gsBasis_inhabited : Inhabited gsBasis :=
  populate {| size := 0; component := fun _ => inhabitant |}.

Definition nPatches (mp : gsMultiPatch) : nat := length (patches mp).
Definition patch (mp : gsMultiPatch) (i : nat) : gsGeometry := patches mp !!! i.
Definition nBases (mb : gsMultiBasis) : nat := length mb.
Definition basis (mb : gsMultiBasis) (i : nat) : gsBasis := mb !!! i.

(** ** Sparse matrices *)

Record gsSparseMatrix := {
  rows : Z;
  cols : Z;
  entries : gmap (Z * Z) real_t
}.

Definition resize (r c : Z) : gsSparseMatrix :=
  {| rows := r; cols := c; entries := ∅ |}.
Definition sm_insert (ii jj : Z) (v : real_t) (M : gsSparseMatrix) : gsSparseMatrix :=
  {| rows := rows M; cols := cols M; entries := <[(ii, jj) := v]> (entries M) |}.
Definition coeff (M : gsSparseMatrix) (ii jj : Z) : option real_t :=
  entries M !! (ii, jj).

(** ** The system object *)

Record gsG1System := {
  m_twoPatch : bool;
  m_neumannBdy : bool;
  m_isogeometric : bool;
  dim_K : Z;
  dim_G1_Dofs : Z;
  dim_G1_Bdy : Z;
  numBasisFunctions : list (list Z);
  kindOfVertex : list Z;
  sizePlusInt : list Z;
  sizePlusBdy : list Z;
  D_sparse : gsSparseMatrix;
  D_0_sparse : gsSparseMatrix;
  D_boundary_sparse : gsSparseMatrix;
  m_g1 : list real_t;
  kink : list bool
}.

Definition set_numBasisFunctions (t : list (list Z)) (s : gsG1System) :=
  {| m_twoPatch := m_twoPatch s; m_neumannBdy := m_neumannBdy s;
     m_isogeometric := m_isogeometric s; dim_K := dim_K s;
     dim_G1_Dofs := dim_G1_Dofs s; dim_G1_Bdy := dim_G1_Bdy s;
     numBasisFunctions := t; kindOfVertex := kindOfVertex s;
     sizePlusInt := sizePlusInt s; sizePlusBdy := sizePlusBdy s;
     D_sparse := D_sparse s; D_0_sparse := D_0_sparse s;
     D_boundary_sparse := D_boundary_sparse s; m_g1 := m_g1 s;
     kink := kink s |}.
Definition set_kindOfVertex (t : list Z) (s : gsG1System) :=
  {| m_twoPatch := m_twoPatch s; m_neumannBdy := m_neumannBdy s;
     m_isogeometric := m_isogeometric s; dim_K := dim_K s;
     dim_G1_Dofs := dim_G1_Dofs s; dim_G1_Bdy := dim_G1_Bdy s;
     numBasisFunctions := numBasisFunctions s; kindOfVertex := t;
     sizePlusInt := sizePlusInt s; sizePlusBdy := sizePlusBdy s;
     D_sparse := D_sparse s; D_0_sparse := D_0_sparse s;
     D_boundary_sparse := D_boundary_sparse s; m_g1 := m_g1 s;
     kink := kink s |}.
Definition set_sizePlusInt (t : list Z) (s : gsG1System) :=
  {| m_twoPatch := m_twoPatch s; m_neumannBdy := m_neumannBdy s;
     m_isogeometric := m_isogeometric s; dim_K := dim_K s;
     dim_G1_Dofs := dim_G1_Dofs s; dim_G1_Bdy := dim_G1_Bdy s;
     numBasisFunctions := numBasisFunctions s; kindOfVertex := kindOfVertex s;
     sizePlusInt := t; sizePlusBdy := sizePlusBdy s;
     D_sparse := D_sparse s; D_0_sparse := D_0_sparse s;
     D_boundary_sparse := D_boundary_sparse s; m_g1 := m_g1 s;
     kink := kink s |}.
Definition set_sizePlusBdy (t : list Z) (s : gsG1System) :=
  {| m_twoPatch := m_twoPatch s; m_neumannBdy := m_neumannBdy s;
     m_isogeometric := m_isogeometric s; dim_K := dim_K s;
     dim_G1_Dofs := dim_G1_Dofs s; dim_G1_Bdy := dim_G1_Bdy s;
     numBasisFunctions := numBasisFunctions s; kindOfVertex := kindOfVertex s;
     sizePlusInt := sizePlusInt s; sizePlusBdy := t;
     D_sparse := D_sparse s; D_0_sparse := D_0_sparse s;
     D_boundary_sparse := D_boundary_sparse s; m_g1 := m_g1 s;
     kink := kink s |}.
Definition set_kink (t : list bool) (s : gsG1System) :=
  {| m_twoPatch := m_twoPatch s; m_neumannBdy := m_neumannBdy s;
     m_isogeometric := m_isogeometric s; dim_K := dim_K s;
     dim_G1_Dofs := dim_G1_Dofs s; dim_G1_Bdy := dim_G1_Bdy s;
     numBasisFunctions := numBasisFunctions s; kindOfVertex := kindOfVertex s;
     sizePlusInt := sizePlusInt s; sizePlusBdy := sizePlusBdy s;
     D_sparse := D_sparse s; D_0_sparse := D_0_sparse s;
     D_boundary_sparse := D_boundary_sparse s; m_g1 := m_g1 s;
     kink := t |}.
Definition set_D_sparse (M : gsSparseMatrix) (s : gsG1System) :=
  {| m_twoPatch := m_twoPatch s; m_neumannBdy := m_neumannBdy s;
     m_isogeometric := m_isogeometric s; dim_K := dim_K s;
     dim_G1_Dofs := dim_G1_Dofs s; dim_G1_Bdy := dim_G1_Bdy s;
     numBasisFunctions := numBasisFunctions s; kindOfVertex := kindOfVertex s;
     sizePlusInt := sizePlusInt s; sizePlusBdy := sizePlusBdy s;
     D_sparse := M; D_0_sparse := D_0_sparse s;
     D_boundary_sparse := D_boundary_sparse s; m_g1 := m_g1 s;
     kink := kink s |}.

(** [numBasisFunctions[k]], [numBasisFunctions[k][i]] and
    [numBasisFunctions[k].last()]. *)
Definition table (s : gsG1System) (k : nat) : list Z := numBasisFunctions s !!! k.
Definition entry (s : gsG1System) (k i : nat) : Z := table s k !!! i.
Definition vlast (t : list Z) : Z := default 0 (last t).
Definition last_entry (s : gsG1System) (k : nat) : Z := vlast (table s k).

Definition set_table (k : nat) (t : list Z) (s : gsG1System) : gsG1System :=
  set_numBasisFunctions (<[k := t]> (numBasisFunctions s)) s.
(** [numBasisFunctions[k][i] = v] *)
Definition set_entry (k i : nat) (v : Z) (s : gsG1System) : gsG1System :=
  set_table k (<[i := v]> (table s k)) s.

(** [kink[k]] *)
Definition kink_at (s : gsG1System) (k : nat) : bool := kink s !!! k.

Definition setZero (n : nat) : list Z := replicate n 0.

(** [for (size_t i = 0; i < n; i++) body] *)
Definition for_each {S : Type} (n : nat) (body : nat -> S -> S) (s : S) : S :=
  foldl (fun s i => body i s) s (seq 0 n).

(** ** Construction and the two initializers *)

(** State left by the constructor before it dispatches:
    [numBasisFunctions.resize(7)], the three mode flags set. *)
Definition constructed (neumannBdy twoPatch isogeometric : bool) : gsG1System :=
  {| m_twoPatch := twoPatch; m_neumannBdy := neumannBdy;
     m_isogeometric := isogeometric; dim_K := 0; dim_G1_Dofs := 0;
     dim_G1_Bdy := 0; numBasisFunctions := replicate 7 [];
     kindOfVertex := []; sizePlusInt := []; sizePlusBdy := [];
     D_sparse := resize 0 0; D_0_sparse := resize 0 0;
     D_boundary_sparse := resize 0 0; m_g1 := []; kink := [] |}.

(** The [setZero] calls that open both initializers. *)
Definition allocate (mp : gsMultiPatch) (s : gsG1System) : gsG1System :=
  let numPatches := nPatches mp in
  let s := set_sizePlusInt (setZero (length (interfaces mp))) s in
  let s := set_sizePlusBdy (setZero (length (boundaries mp))) s in
  let s := set_kindOfVertex (setZero (length (vertices mp))) s in
  let s := set_table 5 (setZero (numPatches + 1)) s in
  let s := set_table 0 (setZero (length (interfaces mp) + 1)) s in
  let s := set_table 1 (setZero (length (boundaries mp) + 1)) s in
  let s := set_table 3 (setZero (length (boundaries mp) + 1)) s in
  let s := set_table 2 (setZero (length (vertices mp) + 1)) s in
  let s := set_table 4 (setZero (length (vertices mp) + 1)) s in
  set_table 6 (setZero (numPatches + 1)) s.

(** [for i < mb.nBases(): numBasisFunctions[k][i+1] =
    numBasisFunctions[k][i] + mb.basis(i).size()] *)
Definition fill_sizes (k : nat) (mb : gsMultiBasis) (s : gsG1System) : gsG1System :=
  for_each (nBases mb)
    (fun i s => set_entry k (S i) (entry s k i + size (basis mb i)) s) s.

(** The Jacobian-alignment test: first Jacobian columns of patch 0 at [pt0]
    and of patch 1 at [pt1], squared determinant against 1e-25. *)
Definition kink_matrix (mp : gsMultiPatch) (pt0 pt1 : gsVector2) : gsMatrix2 :=
  (col (jacobian (patch mp 0) pt0) 0, col (jacobian (patch mp 1) pt1) 0).
Definition kink_test (mp : gsMultiPatch) (pt0 pt1 : gsVector2) : bool :=
  Qgtb (determinant (kink_matrix mp pt0 pt1) * determinant (kink_matrix mp pt0 pt1)) 1e-25.

Definition dir_of_side (side : patchSide) : nat :=
  if m_index side <? 3 then 1%nat else 0%nat.

(** Quantities of one interface in the two-patch initializer. *)
Definition tp_basis_1 (mp : gsMultiPatch) (mb : list gsMultiBasis) (i : nat) : gsBSplineBasis :=
  let item := interfaces mp !!! i in
  component (basis (mb !!! 0%nat) (ps_patch (first item))) (dir_of_side (first item)).
Definition tp_basis_2 (mp : gsMultiPatch) (mb : list gsMultiBasis) (i : nat) : gsBSplineBasis :=
  let item := interfaces mp !!! i in
  component (basis (mb !!! 0%nat) (ps_patch (second item))) (dir_of_side (second item)).
Definition tp_m_p (mp : gsMultiPatch) (mb : list gsMultiBasis) (i : nat) : Z :=
  let p_1 := degree (tp_basis_1 mp mb i) in
  let p_2 := degree (tp_basis_2 mp mb i) in
  if p_1 >? p_2 then p_2 else p_1.
Definition tp_m_r (mp : gsMultiPatch) (mb : list gsMultiBasis) (i : nat) : Z :=
  let basis_1 := tp_basis_1 mp mb i in
  let p_1 := degree basis_1 in
  let m_p := tp_m_p mp mb i in
  if m_p - multiplicityIndex basis_1 (p_1 + 1) >? m_p - 2
  then m_p - 2 else m_p - multiplicityIndex basis_1 (p_1 + 1).
Definition tp_m_n (mp : gsMultiPatch) (mb : list gsMultiBasis) (i : nat) : Z :=
  let n_1 := numElements (tp_basis_1 mp mb i) in
  let n_2 := numElements (tp_basis_2 mp mb i) in
  if n_1 >? n_2 then n_2 else n_1.
Definition tp_numInnerKnot (mp : gsMultiPatch) (mb : list gsMultiBasis)
    (innerKnotMulti : Z) (i : nat) : Z :=
  if (0 <? innerKnotMulti) && (tp_m_p mp mb i - 1 - tp_m_r mp mb i =? 1) then 3 else 0.

(** Body of the interface loop of [initialize_twoPatch]. *)
Definition tp_interface_step (mp : gsMultiPatch) (mb : list gsMultiBasis)
    (innerKnotMulti : Z) (i : nat) (s : gsG1System) : gsG1System :=
  let m_p := tp_m_p mp mb i in
  let m_r := tp_m_r mp mb i in
  let m_n := tp_m_n mp mb i in
  let numIntBdy := if m_neumannBdy s then 8 else 4 in
  let kink0 := kink_test mp (1, 0)%Q (0, 0)%Q in
  let numIntBdy := if kink0 then numIntBdy + 1 else numIntBdy in
  let kink1 := kink_test mp (1, 1)%Q (0, 1)%Q in
  let numIntBdy := if kink1 then numIntBdy + 1 else numIntBdy in
  let numInnerKnot := tp_numInnerKnot mp mb innerKnotMulti i in
  let s := set_kink [kink0; kink1] s in
  let s := set_entry 0 (S i)
             (entry s 0 i + 2 * (m_p - m_r - 1) * (m_n - 1) + 2 * m_p + 1
              - numIntBdy + 2 * numInnerKnot) s in
  set_sizePlusInt
    (<[i := to_size_t ((m_p - m_r - 1) * (m_n - 1) + m_p + 1 + numInnerKnot)]>
       (sizePlusInt s)) s.

Definition bdy_basis_edge (mp : gsMultiPatch) (mb : list gsMultiBasis) (i : nat) : gsBSplineBasis :=
  let side := boundaries mp !!! i in
  component (basis (mb !!! 0%nat) (ps_patch side)) (dir_of_side side).

(** Body of the boundary loop of [initialize_twoPatch]. *)
Definition tp_boundary_step (mp : gsMultiPatch) (mb : list gsMultiBasis)
    (i : nat) (s : gsG1System) : gsG1System :=
  let basis_edge := bdy_basis_edge mp mb i in
  let s :=
    if m_neumannBdy s then
      let s := set_entry 3 (S i) (entry s 3 i + 2 * bsize basis_edge - 8) s in
      set_entry 1 (S i) (entry s 1 i) s
    else
      let s := set_entry 3 (S i) (entry s 3 i + bsize basis_edge - 4) s in
      set_entry 1 (S i) (entry s 1 i + bsize basis_edge - 4) s in
  set_sizePlusBdy (<[i := to_size_t (bsize basis_edge - 4)]> (sizePlusBdy s)) s.

(** [kindOfVertex[i] = kind; numBasisFunctions[2][i+1] = numBasisFunctions[2][i] + dofs;
    numBasisFunctions[4][i+1] = numBasisFunctions[4][i] + bdy] *)
Definition set_vertex (i : nat) (kind dofs bdy : Z) (s : gsG1System) : gsG1System :=
  let s := set_kindOfVertex (<[i := kind]> (kindOfVertex s)) s in
  let s := set_entry 2 (S i) (entry s 2 i + dofs) s in
  set_entry 4 (S i) (entry s 4 i + bdy) s.

(** Body of the vertex loop of [initialize_twoPatch]. *)
Definition tp_vertex_step (mp : gsMultiPatch) (i : nat) (s : gsG1System) : gsG1System :=
  let corners := vertices mp !!! i in
  if (length corners =? 1)%nat then
    if m_neumannBdy s then set_vertex i (-1) 0 4 s else set_vertex i (-1) 1 3 s
  else if (length corners =? localInterfaces mp corners)%nat then
    set_vertex i 0 0 0 s
  else if m_neumannBdy s then set_vertex i 1 0 4 s
  else
    let s := set_vertex i 1 0 2 s in
    if kink_at s (if (i =? 1)%nat then 0%nat else 1%nat)
    then set_entry 4 (S i) (entry s 4 (S i) + 1) s
    else s.

(** [numBasisFunctions[k] = numBasisFunctions[k].array() +
    numBasisFunctions[k-1].last()] *)
Definition chain_table (k : nat) (s : gsG1System) : gsG1System :=
  set_table k (map (fun x => x + last_entry s (pred k)) (table s k)) s.
Definition chain_tables (s : gsG1System) : gsG1System :=
  chain_table 4 (chain_table 3 (chain_table 2 (chain_table 1 s))).

(** Final block of both initializers: the three dimensions, the three
    matrices resized and zeroed, the boundary value vector zeroed. *)
Definition set_dimensions (s : gsG1System) : gsG1System :=
  let dK := last_entry s 6 in
  let dDofs := last_entry s 2 in
  let dBdy := last_entry s 4 - entry s 3 0 in
  {| m_twoPatch := m_twoPatch s; m_neumannBdy := m_neumannBdy s;
     m_isogeometric := m_isogeometric s; dim_K := dK;
     dim_G1_Dofs := dDofs; dim_G1_Bdy := dBdy;
     numBasisFunctions := numBasisFunctions s; kindOfVertex := kindOfVertex s;
     sizePlusInt := sizePlusInt s; sizePlusBdy := sizePlusBdy s;
     D_sparse := resize (dDofs + dBdy + dK) dK;
     D_0_sparse := resize (dDofs + dBdy + dK) dK;
     D_boundary_sparse := resize (dDofs + dBdy + dK) dK;
     m_g1 := replicate (Z.to_nat (dDofs + dBdy + dK)) 0%Q;
     kink := kink s |}.

(** The interface-column table (category 6) of the two-patch initializer. *)
Definition tp_fill_interface_columns (mb : list gsMultiBasis) (s : gsG1System) : gsG1System :=
  if negb (m_isogeometric s) && (length mb =? 2)%nat then
    let s := set_entry 6 0 (last_entry s 5) s in
    fill_sizes 6 (mb !!! 1%nat) s
  else if m_isogeometric s then fill_sizes 6 (mb !!! 0%nat) s
  else s.

Definition initialize_twoPatch (mp : gsMultiPatch) (mb : list gsMultiBasis)
    (innerKnotMulti : Z) (s : gsG1System) : gsG1System :=
  let s := allocate mp s in
  let s := fill_sizes 5 (mb !!! 0%nat) s in
  let s := tp_fill_interface_columns mb s in
  let s := for_each (length (interfaces mp)) (tp_interface_step mp mb innerKnotMulti) s in
  let s := for_each (length (boundaries mp)) (tp_boundary_step mp mb) s in
  let s := for_each (length (vertices mp)) (tp_vertex_step mp) s in
  set_dimensions (chain_tables s).

(** Quantities of one interface or boundary side in the general initializer. *)
Definition gen_basis_edge (mp : gsMultiPatch) (mb : list gsMultiBasis) (i : nat) : gsBSplineBasis :=
  let item := interfaces mp !!! i in
  component (basis (mb !!! 0%nat) (ps_patch (first item))) (dir_of_side (first item)).

(** Body of the interface loop of [initialize]. *)
Definition gen_interface_step (mp : gsMultiPatch) (mb : list gsMultiBasis)
    (i : nat) (s : gsG1System) : gsG1System :=
  let basis_edge := gen_basis_edge mp mb i in
  let m_p := maxDegree basis_edge in
  let m_r := 1 in
  let m_n := numElements basis_edge in
  let s := set_entry 0 (S i)
             (entry s 0 i + 2 * (m_p - m_r - 1) * (m_n - 1) + 2 * m_p - 9) s in
  set_sizePlusInt
    (<[i := to_size_t ((m_p - m_r - 1) * (m_n - 1) + m_p + 1)]> (sizePlusInt s)) s.

(** Body of the boundary loop of [initialize]. *)
Definition gen_boundary_step (mp : gsMultiPatch) (mb : list gsMultiBasis)
    (i : nat) (s : gsG1System) : gsG1System :=
  let basis_edge := bdy_basis_edge mp mb i in
  let m_p := maxDegree basis_edge in
  let m_r := 1 in
  let m_n := numElements basis_edge in
  let s :=
    if m_neumannBdy s then
      let s := set_entry 3 (S i)
                 (entry s 3 i + 2 * (m_p - m_r - 1) * (m_n - 1) + 2 * m_p + 1 - 10) s in
      set_entry 1 (S i) (entry s 1 i) s
    else
      let s := set_entry 3 (S i)
                 (entry s 3 i + (m_p - m_r - 1) * (m_n - 1) + m_p + 1 - 6) s in
      set_entry 1 (S i)
        (entry s 1 i + (m_p - m_r - 1) * (m_n - 1) + m_p - 4) s in
  set_sizePlusBdy
    (<[i := to_size_t ((m_p - m_r - 1) * (m_n - 1) + m_p + 1)]> (sizePlusBdy s)) s.

(** Body of the vertex loop of [initialize]. *)
Definition gen_vertex_step (mp : gsMultiPatch) (i : nat) (s : gsG1System) : gsG1System :=
  let corners := vertices mp !!! i in
  if (length corners =? 1)%nat then set_vertex i (-1) 1 6 s
  else if (length corners =? localInterfaces mp corners)%nat then set_vertex i 0 6 0 s
  else set_vertex i 1 3 6 s.

Definition initialize (mp : gsMultiPatch) (mb : list gsMultiBasis)
    (s : gsG1System) : gsG1System :=
  let s := allocate mp s in
  let s := fill_sizes 5 (mb !!! 0%nat) s in
  let s := if m_isogeometric s then fill_sizes 6 (mb !!! 0%nat) s else s in
  let s := for_each (length (interfaces mp)) (gen_interface_step mp mb) s in
  let s := for_each (length (boundaries mp)) (gen_boundary_step mp mb) s in
  let s := for_each (length (vertices mp)) (gen_vertex_step mp) s in
  set_dimensions (chain_tables s).

(** The constructor [gsG1System(mp, mb, innerKnotMulti, neumannBdy, twoPatch,
    isogeometric)]. *)
Definition new_gsG1System (mp : gsMultiPatch) (mb : list gsMultiBasis)
    (innerKnotMulti : Z) (neumannBdy twoPatch isogeometric : bool) : gsG1System :=
  let s := constructed neumannBdy twoPatch isogeometric in
  if m_twoPatch s then initialize_twoPatch mp mb innerKnotMulti s
  else initialize mp mb s.

(** ** Transformation assembler: the three insertion operations *)

(** [for (index_t i = lo; i < hi; i++) body] *)
Definition for_range {S : Type} (lo hi : Z) (body : Z -> S -> S) (s : S) : S :=
  foldl (fun s i => body i s) s (seqZ lo (hi - lo)).

(** [D_sparse.insert(ii,jj) = v] *)
Definition D_insert (ii jj : Z) (v : real_t) (s : gsG1System) : gsG1System :=
  set_D_sparse (sm_insert ii jj v (D_sparse s)) s.

(** The pruning guard [c * c > 10e-25] of every insertion. *)
Definition kept (c : real_t) : bool := Qgtb (c * c) 10e-25.

(** [mp.patch(np).coefs().at(j)] *)
Definition coef_at (mp : gsMultiPatch) (np j : nat) : real_t := coefs (patch mp np) !!! j.

(** [np == 0 ? item.first().patch : item.second().patch] *)
Definition interface_patch (item : boundaryInterface) (np : nat) : nat :=
  if (np =? 0)%nat then ps_patch (first item) else ps_patch (second item).

(** Loop body of [insertInterfaceEdge] for patch [np] and coefficient [j]. *)
Definition insertInterfaceEdge_body (mp : gsMultiPatch) (item : boundaryInterface)
    (iID : nat) (bfID : Z) (np j : nat) (s : gsG1System) : gsG1System :=
  let c := coef_at mp np j in
  let jj := entry s 6 (interface_patch item np) + Z.of_nat j in
  if m_twoPatch s && negb (m_neumannBdy s) then
    let plusInt := to_index_t (sizePlusInt s !!! 0%nat) in
    if (bfID =? 0) || (bfID =? plusInt - 1) || (bfID =? plusInt) || (bfID =? 2 * plusInt - 2)
    then
      let s :=
        if (bfID =? 0) || (bfID =? plusInt) then
          if kept c then D_insert (entry s 4 1 + (if bfID =? 0 then 0 else 1)) jj c s else s
        else s in
      if (bfID =? plusInt - 1) || (bfID =? 2 * plusInt - 2) then
        if kept c
        then D_insert (entry s 4 3 + (if bfID =? plusInt - 1 then 0 else 1)) jj c s
        else s
      else s
    else if (bfID =? 1) && kink_at s 0 then
      if kept c then D_insert (entry s 4 1 + 2) jj c s else s
    else if (bfID =? plusInt - 2) && kink_at s 1 then
      if kept c then D_insert (entry s 4 3 + 2) jj c s else s
    else
      if kept c then
        let bfID_shift :=
          if bfID <? plusInt - (if kink_at s 1 then 2 else 1)
          then (if kink_at s 0 then 2 else 1)
          else 3 + (if kink_at s 0 then 1 else 0) + (if kink_at s 1 then 1 else 0) in
        D_insert (entry s 0 iID + bfID - bfID_shift) jj c s
      else s
  else
    if kept c then D_insert (entry s 0 iID + bfID) jj c s else s.

Definition insertInterfaceEdge (mp : gsMultiPatch) (item : boundaryInterface)
    (iID : nat) (bfID : Z) (s : gsG1System) : gsG1System :=
  for_each 2 (fun np s =>
    for_each (length (coefs (patch mp np)))
      (fun j s => insertInterfaceEdge_body mp item iID bfID np j s) s) s.

(** Global row chosen by [insertBoundaryEdge]. *)
Definition boundary_row (s : gsG1System) (bID : nat) (bfID : Z) : Z :=
  if m_twoPatch s && negb (m_neumannBdy s) then
    if bfID <? sizePlusBdy s !!! bID
    then entry s 3 bID + bfID
    else entry s 1 bID + bfID - sizePlusBdy s !!! bID
  else if negb (m_neumannBdy s) then
    if bfID <? to_size_t (sizePlusBdy s !!! bID - 6)
    then entry s 3 bID + bfID
    else entry s 1 bID + bfID - sizePlusBdy s !!! bID + 6
  else entry s 3 bID + bfID.

Definition insertBoundaryEdge_body (mp : gsMultiPatch) (item : patchSide)
    (bID : nat) (bfID : Z) (j : nat) (s : gsG1System) : gsG1System :=
  let c := coef_at mp 0 j in
  if kept c then
    let ii := boundary_row s bID bfID in
    let jj := entry s 5 (ps_patch item) + Z.of_nat j in
    D_insert ii jj c s
  else s.

Definition insertBoundaryEdge (mp : gsMultiPatch) (item : patchSide)
    (bID : nat) (bfID : Z) (s : gsG1System) : gsG1System :=
  for_each (length (coefs (patch mp 0)))
    (fun j s => insertBoundaryEdge_body mp item bID bfID j s) s.

(** Global row chosen by [insertVertex]; [-1] when [kindOfVertex[vID]] is
    none of 0, -1, 1. *)
Definition vertex_row (s : gsG1System) (vID : nat) (nDofs bfID : Z) : Z :=
  if kindOfVertex s !!! vID =? 0 then entry s 2 vID + bfID
  else if kindOfVertex s !!! vID =? -1 then
    if bfID <? nDofs then entry s 2 vID + bfID else entry s 4 vID + bfID - nDofs
  else if kindOfVertex s !!! vID =? 1 then
    if bfID <? nDofs then entry s 2 vID + bfID else entry s 4 vID + bfID - nDofs
  else -1.

Definition insertVertex_body (mp : gsMultiPatch) (patchIndex : list nat)
    (vID : nat) (nDofs bfID : Z) (np j : nat) (s : gsG1System) : gsG1System :=
  let c := coef_at mp np j in
  if kept c then
    let ii := vertex_row s vID nDofs bfID in
    let jj := entry s 5 (patchIndex !!! np) + Z.of_nat j in
    D_insert ii jj c s
  else s.

Definition insertVertex (mp : gsMultiPatch) (patchIndex : list nat)
    (vID : nat) (nDofs bfID : Z) (s : gsG1System) : gsG1System :=
  for_each (nPatches mp) (fun np s =>
    for_each (length (coefs (patch mp np)))
      (fun j s => insertVertex_body mp patchIndex vID nDofs bfID np j s) s) s.

(** ** External sparse linear algebra and solver *)

Inductive ComputationInfo := Success | NumericalIssue | NoConvergence | InvalidInput.

(** dense column vectors *)
Abbreviation gsMatrix := (list Q) (only parsing).

Record EigenOps := {
  (** sparse * sparse *)
  mul : gsSparseMatrix -> gsSparseMatrix -> gsSparseMatrix;
  transpose : gsSparseMatrix -> gsSparseMatrix;
  (** sparse * dense column *)
  mul_dense : gsSparseMatrix -> gsMatrix -> gsMatrix;
  (** dense - dense *)
  sub_dense : gsMatrix -> gsMatrix -> gsMatrix;
  (** [gsSparseSolver<>::CGDiagonal]: [compute(A)] then [solve(F)], giving the
      last iterate and the solver's [info()] *)
  CGDiagonal : gsSparseMatrix -> gsMatrix -> gsMatrix * ComputationInfo
}.

(** ** System reducer, solver adapter and sparse reconstruction *)

Definition identity_insert (ii : Z) (M : gsSparseMatrix) : gsSparseMatrix :=
  sm_insert ii ii 1%Q M.

(** Inner body of the interior loop of [finalize], acting on the pair
    ([B_0_sparse], system). *)
Definition finalize_body (mb : gsMultiBasis) (np : nat) (j i : Z)
    (st : gsSparseMatrix * gsG1System) : gsSparseMatrix * gsG1System :=
  let '(B_0, s) := st in
  let dim_u := bsize (component (basis mb np) 0) in
  let ii := dim_G1_Dofs s + dim_G1_Bdy s + entry s 5 np + j * dim_u + i in
  let jj := entry s 5 np + j * dim_u + i in
  (identity_insert ii B_0, D_insert ii jj 1%Q s).

Definition finalize_interior (mb : gsMultiBasis)
    (st : gsSparseMatrix * gsG1System) : gsSparseMatrix * gsG1System :=
  for_each (nBases mb) (fun np st =>
    let dim_u := bsize (component (basis mb np) 0) in
    let dim_v := bsize (component (basis mb np) 1) in
    for_range 2 (dim_v - 2) (fun j st =>
      for_range 2 (dim_u - 2) (fun i st => finalize_body mb np j i st) st) st) st.

(** [m_g1.block(dim_G1_Dofs,0,dim_G1_Bdy,1) = g1] *)
Definition store_boundary_values (dofs bdy : Z) (g1 : gsMatrix) (v : gsMatrix) : gsMatrix :=
  for_each (Z.to_nat bdy) (fun i v => <[(Z.to_nat dofs + i)%nat := g1 !!! i]> v) v.

Definition finalize (ops : EigenOps) (mp : gsMultiPatch) (mb : gsMultiBasis)
    (g1 : gsMatrix) (s : gsG1System) : gsG1System :=
  let n := dim_G1_Dofs s + dim_G1_Bdy s + dim_K s in
  let B_0 := for_each (Z.to_nat (dim_G1_Dofs s))
               (fun i B => identity_insert (Z.of_nat i) B) (resize n n) in
  let B_boundary := for_each (Z.to_nat (dim_G1_Bdy s))
               (fun i B => identity_insert (dim_G1_Dofs s + Z.of_nat i) B) (resize n n) in
  let '(B_0, s) := finalize_interior mb (B_0, s) in
  {| m_twoPatch := m_twoPatch s; m_neumannBdy := m_neumannBdy s;
     m_isogeometric := m_isogeometric s; dim_K := dim_K s;
     dim_G1_Dofs := dim_G1_Dofs s; dim_G1_Bdy := dim_G1_Bdy s;
     numBasisFunctions := numBasisFunctions s; kindOfVertex := kindOfVertex s;
     sizePlusInt := sizePlusInt s; sizePlusBdy := sizePlusBdy s;
     D_sparse := D_sparse s;
     D_0_sparse := mul ops B_0 (D_sparse s);
     D_boundary_sparse := mul ops B_boundary (D_sparse s);
     m_g1 := store_boundary_values (dim_G1_Dofs s) (dim_G1_Bdy s) g1 (m_g1 s);
     kink := kink s |}.

(** The matrix and right-hand side [solve] hands to the solver. *)
Definition solve_A (ops : EigenOps) (s : gsG1System) (K : gsSparseMatrix) : gsSparseMatrix :=
  mul ops (mul ops (D_0_sparse s) K) (transpose ops (D_0_sparse s)).
Definition solve_F (ops : EigenOps) (s : gsG1System) (K : gsSparseMatrix) (f : gsMatrix) : gsMatrix :=
  sub_dense ops
    (mul_dense ops (D_0_sparse s) f)
    (mul_dense ops
       (mul ops (mul ops (D_0_sparse s) K) (transpose ops (D_boundary_sparse s)))
       (m_g1 s)).

(** How a call of [solve] can end for its caller: it returns a matrix, or
    it raises an error. *)
Inductive solve_result :=
  | Returned (x : gsMatrix)
  | NumericalError.

Definition solve (ops : EigenOps) (s : gsG1System) (K : gsSparseMatrix)
    (f : gsMatrix) : solve_result :=
  let A := solve_A ops s K in
  let F := solve_F ops s K f in
  let x0 := fst (CGDiagonal ops A F) in
  Returned x0.

(** [M.block(0,0,nr,nc)] *)
Definition block00 (nr nc : Z) (M : gsSparseMatrix) : gsSparseMatrix :=
  {| rows := nr; cols := nc;
     entries := filter (fun kv => 0 <= kv.1.1 < nr /\ 0 <= kv.1.2 < nc) (entries M) |}.

(** [M.row(i) *= x] *)
Definition scale_row (i : Z) (x : real_t) (M : gsSparseMatrix) : gsSparseMatrix :=
  {| rows := rows M; cols := cols M;
     entries := map_imap (fun k v => Some (if k.1 =? i then (v * x)%Q else v)) (entries M) |}.

Definition constructSparseG1Solution (s : gsG1System) (solVector : gsMatrix) : gsSparseMatrix :=
  let dofs := dim_G1_Dofs s in
  let bdy := dim_G1_Bdy s in
  let result := block00 (dofs + bdy + 1) (dim_K s) (D_sparse s) in
  let result := for_range 0 dofs
                  (fun i r => scale_row i (solVector !!! Z.to_nat i) r) result in
  let result := for_range dofs (dofs + bdy)
                  (fun i r => scale_row i (m_g1 s !!! Z.to_nat i) r) result in
  for_range 0 (dim_K s)
    (fun i r => sm_insert (dofs + bdy) i (solVector !!! Z.to_nat (dofs + bdy + i)) r) result.

(** ** Derived notions used to state the properties *)

(** Prefix sums: the offset table that starts at [a] and advances by the
    given per-entity counts. *)
Fixpoint offsets (a : Z) (counts : list Z) : list Z :=
  a :: match counts with
       | [] => []
       | c :: counts' => offsets (a + c) counts'
       end.

Definition nondecreasing (t : list Z) : Prop :=
  forall i j : nat, (i <= j < length t)%nat -> t !!! i <= t !!! j.

(** A sequence of [insert] calls on a sparse matrix. *)
Abbreviation triplet := ((Z * Z) * Q)%type (only parsing).
Definition apply_writes (ws : list triplet) (M : gsSparseMatrix) : gsSparseMatrix :=
  foldl (fun M w => sm_insert w.1.1 w.1.2 w.2 M) M ws.
Definition rows_of (ws : list triplet) : list Z := map (fun w => w.1.1) ws.

(** The rows [insertInterfaceEdge] addresses for ordinal [bfID]. *)
Definition plusInt_of (s : gsG1System) : Z := to_index_t (sizePlusInt s !!! 0%nat).

Definition is_endpoint (s : gsG1System) (bfID : Z) : bool :=
  let plusInt := plusInt_of s in
  (bfID =? 0) || (bfID =? plusInt - 1) || (bfID =? plusInt) || (bfID =? 2 * plusInt - 2).

(** An ordinal is rerouted when it is one of the four endpoint plus-space
    functions or one of the two kink functions. *)
Definition is_rerouted (s : gsG1System) (bfID : Z) : bool :=
  is_endpoint s bfID
  || ((bfID =? 1) && kink_at s 0)
  || ((bfID =? plusInt_of s - 2) && kink_at s 1).

Definition interface_rows (s : gsG1System) (iID : nat) (bfID : Z) : list Z :=
  let plusInt := plusInt_of s in
  if m_twoPatch s && negb (m_neumannBdy s) then
    if is_endpoint s bfID then
      (if (bfID =? 0) || (bfID =? plusInt)
       then [entry s 4 1 + (if bfID =? 0 then 0 else 1)] else [])
      ++ (if (bfID =? plusInt - 1) || (bfID =? 2 * plusInt - 2)
          then [entry s 4 3 + (if bfID =? plusInt - 1 then 0 else 1)] else [])
    else if (bfID =? 1) && kink_at s 0 then [entry s 4 1 + 2]
    else if (bfID =? plusInt - 2) && kink_at s 1 then [entry s 4 3 + 2]
    else
      [entry s 0 iID + bfID
       - (if bfID <? plusInt - (if kink_at s 1 then 2 else 1)
          then (if kink_at s 0 then 2 else 1)
          else 3 + (if kink_at s 0 then 1 else 0) + (if kink_at s 1 then 1 else 0))]
  else [entry s 0 iID + bfID].

(** The writes of one coefficient into the given rows, in order. *)
Definition coef_writes (rs : list Z) (jj : Z) (c : real_t) : list triplet :=
  if kept c then map (fun r => ((r, jj), c)) rs else [].

Definition insertInterfaceEdge_writes (s : gsG1System) (mp : gsMultiPatch)
    (item : boundaryInterface) (iID : nat) (bfID : Z) : list triplet :=
  flat_map (fun np =>
    flat_map (fun j =>
      coef_writes (interface_rows s iID bfID)
        (entry s 6 (interface_patch item np) + Z.of_nat j) (coef_at mp np j))
      (seq 0 (length (coefs (patch mp np)))))
    (seq 0 2).

Definition insertBoundaryEdge_writes (s : gsG1System) (mp : gsMultiPatch)
    (item : patchSide) (bID : nat) (bfID : Z) : list triplet :=
  flat_map (fun j =>
    coef_writes [boundary_row s bID bfID]
      (entry s 5 (ps_patch item) + Z.of_nat j) (coef_at mp 0 j))
    (seq 0 (length (coefs (patch mp 0)))).

Definition insertVertex_writes (s : gsG1System) (mp : gsMultiPatch)
    (patchIndex : list nat) (vID : nat) (nDofs bfID : Z) : list triplet :=
  flat_map (fun np =>
    flat_map (fun j =>
      coef_writes [vertex_row s vID nDofs bfID]
        (entry s 5 (patchIndex !!! np) + Z.of_nat j) (coef_at mp np j))
      (seq 0 (length (coefs (patch mp np)))))
    (seq 0 (nPatches mp)).

(** The insertions of [finalize] into [D_sparse]: for every patch [np] and
    every tensor index [(i,j)] with [2 <= i < dim_u-2], [2 <= j < dim_v-2],
    a one at column [c = numBasisFunctions[5][np] + j*dim_u + i] of row
    [dim_G1_Dofs + dim_G1_Bdy + c]. *)
Definition finalize_writes (s : gsG1System) (mb : gsMultiBasis) : list triplet :=
  flat_map (fun np =>
    let dim_u := bsize (component (basis mb np) 0) in
    let dim_v := bsize (component (basis mb np) 1) in
    flat_map (fun j =>
      flat_map (fun i =>
        [((dim_G1_Dofs s + dim_G1_Bdy s + entry s 5 np + j * dim_u + i,
           entry s 5 np + j * dim_u + i), 1%Q)])
        (seqZ 2 (dim_u - 2 - 2)))
      (seqZ 2 (dim_v - 2 - 2)))
    (seq 0 (nBases mb)).

(** The part of [finalize_interior] that acts on the system. *)
Definition finalize_D (mb : gsMultiBasis) (s : gsG1System) : gsG1System :=
  for_each (nBases mb) (fun np s =>
    let dim_u := bsize (component (basis mb np) 0) in
    let dim_v := bsize (component (basis mb np) 1) in
    for_range 2 (dim_v - 2) (fun j s =>
      for_range 2 (dim_u - 2) (fun i s =>
        D_insert (dim_G1_Dofs s + dim_G1_Bdy s + entry s 5 np + j * dim_u + i)
                 (entry s 5 np + j * dim_u + i) 1%Q s) s) s) s.

(** [(r, c)] is one of the positions [finalize] sets: [c] is a strictly
    interior coefficient column of some patch and [r] its interior row. *)
Definition interior_position (s : gsG1System) (mb : gsMultiBasis) (r c : Z) : Prop :=
  exists (np : nat) (i j : Z),
    (np < nBases mb)%nat
    /\ 2 <= i < bsize (component (basis mb np) 0) - 2
    /\ 2 <= j < bsize (component (basis mb np) 1) - 2
    /\ c = entry s 5 np + j * bsize (component (basis mb np) 0) + i
    /\ r = dim_G1_Dofs s + dim_G1_Bdy s + c.

(** [D_sparse] has the shape the initializers give it. *)
Definition well_shaped (s : gsG1System) : Prop :=
  rows (D_sparse s) = dim_G1_Dofs s + dim_G1_Bdy s + dim_K s
  /\ cols (D_sparse s) = dim_K s.

(** The bases are tensor products: [size = dim_u * dim_v], and they are the
    ones category 5 was built from. *)
Definition tensor_columns (s : gsG1System) (mb : gsMultiBasis) : Prop :=
  table s 5 = offsets 0 (map size mb)
  /\ Forall (fun b => size b = bsize (component b 0) * bsize (component b 1)
                      /\ 0 <= size b) mb
  /\ vlast (table s 5) <= dim_K s.

(** *** Per-entity counts and the tables the initializers build *)

(** The raw interface count of the specification,
    [2*(m_p-m_r-1)*(m_n-1) + 2*m_p + 1]. *)
Definition raw_count (m_p m_r m_n : Z) : Z :=
  2 * (m_p - m_r - 1) * (m_n - 1) + 2 * m_p + 1.

(** The two kink flags of [initialize_twoPatch]: patch 0 at (1,0) against
    patch 1 at (0,0), and patch 0 at (1,1) against patch 1 at (0,1). *)
Definition tp_kink0 (mp : gsMultiPatch) : bool := kink_test mp (1, 0)%Q (0, 0)%Q.
Definition tp_kink1 (mp : gsMultiPatch) : bool := kink_test mp (1, 1)%Q (0, 1)%Q.

(** [numIntBdy] at the end of an iteration of the interface loop. *)
Definition tp_numIntBdy (mp : gsMultiPatch) (neumann : bool) : Z :=
  (if neumann then 8 else 4) + b2z (tp_kink0 mp) + b2z (tp_kink1 mp).

Definition tp_interface_count (mp : gsMultiPatch) (mb : list gsMultiBasis)
    (innerKnotMulti : Z) (neumann : bool) (i : nat) : Z :=
  raw_count (tp_m_p mp mb i) (tp_m_r mp mb i) (tp_m_n mp mb i)
  - tp_numIntBdy mp neumann + 2 * tp_numInnerKnot mp mb innerKnotMulti i.
Definition tp_sizePlusInt (mp : gsMultiPatch) (mb : list gsMultiBasis)
    (innerKnotMulti : Z) (i : nat) : Z :=
  to_size_t ((tp_m_p mp mb i - tp_m_r mp mb i - 1) * (tp_m_n mp mb i - 1)
             + tp_m_p mp mb i + 1 + tp_numInnerKnot mp mb innerKnotMulti i).

Definition tp_boundary_count (mp : gsMultiPatch) (mb : list gsMultiBasis)
    (neumann : bool) (i : nat) : Z :=
  if neumann then 2 * bsize (bdy_basis_edge mp mb i) - 8
  else bsize (bdy_basis_edge mp mb i) - 4.
Definition tp_edge_count (mp : gsMultiPatch) (mb : list gsMultiBasis)
    (neumann : bool) (i : nat) : Z :=
  if neumann then 0 else bsize (bdy_basis_edge mp mb i) - 4.
Definition tp_sizePlusBdy (mp : gsMultiPatch) (mb : list gsMultiBasis) (i : nat) : Z :=
  to_size_t (bsize (bdy_basis_edge mp mb i) - 4).

(** Classification of vertex [i]: -1 boundary, 0 interior, 1 interface-boundary. *)
Definition vertex_kind (mp : gsMultiPatch) (i : nat) : Z :=
  let corners := vertices mp !!! i in
  if (length corners =? 1)%nat then -1
  else if (length corners =? localInterfaces mp corners)%nat then 0
  else 1.

(** the kink flag the two-patch vertex loop consults for vertex [i] *)
Definition kink_of_vertex (i : nat) : nat := if (i =? 1)%nat then 0%nat else 1%nat.

Definition tp_vertex_count (mp : gsMultiPatch) (neumann : bool) (i : nat) : Z :=
  if vertex_kind mp i =? -1 then (if neumann then 0 else 1) else 0.
Definition tp_bdy_vertex_count (mp : gsMultiPatch) (neumann : bool)
    (kk : list bool) (i : nat) : Z :=
  if vertex_kind mp i =? -1 then (if neumann then 4 else 3)
  else if vertex_kind mp i =? 0 then 0
  else if neumann then 4
  else 2 + b2z (kk !!! kink_of_vertex i).

Definition gen_interface_count (mp : gsMultiPatch) (mb : list gsMultiBasis) (i : nat) : Z :=
  raw_count (maxDegree (gen_basis_edge mp mb i)) 1 (numElements (gen_basis_edge mp mb i)) - 10.
Definition gen_sizePlusInt (mp : gsMultiPatch) (mb : list gsMultiBasis) (i : nat) : Z :=
  to_size_t ((maxDegree (gen_basis_edge mp mb i) - 1 - 1)
             * (numElements (gen_basis_edge mp mb i) - 1)
             + maxDegree (gen_basis_edge mp mb i) + 1).
Definition gen_plus (mp : gsMultiPatch) (mb : list gsMultiBasis) (i : nat) : Z :=
  (maxDegree (bdy_basis_edge mp mb i) - 1 - 1) * (numElements (bdy_basis_edge mp mb i) - 1)
  + maxDegree (bdy_basis_edge mp mb i) + 1.
Definition gen_boundary_count (mp : gsMultiPatch) (mb : list gsMultiBasis)
    (neumann : bool) (i : nat) : Z :=
  if neumann then 2 * gen_plus mp mb i - 1 - 10 else gen_plus mp mb i - 6.
Definition gen_edge_count (mp : gsMultiPatch) (mb : list gsMultiBasis)
    (neumann : bool) (i : nat) : Z :=
  if neumann then 0 else gen_plus mp mb i - 5.
Definition gen_vertex_count (mp : gsMultiPatch) (i : nat) : Z :=
  if vertex_kind mp i =? -1 then 1 else if vertex_kind mp i =? 0 then 6 else 3.
Definition gen_bdy_vertex_count (mp : gsMultiPatch) (i : nat) : Z :=
  if vertex_kind mp i =? -1 then 6 else if vertex_kind mp i =? 0 then 0 else 6.

(** The column table filled by [fill_sizes] from a first entry [a]. *)
Definition column_table (a : Z) (mb : gsMultiBasis) (numPatches : nat) : list Z :=
  for_each (nBases mb) (fun i T => <[Datatypes.S i := T !!! i + size (basis mb i)]> T)
    (a :: replicate numPatches 0).

(** The kink vector once the interface loop has run. *)
Definition tp_kinks (mp : gsMultiPatch) : list bool :=
  match interfaces mp with
  | [] => []
  | _ :: _ => [tp_kink0 mp; tp_kink1 mp]
  end.

(** The five chained tables over given per-entity counts. *)
Definition chained_tables (cI cE cV cB cBV : list Z) : list (list Z) :=
  let T0 := offsets 0 cI in
  let T1 := offsets (vlast T0) cE in
  let T2 := offsets (vlast T1) cV in
  let T3 := offsets (vlast T2) cB in
  let T4 := offsets (vlast T3) cBV in
  [T0; T1; T2; T3; T4].

Definition tp_column_tables (mp : gsMultiPatch) (mb : list gsMultiBasis)
    (isogeometric : bool) : list (list Z) :=
  let T5 := column_table 0 (mb !!! 0%nat) (nPatches mp) in
  let T6 :=
    if negb isogeometric && (length mb =? 2)%nat
    then column_table (vlast T5) (mb !!! 1%nat) (nPatches mp)
    else if isogeometric then column_table 0 (mb !!! 0%nat) (nPatches mp)
    else setZero (nPatches mp + 1) in
  [T5; T6].
Definition gen_column_tables (mp : gsMultiPatch) (mb : list gsMultiBasis)
    (isogeometric : bool) : list (list Z) :=
  let T5 := column_table 0 (mb !!! 0%nat) (nPatches mp) in
  let T6 := if isogeometric then column_table 0 (mb !!! 0%nat) (nPatches mp)
            else setZero (nPatches mp + 1) in
  [T5; T6].

Definition tp_tables (mp : gsMultiPatch) (mb : list gsMultiBasis)
    (innerKnotMulti : Z) (neumann isogeometric : bool) : list (list Z) :=
  chained_tables
    (map (tp_interface_count mp mb innerKnotMulti neumann) (seq 0 (length (interfaces mp))))
    (map (tp_edge_count mp mb neumann) (seq 0 (length (boundaries mp))))
    (map (tp_vertex_count mp neumann) (seq 0 (length (vertices mp))))
    (map (tp_boundary_count mp mb neumann) (seq 0 (length (boundaries mp))))
    (map (tp_bdy_vertex_count mp neumann (tp_kinks mp)) (seq 0 (length (vertices mp))))
  ++ tp_column_tables mp mb isogeometric.

Definition gen_tables (mp : gsMultiPatch) (mb : list gsMultiBasis)
    (neumann isogeometric : bool) : list (list Z) :=
  chained_tables
    (map (gen_interface_count mp mb) (seq 0 (length (interfaces mp))))
    (map (gen_edge_count mp mb neumann) (seq 0 (length (boundaries mp))))
    (map (gen_vertex_count mp) (seq 0 (length (vertices mp))))
    (map (gen_boundary_count mp mb neumann) (seq 0 (length (boundaries mp))))
    (map (gen_bdy_vertex_count mp) (seq 0 (length (vertices mp))))
  ++ gen_column_tables mp mb isogeometric.

(** A system in the course of initialization: dimensions and matrices not
    yet set. *)
Definition fresh_state (neumann twoPatch isogeometric : bool)
    (T0 T1 T2 T3 T4 T5 T6 kov spi spb : list Z) (kk : list bool) : gsG1System :=
  {| m_twoPatch := twoPatch; m_neumannBdy := neumann;
     m_isogeometric := isogeometric; dim_K := 0; dim_G1_Dofs := 0;
     dim_G1_Bdy := 0; numBasisFunctions := [T0; T1; T2; T3; T4; T5; T6];
     kindOfVertex := kov; sizePlusInt := spi; sizePlusBdy := spb;
     D_sparse := resize 0 0; D_0_sparse := resize 0 0;
     D_boundary_sparse := resize 0 0; m_g1 := []; kink := kk |}.

(** *** Well-formedness conditions on the input *)

Definition nonneg (cs : list Z) : Prop := Forall (fun c => 0 <= c) cs.

(** Every interface and boundary side is given a non-negative number of
    functions by the initializer in use. *)
Definition counts_nonneg (mp : gsMultiPatch) (mb : list gsMultiBasis)
    (innerKnotMulti : Z) (neumann twoPatch : bool) : Prop :=
  if twoPatch then
    nonneg (map (tp_interface_count mp mb innerKnotMulti neumann) (seq 0 (length (interfaces mp))))
    /\ nonneg (map (tp_edge_count mp mb neumann) (seq 0 (length (boundaries mp))))
    /\ nonneg (map (tp_boundary_count mp mb neumann) (seq 0 (length (boundaries mp))))
  else
    nonneg (map (gen_interface_count mp mb) (seq 0 (length (interfaces mp))))
    /\ nonneg (map (gen_edge_count mp mb neumann) (seq 0 (length (boundaries mp))))
    /\ nonneg (map (gen_boundary_count mp mb neumann) (seq 0 (length (boundaries mp)))).

(** One basis of non-negative size per patch. *)
Definition bases_match (mp : gsMultiPatch) (mbk : gsMultiBasis) : Prop :=
  nBases mbk = nPatches mp /\ Forall (fun b => 0 <= size b) mbk.
Definition columns_ok (mp : gsMultiPatch) (mb : list gsMultiBasis)
    (twoPatch isogeometric : bool) : Prop :=
  bases_match mp (mb !!! 0%nat)
  /\ (twoPatch = true -> isogeometric = false -> length mb = 2%nat ->
      bases_match mp (mb !!! 1%nat)).

(** The five entity tables are non-decreasing, non-empty and chained. *)
Definition tables_ok (s : gsG1System) : Prop :=
  (forall k, (k < 5)%nat -> nondecreasing (table s k) /\ (0 < length (table s k))%nat)
  /\ (forall k, (k < 4)%nat -> last_entry s k = entry s (Datatypes.S k) 0).

(** *** Insertion calls and the row blocks of the entities *)

Inductive entity :=
  | Interface (i : nat)
  | BoundarySide (b : nat)
  | Vertex (v : nat).

Inductive call :=
  | InsertInterfaceEdge (mp : gsMultiPatch) (item : boundaryInterface) (iID : nat) (bfID : Z)
  | InsertBoundaryEdge (mp : gsMultiPatch) (item : patchSide) (bID : nat) (bfID : Z)
  | InsertVertex (mp : gsMultiPatch) (patchIndex : list nat) (vID : nat) (nDofs bfID : Z).

(** the entity a call is addressed to *)
Definition entity_of (c : call) : entity :=
  match c with
  | InsertInterfaceEdge _ _ iID _ => Interface iID
  | InsertBoundaryEdge _ _ bID _ => BoundarySide bID
  | InsertVertex _ _ vID _ _ => Vertex vID
  end.

Definition run (c : call) (s : gsG1System) : gsG1System :=
  match c with
  | InsertInterfaceEdge mp item iID bfID => insertInterfaceEdge mp item iID bfID s
  | InsertBoundaryEdge mp item bID bfID => insertBoundaryEdge mp item bID bfID s
  | InsertVertex mp patchIndex vID nDofs bfID => insertVertex mp patchIndex vID nDofs bfID s
  end.

Definition writes_of (s : gsG1System) (c : call) : list triplet :=
  match c with
  | InsertInterfaceEdge mp item iID bfID => insertInterfaceEdge_writes s mp item iID bfID
  | InsertBoundaryEdge mp item bID bfID => insertBoundaryEdge_writes s mp item bID bfID
  | InsertVertex mp patchIndex vID nDofs bfID =>
      insertVertex_writes s mp patchIndex vID nDofs bfID
  end.

(** the rows a call addresses, whatever the coefficients *)
Definition addressed_rows (s : gsG1System) (c : call) : list Z :=
  match c with
  | InsertInterfaceEdge _ _ iID bfID => interface_rows s iID bfID
  | InsertBoundaryEdge _ _ bID bfID => [boundary_row s bID bfID]
  | InsertVertex _ _ vID nDofs bfID => [vertex_row s vID nDofs bfID]
  end.

(** Row [r] lies in the block of entity [e] of category [k]. *)
Definition block_of (s : gsG1System) (k e : nat) (r : Z) : Prop :=
  (Datatypes.S e < length (table s k))%nat
  /\ entry s k e <= r < entry s k (Datatypes.S e).

(** The blocks an entity owns: an interface its interface functions, a
    boundary side its edge and boundary-edge functions, a vertex its vertex
    and boundary-vertex functions. *)
Definition in_blocks (s : gsG1System) (en : entity) (r : Z) : Prop :=
  match en with
  | Interface i => block_of s 0 i r
  | BoundarySide b => block_of s 1 b r \/ block_of s 3 b r
  | Vertex v => block_of s 2 v r \/ block_of s 4 v r
  end.

(** Every row the call addresses lies in the blocks of entity [en]. *)
Definition rows_within (s : gsG1System) (c : call) (en : entity) : Prop :=
  Forall (in_blocks s en) (addressed_rows s c).

(** the size of the block of entity [e] in category [k] *)
Definition block_size (s : gsG1System) (k e : nat) : Z :=
  entry s k (Datatypes.S e) - entry s k e.

(** ** Concrete systems

    Two bicubic patches joined along one interface (patch 0 east, patch 1
    west), six boundary sides and six vertices, of which vertices 1 and 3
    lie on the interface.  Every univariate basis has degree [p], interior
    knots of multiplicity 1 and [n] elements. *)

Definition flat_patch : gsGeometry :=
  {| coefs := []; jacobian := fun _ => ((1, 0), (0, 1))%Q |}.
(** a patch turned by 90 degrees against [flat_patch] *)
Definition turned_patch : gsGeometry :=
  {| coefs := []; jacobian := fun _ => ((0, 1), (-1, 0))%Q |}.

Definition two_patch_domain (right : gsGeometry) : gsMultiPatch :=
  {| patches := [flat_patch; right];
     interfaces := [ {| first := {| ps_patch := 0; m_index := 2 |};
                        second := {| ps_patch := 1; m_index := 1 |} |} ];
     boundaries := [ {| ps_patch := 0; m_index := 1 |};
                     {| ps_patch := 0; m_index := 3 |};
                     {| ps_patch := 0; m_index := 4 |};
                     {| ps_patch := 1; m_index := 2 |};
                     {| ps_patch := 1; m_index := 3 |};
                     {| ps_patch := 1; m_index := 4 |} ];
     vertices := [ [ {| pc_patch := 0 |} ];
                   [ {| pc_patch := 0 |}; {| pc_patch := 1 |} ];
                   [ {| pc_patch := 0 |} ];
                   [ {| pc_patch := 0 |}; {| pc_patch := 1 |} ];
                   [ {| pc_patch := 1 |} ];
                   [ {| pc_patch := 1 |} ] ];
     localInterfaces := fun _ => 1%nat |}.

Definition spline_basis (p n : Z) : gsBSplineBasis :=
  {| degree := p; multiplicityIndex := fun _ => 1; numElements := n; bsize := p + n |}.
Definition tensor_basis (p n : Z) : gsBasis :=
  {| size := (p + n) * (p + n); component := fun _ => spline_basis p n |}.
Definition two_patch_bases (p n : Z) : list gsMultiBasis :=
  [[tensor_basis p n; tensor_basis p n]].

(** two-patch mode, isogeometric, no Neumann extension, 4 elements *)
Definition sys_flat : gsG1System :=
  new_gsG1System (two_patch_domain flat_patch) (two_patch_bases 3 4) 0 false true true.
Definition sys_kinked : gsG1System :=
  new_gsG1System (two_patch_domain turned_patch) (two_patch_bases 3 4) 0 false true true.
(** general mode, isogeometric, 4 elements and 1 element *)
Definition sys_general : gsG1System :=
  new_gsG1System (two_patch_domain flat_patch) (two_patch_bases 3 4) 0 false false true.
Definition sys_coarse : gsG1System :=
  new_gsG1System (two_patch_domain flat_patch) (two_patch_bases 3 1) 0 false false true.

(** A basis function handed to an insertion: one patch per contributing
    patch, each with the given coefficients. *)
Definition basis_function (cs : list (list real_t)) : gsMultiPatch :=
  {| patches := map (fun c => {| coefs := c; jacobian := fun _ => ((0, 0), (0, 0))%Q |}) cs;
     interfaces := []; boundaries := []; vertices := [];
     localInterfaces := fun _ => 0%nat |}.

(** A reference implementation of the linear algebra interface, exact over
    [Q], with a conjugate-gradient stand-in that gives up at once: it
    returns its initial guess (zero) and reports [NoConvergence]. *)
Definition sm_get (M : gsSparseMatrix) (i j : Z) : real_t := default 0%Q (coeff M i j).
Definition Qsum (l : list Q) : Q := foldr Qplus 0%Q l.
Definition dense_build (r c : Z) (f : Z -> Z -> real_t) : gsSparseMatrix :=
  {| rows := r; cols := c;
     entries := list_to_map
       (flat_map (fun i => map (fun j => ((i, j), f i j)) (seqZ 0 c)) (seqZ 0 r)) |}.
Definition ref_mul (A B : gsSparseMatrix) : gsSparseMatrix :=
  dense_build (rows A) (cols B)
    (fun i j => Qred (Qsum (map (fun k => sm_get A i k * sm_get B k j)%Q (seqZ 0 (cols A))))).
Definition ref_transpose (A : gsSparseMatrix) : gsSparseMatrix :=
  dense_build (cols A) (rows A) (fun i j => sm_get A j i).
Definition ref_mul_dense (A : gsSparseMatrix) (v : gsMatrix) : gsMatrix :=
  map (fun i => Qred (Qsum (map (fun k => sm_get A i k * v !!! Z.to_nat k)%Q (seqZ 0 (cols A)))))
    (seqZ 0 (rows A)).
Definition ref_sub_dense (u v : gsMatrix) : gsMatrix :=
  zip_with (fun x y => Qred (x - y)) u v.
Definition stalled_CG (A : gsSparseMatrix) (F : gsMatrix) : gsMatrix * ComputationInfo :=
  (replicate (length F) 0%Q, NoConvergence).
Definition stalling_ops : EigenOps :=
  {| mul := ref_mul; transpose := ref_transpose; mul_dense := ref_mul_dense;
     sub_dense := ref_sub_dense; CGDiagonal := stalled_CG |}.

(** A hand-sized system: one free row, one boundary row, two local
    columns. *)
Definition tiny_system : gsG1System :=
  {| m_twoPatch := false; m_neumannBdy := false; m_isogeometric := true;
     dim_K := 2; dim_G1_Dofs := 1; dim_G1_Bdy := 1;
     numBasisFunctions := [[0; 1]; [1]; [1]; [1; 2]; [2]; [0; 2]; [0; 2]];
     kindOfVertex := []; sizePlusInt := [0]; sizePlusBdy := [];
     D_sparse := {| rows := 4; cols := 2;
                    entries := {[ (0, 0) := 1%Q; (0, 1) := 2%Q; (1, 1) := 3%Q ]} |};
     D_0_sparse := {| rows := 4; cols := 2;
                      entries := {[ (0, 0) := 1%Q; (0, 1) := 2%Q ]} |};
     D_boundary_sparse := {| rows := 4; cols := 2; entries := {[ (1, 1) := 3%Q ]} |};
     m_g1 := [0; 5; 0; 0]%Q; kink := [] |}.
Definition tiny_K : gsSparseMatrix :=
  {| rows := 2; cols := 2; entries := {[ (0, 0) := 1%Q; (1, 1) := 1%Q ]} |}.

(** ** Accessors *)

(** [boundary_size()]: [numBasisFunctions[4].last() - numBasisFunctions[3][0]] *)
Definition boundary_size (s : gsG1System) : Z := last_entry s 4 - entry s 3 0.

(** [D_sparse.block(row, col, 1, n)], as the dense row it is returned as: an
    entry that is not stored reads as zero. *)
Definition row_block (M : gsSparseMatrix) (row col n : Z) : list real_t :=
  map (fun j => default 0%Q (coeff M row (col + j))) (seqZ 0 n).

Definition getSingleBasis (s : gsG1System) (global_row : Z) (patchIdx : nat) : list real_t :=
  row_block (D_sparse s) global_row (entry s 5 patchIdx)
    (entry s 5 (Datatypes.S patchIdx) - entry s 5 patchIdx).

Definition getSingleInterfaceBasis (s : gsG1System) (global_row : Z) (patchIdx : nat)
    : list real_t :=
  row_block (D_sparse s) global_row (entry s 6 patchIdx)
    (entry s 6 (Datatypes.S patchIdx) - entry s 6 patchIdx).

Definition getSingleBoundaryBasis (s : gsG1System) (boundary_row : Z) (patchIdx : nat)
    : list real_t :=
  row_block (D_sparse s) (dim_G1_Dofs s + boundary_row) (entry s 5 patchIdx)
    (entry s 5 (Datatypes.S patchIdx) - entry s 5 patchIdx).

(** *** Notions used to state the properties of the accessors *)

Definition Zsum (l : list Z) : Z := foldr Z.add 0 l.

(** what a dense read returns for a coefficient handed to an insertion *)
Definition pruned (c : real_t) : real_t := if kept c then c else 0%Q.

(** a row in which nothing is stored *)
Definition empty_row (M : gsSparseMatrix) (r : Z) : Prop :=
  forall c, entries M !! (r, c) = None.

(** A run of insertion calls. *)
Definition run_all (cs : list call) (s : gsG1System) : gsG1System :=
  foldl (fun s c => run c s) s cs.


(** ** Reconstruction of the G1 basis functions: [constructG1Solution]

    [result] is one multi-patch per patch of [geo]; every [addPatch] appends
    the geometry that the basis of the patch makes of one row of
    [D_sparse], cut to the columns of the patch and multiplied by an entry
    of [solVector] or of [m_g1].  [makeGeometry] is the basis' own; it is a
    parameter here.  [g1Basis.at(patchIdx)] throws when [patchIdx] is not an
    index of the vector: [None]. *)

#[global] Instance patchCorner_inhabited : Inhabited patchCorner :=
  populate {| pc_patch := 0%nat |}.

Definition init_mp : gsMultiPatch :=
  {| patches := []; interfaces := []; boundaries := []; vertices := [];
     localInterfaces := fun _ => 0%nat |}.

(** [mp.addPatch(g)] *)
Definition addPatch (g : gsGeometry) (mp : gsMultiPatch) : gsMultiPatch :=
  {| patches := patches mp ++ [g]; interfaces := interfaces mp;
     boundaries := boundaries mp; vertices := vertices mp;
     localInterfaces := localInterfaces mp |}.

(** [g1Basis.at(patchIdx).addPatch(g)] *)
Definition add_at (patchIdx : nat) (g : gsGeometry) (g1Basis : list gsMultiPatch)
    : option (list gsMultiPatch) :=
  if decide (patchIdx < length g1Basis)%nat
  then Some (alter (addPatch g) patchIdx g1Basis) else None.

(** [g1Basis.at(patchIdx).addPatch(b.makeGeometry(
      D_sparse.block(ii, numBasisFunctions[kc][patchIdx], 1, b.size()).transpose() * x))] *)
Definition add_row (makeGeometry : gsBasis -> list real_t -> gsGeometry)
    (s : gsG1System) (b : gsBasis) (kc patchIdx : nat) (ii : Z) (x : real_t)
    (g1Basis : option (list gsMultiPatch)) : option (list gsMultiPatch) :=
  g1Basis ≫= add_at patchIdx
    (makeGeometry b
       (map (fun c => (c * x)%Q)
          (row_block (D_sparse s) ii (entry s kc patchIdx) (size b)))).

(** [mb[m_isogeometric ? 0 : 1]] *)
Definition interface_bases (s : gsG1System) (mb : list gsMultiBasis) : gsMultiBasis :=
  mb !!! (if m_isogeometric s then 0%nat else 1%nat).

(** Body of the loop over the interfaces. *)
Definition g1_interface_step (makeGeometry : gsBasis -> list real_t -> gsGeometry)
    (s : gsG1System) (solVector : gsMatrix) (geo : gsMultiPatch) (mb : list gsMultiBasis)
    (rowInt : nat) (g1Basis : option (list gsMultiPatch)) : option (list gsMultiPatch) :=
  let patchIdx := ps_patch (first (interfaces geo !!! rowInt)) in
  let g1Basis :=
    for_each (Z.to_nat (entry s 0 (Datatypes.S rowInt) - entry s 0 rowInt)) (fun i g =>
      let ii := entry s 0 rowInt + Z.of_nat i in
      add_row makeGeometry s (basis (interface_bases s mb) patchIdx) 6 patchIdx ii
        (solVector !!! Z.to_nat ii) g) g1Basis in
  let patchIdx := ps_patch (second (interfaces geo !!! rowInt)) in
  for_each (Z.to_nat (entry s 0 (Datatypes.S rowInt) - entry s 0 rowInt)) (fun i g =>
    let ii := entry s 0 rowInt + Z.of_nat i in
    add_row makeGeometry s (basis (interface_bases s mb) patchIdx) 6 patchIdx ii
      (solVector !!! Z.to_nat ii) g) g1Basis.

(** Body of the loop over the boundary sides. *)
Definition g1_boundary_step (makeGeometry : gsBasis -> list real_t -> gsGeometry)
    (s : gsG1System) (solVector : gsMatrix) (geo : gsMultiPatch) (mb : list gsMultiBasis)
    (rowEdge : nat) (g1Basis : option (list gsMultiPatch)) : option (list gsMultiPatch) :=
  let patchIdx := ps_patch (boundaries geo !!! rowEdge) in
  let g1Basis :=
    for_each (Z.to_nat (entry s 3 (Datatypes.S rowEdge) - entry s 3 rowEdge)) (fun i g =>
      let ii := entry s 3 rowEdge + Z.of_nat i in
      add_row makeGeometry s (basis (mb !!! 0%nat) patchIdx) 5 patchIdx ii
        (m_g1 s !!! Z.to_nat ii) g) g1Basis in
  for_each (Z.to_nat (entry s 1 (Datatypes.S rowEdge) - entry s 1 rowEdge)) (fun i g =>
    let ii := entry s 1 rowEdge + Z.of_nat i in
    add_row makeGeometry s (basis (mb !!! 0%nat) patchIdx) 5 patchIdx ii
      (solVector !!! Z.to_nat ii) g) g1Basis.

(** Body of the loop over the vertices. *)
Definition g1_vertex_step (makeGeometry : gsBasis -> list real_t -> gsGeometry)
    (s : gsG1System) (solVector : gsMatrix) (geo : gsMultiPatch) (mb : list gsMultiBasis)
    (rowVertex : nat) (g1Basis : option (list gsMultiPatch)) : option (list gsMultiPatch) :=
  let allcornerLists := vertices geo !!! rowVertex in
  for_each (length allcornerLists) (fun j g1Basis =>
    let patchIdx := pc_patch (vertices geo !!! rowVertex !!! j) in
    let g1Basis :=
      for_each (Z.to_nat (entry s 4 (Datatypes.S rowVertex) - entry s 4 rowVertex)) (fun i g =>
        let ii := entry s 4 rowVertex + Z.of_nat i in
        if (rowVertex =? 1)%nat || (rowVertex =? 3)%nat
        then add_row makeGeometry s (basis (interface_bases s mb) patchIdx) 6 patchIdx ii
               (m_g1 s !!! Z.to_nat ii) g
        else add_row makeGeometry s (basis (mb !!! 0%nat) patchIdx) 5 patchIdx ii
               (m_g1 s !!! Z.to_nat ii) g) g1Basis in
    for_each (Z.to_nat (entry s 2 (Datatypes.S rowVertex) - entry s 2 rowVertex)) (fun i g =>
      let ii := entry s 2 rowVertex + Z.of_nat i in
      add_row makeGeometry s (basis (mb !!! 0%nat) patchIdx) 5 patchIdx ii
        (solVector !!! Z.to_nat ii) g) g1Basis) g1Basis.

Definition constructG1Solution (makeGeometry : gsBasis -> list real_t -> gsGeometry)
    (s : gsG1System) (solVector : gsMatrix) (geo : gsMultiPatch) (mb : list gsMultiBasis)
    : option (list gsMultiPatch) :=
  let g1Basis := Some (replicate (nPatches geo) init_mp) in
  let g1Basis := for_each (length (interfaces geo))
                   (g1_interface_step makeGeometry s solVector geo mb) g1Basis in
  let g1Basis := for_each (length (boundaries geo))
                   (g1_boundary_step makeGeometry s solVector geo mb) g1Basis in
  for_each (length (vertices geo))
    (g1_vertex_step makeGeometry s solVector geo mb) g1Basis.

(** every patch index of the topology of [geo] is an index of a patch *)
Definition patch_indices_valid (geo : gsMultiPatch) : Prop :=
  Forall (fun item => (ps_patch (first item) < nPatches geo)%nat
                      /\ (ps_patch (second item) < nPatches geo)%nat) (interfaces geo)
  /\ Forall (fun side => (ps_patch side < nPatches geo)%nat) (boundaries geo)
  /\ Forall (Forall (fun c => (pc_patch c < nPatches geo)%nat)) (vertices geo).


(** * The line search of the p-Laplace example: [stepsize]

    [examples/LinpLap_example.cpp].  Vectors are dense columns over [Q].
    The assembler is external: [assemble w] is what [gsLinpLapAssembler]
    holds after [A.initialize(pde, basis, opt); A.assemble()] with
    [pde.w = w], the rest of [pde], [basis] and [opt] being fixed during the
    call. *)

Record gsLinpLapAssembler := {
  A_matrix : gsSparseMatrix;
  A_rhs : list real_t;
  A_energy : real_t
}.

Definition vadd (u v : list real_t) : list real_t := zip_with Qplus u v.
Definition vsub (u v : list real_t) : list real_t := zip_with Qminus u v.
Definition vscale (t : real_t) (v : list real_t) : list real_t := map (Qmult t) v.
(** [(u.transpose() * v).value()] *)
Definition dot (u v : list real_t) : real_t := Qsum (zip_with Qmult u v).
(** [K * v] *)
Definition mat_vec (K : gsSparseMatrix) (v : list real_t) : list real_t :=
  map (fun i => Qsum (map (fun k => sm_get K i k * v !!! Z.to_nat k)%Q (seqZ 0 (cols K))))
    (seqZ 0 (rows K)).

(** The variables of [stepsize] that change: the locals [tau], [iter],
    [rh_new], [Jh_new] and the reference parameters [Kh], [fh], [pde.w]. *)
Record stepsize_vars := {
  sv_tau : real_t;
  sv_iter : Z;
  sv_Kh : gsSparseMatrix;
  sv_fh : list real_t;
  sv_rh_new : list real_t;
  sv_Jh_new : real_t;
  sv_pde_w : list real_t
}.

(** [pde.w = u_ + tau * s_; A.initialize(pde, basis, opt); A.assemble();
     Kh = A.matrix(); fh = A.rhs(); rh_new = Kh * (u_ + tau * s_) - fh;
     Jh_new = A.energy();] *)
Definition assemble_at (assemble : list real_t -> gsLinpLapAssembler)
    (u_ s_ : list real_t) (tau : real_t) (iter : Z) : stepsize_vars :=
  let w := vadd u_ (vscale tau s_) in
  let A := assemble w in
  {| sv_tau := tau; sv_iter := iter; sv_Kh := A_matrix A; sv_fh := A_rhs A;
     sv_rh_new := vsub (mat_vec (A_matrix A) (vadd u_ (vscale tau s_))) (A_rhs A);
     sv_Jh_new := A_energy A; sv_pde_w := w |}.

(** [Jh_new <= Jh + tau * mu * (rh.transpose()*s_).value()] *)
Definition sufficient_decrease (st : stepsize_vars) (s_ rh : list real_t)
    (Jh mu : real_t) : bool :=
  Qle_bool (sv_Jh_new st) (Jh + sv_tau st * mu * dot rh s_).
(** [(rh_new.transpose()*s_).value() >= sigma * (rh.transpose()*s_).value()] *)
Definition curvature (st : stepsize_vars) (s_ rh : list real_t) (sigma : real_t) : bool :=
  Qle_bool (sigma * dot rh s_) (dot (sv_rh_new st) s_).

(** [do body while (cond);] with the number of rounds bounded by [fuel];
    [None] when the bound is reached. *)
Fixpoint do_while {S : Type} (fuel : nat) (body : S -> S) (cond : S -> bool) (st : S)
    : option S :=
  match fuel with
  | O => None
  | Datatypes.S fuel =>
      let st := body st in
      if cond st then do_while fuel body cond st else Some st
  end.

(** Body of the first loop.  The [bool c1] declared in the body is a new
    variable of the block: it ends with the block, and the [c1] of the loop
    condition, which stands outside the block, is the one declared before
    the [if]. *)
Definition shrink_body (assemble : list real_t -> gsLinpLapAssembler)
    (u_ s_ rh : list real_t) (Jh mu : real_t) (st : stepsize_vars) : stepsize_vars :=
  let tau := (sv_tau st * 0.8)%Q in
  let st' := assemble_at assemble u_ s_ tau (sv_iter st) in
  let c1 := sufficient_decrease st' s_ rh Jh mu in
  assemble_at assemble u_ s_ tau (sv_iter st + 1).

(** Body of the second loop; its [c1] and [c2] are again the block's own. *)
Definition grow_body (assemble : list real_t -> gsLinpLapAssembler)
    (u_ s_ rh : list real_t) (Jh mu sigma : real_t) (st : stepsize_vars) : stepsize_vars :=
  let tau := (sv_tau st * 1.2)%Q in
  let st' := assemble_at assemble u_ s_ tau (sv_iter st) in
  let c1 := sufficient_decrease st' s_ rh Jh mu in
  let c2 := curvature st' s_ rh sigma in
  assemble_at assemble u_ s_ tau (sv_iter st + 1).

(** What [stepsize] leaves: the returned [tau] and the reference parameters
    [Kh], [fh], [pde.w], [rh], [Jh]. *)
Record stepsize_result := {
  out_tau : real_t;
  out_Kh : gsSparseMatrix;
  out_fh : list real_t;
  out_pde_w : list real_t;
  out_rh : list real_t;
  out_Jh : real_t
}.

Definition stepsize (fuel : nat) (assemble : list real_t -> gsLinpLapAssembler)
    (u_ s_ rh : list real_t) (Jh mu sigma : real_t) : option stepsize_result :=
  let maxiter := 10 in
  let st := assemble_at assemble u_ s_ 1 0 in
  let c1 := sufficient_decrease st s_ rh Jh mu in
  let c2 := curvature st s_ rh sigma in
  let st :=
    if negb c1 then
      do_while fuel (shrink_body assemble u_ s_ rh Jh mu)
        (fun st => negb c1 && (sv_iter st <? maxiter)) st
    else if c1 && negb c2 then
      do_while fuel (grow_body assemble u_ s_ rh Jh mu sigma)
        (fun st => c1 && negb c2 && (sv_iter st <? maxiter)) st
    else Some st in
  st ≫= fun st =>
    Some {| out_tau := sv_tau st; out_Kh := sv_Kh st; out_fh := sv_fh st;
            out_pde_w := sv_pde_w st; out_rh := sv_rh_new st; out_Jh := sv_Jh_new st |}.


(** the diagonal position [finalize] sets in [B_0_sparse] along with an
    insertion into [D_sparse] *)
Definition diag_of (w : triplet) : triplet := ((w.1.1, w.1.1), 1%Q).


(** * Properties *)

(** Case analysis on the integer comparisons of the goal. *)
Ltac zbool :=
  repeat match goal with
         | |- context [?a <? ?b] => destruct (Z.ltb_spec a b)
         | |- context [?a <=? ?b] => destruct (Z.leb_spec a b)
         | |- context [?a =? ?b] => destruct (Z.eqb_spec a b)
         end; simpl; try done; try lia; try congruence.

(** ** Loops *)

Lemma for_each_S {S : Type} (n : nat) (body : nat -> S -> S) (s : S) :
  for_each (Datatypes.S n) body s = body n (for_each n body s).
Proof. unfold for_each. rewrite seq_S, foldl_app. reflexivity. Qed.

Lemma for_each_0 {S : Type} (body : nat -> S -> S) (s : S) :
  for_each 0 body s = s.
Proof. reflexivity. Qed.

(** A projection that every iteration transforms in a state-independent way
    is transformed by the loop in the same way, under a loop invariant. *)
Lemma for_each_project {S T : Type} (Inv : S -> Prop) (P : S -> T)
    (body : nat -> S -> S) (f : nat -> T -> T) (n : nat) (s : S) :
  (forall i s, Inv s -> Inv (body i s) /\ P (body i s) = f i (P s)) ->
  Inv s ->
  Inv (for_each n body s) /\ P (for_each n body s) = for_each n f (P s).
Proof.
  intros Hstep Hs. induction n as [|n [IHi IHp]]; [done|].
  rewrite !for_each_S. destruct (Hstep n _ IHi) as [Hi Hp].
  split; [done|]. by rewrite Hp, IHp.
Qed.

Lemma for_each_invariant {S : Type} (Inv : S -> Prop)
    (body : nat -> S -> S) (n : nat) (s : S) :
  (forall i s, Inv s -> Inv (body i s)) -> Inv s -> Inv (for_each n body s).
Proof.
  intros Hstep Hs. induction n as [|n IH]; [done|].
  rewrite for_each_S. by apply Hstep.
Qed.

(** ** Offset tables as prefix sums *)

Lemma length_offsets (a : Z) (cs : list Z) :
  length (offsets a cs) = Datatypes.S (length cs).
Proof. revert a; induction cs as [|c cs IH]; intros a; simpl; [done|]. by rewrite IH. Qed.

Lemma offsets_head (a : Z) (cs : list Z) : offsets a cs !!! 0%nat = a.
Proof. by destruct cs. Qed.

Lemma offsets_step (a : Z) (cs : list Z) (i : nat) :
  (i < length cs)%nat ->
  offsets a cs !!! Datatypes.S i = offsets a cs !!! i + cs !!! i.
Proof.
  revert a i; induction cs as [|c cs IH]; intros a i Hi; simpl in *; [lia|].
  destruct i as [|i].
  - change ((offsets (a + c) cs) !!! 0%nat = a + c). apply offsets_head.
  - change (offsets (a + c) cs !!! Datatypes.S i = offsets (a + c) cs !!! i + cs !!! i).
    apply IH. lia.
Qed.

Lemma offsets_last (a : Z) (cs : list Z) :
  vlast (offsets a cs) = offsets a cs !!! length cs.
Proof.
  unfold vlast. rewrite last_lookup, length_offsets. simpl.
  rewrite list_lookup_total_alt.
  destruct (offsets a cs !! length cs) eqn:E; [done|].
  apply lookup_ge_None in E. rewrite length_offsets in E. lia.
Qed.

Lemma offsets_snoc (a : Z) (cs : list Z) (c : Z) :
  offsets a (cs ++ [c]) = offsets a cs ++ [vlast (offsets a cs) + c].
Proof.
  revert a; induction cs as [|c' cs IH]; intros a; [done|].
  change (a :: offsets (a + c') (cs ++ [c]) =
          (a :: offsets (a + c') cs) ++ [vlast (a :: offsets (a + c') cs) + c]).
  rewrite IH. simpl. do 3 f_equal.
  unfold vlast. destruct (offsets (a + c') cs) eqn:E; [|done].
  pose proof (length_offsets (a + c') cs) as H. rewrite E in H. simpl in H. lia.
Qed.

Lemma offsets_shift (a b : Z) (cs : list Z) :
  map (fun x => x + b) (offsets a cs) = offsets (a + b) cs.
Proof.
  revert a; induction cs as [|c cs IH]; intros a; [done|].
  simpl. rewrite IH. do 2 f_equal. lia.
Qed.

Lemma offsets_nondecreasing (a : Z) (cs : list Z) :
  Forall (fun c => 0 <= c) cs -> nondecreasing (offsets a cs).
Proof.
  intros Hcs i j [Hij Hj]. rewrite length_offsets in Hj.
  induction j as [|j IH].
  - assert (i = 0%nat) as -> by lia. lia.
  - destruct (decide (i = Datatypes.S j)) as [->|Hne]; [lia|].
    rewrite offsets_step by lia.
    assert (0 <= cs !!! j).
    { rewrite Forall_lookup in Hcs. apply (Hcs j).
      apply list_lookup_lookup_total_lt. lia. }
    assert (offsets a cs !!! i <= offsets a cs !!! j) by (apply IH; lia).
    lia.
Qed.

(** ** Sequences of sparse insertions *)

Lemma apply_writes_app (ws1 ws2 : list triplet) (M : gsSparseMatrix) :
  apply_writes (ws1 ++ ws2) M = apply_writes ws2 (apply_writes ws1 M).
Proof. unfold apply_writes. apply foldl_app. Qed.

Lemma apply_writes_shape (ws : list triplet) (M : gsSparseMatrix) :
  rows (apply_writes ws M) = rows M /\ cols (apply_writes ws M) = cols M.
Proof. revert M; induction ws as [|w ws IH]; intros M; [done|]. apply (IH (sm_insert _ _ _ M)). Qed.

Lemma lookup_apply_writes_notin (ws : list triplet) (M : gsSparseMatrix) (k : Z * Z) :
  k ∉ ws.*1 -> entries (apply_writes ws M) !! k = entries M !! k.
Proof.
  revert M; induction ws as [|[k' v] ws IH]; intros M Hk; [done|].
  rewrite fmap_cons, not_elem_of_cons in Hk. destruct Hk as [Hne Hk].
  simpl. rewrite IH by done. simpl. destruct k' as [r c].
  by apply lookup_insert_ne.
Qed.

Lemma lookup_apply_writes_in (ws : list triplet) (M : gsSparseMatrix) (k : Z * Z) :
  k ∈ ws.*1 -> exists v, (k, v) ∈ ws /\ entries (apply_writes ws M) !! k = Some v.
Proof.
  revert M; induction ws as [|[k' v] ws IH]; intros M Hk.
  - by apply elem_of_nil in Hk.
  - destruct (decide (k ∈ ws.*1)) as [Hin|Hnin].
    + destruct (IH (sm_insert k'.1 k'.2 v M) Hin) as (v' & Hv' & Hl).
      exists v'. split; [by right|done].
    + rewrite fmap_cons, elem_of_cons in Hk. destruct Hk as [->|Hk]; [|done].
      exists v. split; [by left|]. simpl. rewrite lookup_apply_writes_notin by done.
      destruct k' as [r c]. simpl. apply lookup_insert_eq.
Qed.

(** An entry present after the insertions was present before or is one of
    the inserted triplets. *)
Lemma lookup_apply_writes_Some (ws : list triplet) (M : gsSparseMatrix)
    (k : Z * Z) (v : real_t) :
  entries (apply_writes ws M) !! k = Some v ->
  entries M !! k = Some v \/ (k, v) ∈ ws.
Proof.
  intros H. destruct (decide (k ∈ ws.*1)) as [Hin|Hnin].
  - destruct (lookup_apply_writes_in ws M k Hin) as (v' & Hv' & Hl).
    right. congruence.
  - left. by rewrite <- (lookup_apply_writes_notin ws M k Hnin).
Qed.

(** A row that no triplet addresses is left as it was. *)
Lemma lookup_apply_writes_other_row (ws : list triplet) (M : gsSparseMatrix) (r c : Z) :
  r ∉ rows_of ws -> entries (apply_writes ws M) !! (r, c) = entries M !! (r, c).
Proof.
  intros Hr. apply lookup_apply_writes_notin. intros Hin.
  apply Hr. unfold rows_of.
  apply list_elem_of_fmap in Hin as ([[r' c'] v] & Heq & Hin). simpl in Heq.
  injection Heq as -> ->. apply list_elem_of_fmap. by exists ((r', c'), v).
Qed.

(** A loop whose iterations only insert into [D_sparse], at positions that
    do not depend on [D_sparse], performs the concatenated insertions. *)
Lemma for_each_writes (n : nat) (body : nat -> gsG1System -> gsG1System)
    (w : gsG1System -> nat -> list triplet) (s : gsG1System) :
  (forall i s, body i s = set_D_sparse (apply_writes (w s i) (D_sparse s)) s) ->
  (forall i s M, w (set_D_sparse M s) i = w s i) ->
  for_each n body s
  = set_D_sparse (apply_writes (flat_map (w s) (seq 0 n)) (D_sparse s)) s.
Proof.
  intros Hbody Hw. induction n as [|n IH].
  - by destruct s.
  - rewrite for_each_S, IH, Hbody, Hw, seq_S, flat_map_app, apply_writes_app.
    simpl. by rewrite app_nil_r.
Qed.

Lemma coef_writes_spec (rs : list Z) (jj : Z) (c : real_t) (s : gsG1System) :
  (if kept c then foldl (fun s r => D_insert r jj c s) s rs else s)
  = set_D_sparse (apply_writes (coef_writes rs jj c) (D_sparse s)) s.
Proof.
  unfold coef_writes. destruct (kept c); [|by destruct s].
  revert s; induction rs as [|r rs IH]; intros s; [by destruct s|].
  simpl. rewrite IH. reflexivity.
Qed.

Lemma insertInterfaceEdge_body_spec (mp : gsMultiPatch) (item : boundaryInterface)
    (iID : nat) (bfID : Z) (np j : nat) (s : gsG1System) :
  insertInterfaceEdge_body mp item iID bfID np j s
  = set_D_sparse
      (apply_writes
         (coef_writes (interface_rows s iID bfID)
            (entry s 6 (interface_patch item np) + Z.of_nat j) (coef_at mp np j))
         (D_sparse s)) s.
Proof.
  rewrite <- coef_writes_spec.
  unfold insertInterfaceEdge_body, interface_rows, is_endpoint, plusInt_of.
  destruct (m_twoPatch s && negb (m_neumannBdy s)); [|by destruct (kept _)].
  set (P := to_index_t (sizePlusInt s !!! 0%nat)).
  destruct ((bfID =? 0) || (bfID =? P - 1) || (bfID =? P) || (bfID =? 2 * P - 2)).
  - destruct ((bfID =? 0) || (bfID =? P)), ((bfID =? P - 1) || (bfID =? 2 * P - 2)),
      (kept _); reflexivity.
  - destruct ((bfID =? 1) && kink_at s 0); [by destruct (kept _)|].
    destruct ((bfID =? P - 2) && kink_at s 1); by destruct (kept _).
Qed.

(** [insertInterfaceEdge] changes nothing but [D_sparse], where it performs
    the insertions [insertInterfaceEdge_writes]. *)
Lemma insertInterfaceEdge_spec (mp : gsMultiPatch) (item : boundaryInterface)
    (iID : nat) (bfID : Z) (s : gsG1System) :
  insertInterfaceEdge mp item iID bfID s
  = set_D_sparse (apply_writes (insertInterfaceEdge_writes s mp item iID bfID) (D_sparse s)) s.
Proof.
  unfold insertInterfaceEdge, insertInterfaceEdge_writes.
  apply (for_each_writes 2 _
    (fun s np => flat_map (fun j =>
       coef_writes (interface_rows s iID bfID)
         (entry s 6 (interface_patch item np) + Z.of_nat j) (coef_at mp np j))
       (seq 0 (length (coefs (patch mp np)))))); [|done].
  intros np s'.
  apply (for_each_writes _ _
    (fun s j => coef_writes (interface_rows s iID bfID)
         (entry s 6 (interface_patch item np) + Z.of_nat j) (coef_at mp np j))); [|done].
  intros j s''. apply insertInterfaceEdge_body_spec.
Qed.

Lemma insertBoundaryEdge_spec (mp : gsMultiPatch) (item : patchSide)
    (bID : nat) (bfID : Z) (s : gsG1System) :
  insertBoundaryEdge mp item bID bfID s
  = set_D_sparse (apply_writes (insertBoundaryEdge_writes s mp item bID bfID) (D_sparse s)) s.
Proof.
  unfold insertBoundaryEdge, insertBoundaryEdge_writes.
  apply (for_each_writes _ _
    (fun s j => coef_writes [boundary_row s bID bfID]
         (entry s 5 (ps_patch item) + Z.of_nat j) (coef_at mp 0 j))); [|done].
  intros j s'. rewrite <- coef_writes_spec. unfold insertBoundaryEdge_body.
  by destruct (kept _).
Qed.

Lemma insertVertex_spec (mp : gsMultiPatch) (patchIndex : list nat)
    (vID : nat) (nDofs bfID : Z) (s : gsG1System) :
  insertVertex mp patchIndex vID nDofs bfID s
  = set_D_sparse
      (apply_writes (insertVertex_writes s mp patchIndex vID nDofs bfID) (D_sparse s)) s.
Proof.
  unfold insertVertex, insertVertex_writes.
  apply (for_each_writes _ _
    (fun s np => flat_map (fun j =>
       coef_writes [vertex_row s vID nDofs bfID]
         (entry s 5 (patchIndex !!! np) + Z.of_nat j) (coef_at mp np j))
       (seq 0 (length (coefs (patch mp np)))))); [|done].
  intros np s'.
  apply (for_each_writes _ _
    (fun s j => coef_writes [vertex_row s vID nDofs bfID]
         (entry s 5 (patchIndex !!! np) + Z.of_nat j) (coef_at mp np j))); [|done].
  intros j s''. rewrite <- coef_writes_spec. unfold insertVertex_body.
  by destruct (kept _).
Qed.

(** ** Pruning of small coefficients (C1) *)

Lemma Qgtb_spec (a b : Q) : Qgtb a b = true <-> (b < a)%Q.
Proof. unfold Qgtb, Qlt. apply Z.ltb_lt. Qed.

Lemma kept_spec (c : real_t) : kept c = true <-> (10e-25 < c * c)%Q.
Proof. apply Qgtb_spec. Qed.

(** The pruning tolerance [10e-25] of the insertions is [1e-24]; the kink
    tolerance [1e-25] is ten times smaller. *)
Lemma pruning_tolerance_value : (10e-25 == 1e-24)%Q /\ (1e-25 < 10e-25)%Q.
Proof. split; vm_compute; reflexivity. Qed.

Lemma elem_of_coef_writes (rs : list Z) (jj : Z) (c : real_t) (w : triplet) :
  w ∈ coef_writes rs jj c <->
  exists r, r ∈ rs /\ (10e-25 < c * c)%Q /\ w = ((r, jj), c).
Proof.
  unfold coef_writes. destruct (kept c) eqn:E.
  - rewrite list_elem_of_fmap. apply kept_spec in E. split.
    + intros (r & -> & Hr). by exists r.
    + intros (r & Hr & _ & ->). by exists r.
  - split; [by intros ?%elem_of_nil|].
    intros (r & _ & Hk%kept_spec & _). congruence.
Qed.

Lemma elem_of_flat_map_seq {A : Type} (f : nat -> list A) (n : nat) (x : A) :
  x ∈ flat_map f (seq 0 n) <-> exists i, (i < n)%nat /\ x ∈ f i.
Proof.
  rewrite !list_elem_of_In, in_flat_map. split.
  - intros (i & Hi%in_seq & Hx). exists i. rewrite list_elem_of_In. split; [lia|done].
  - intros (i & Hi & Hx%list_elem_of_In). exists i. split; [apply in_seq; lia|done].
Qed.

(** C1 (as amended).  Each of the three insertion operations performs on
    [D_sparse] exactly the insertions of the coefficients whose square
    strictly exceeds [10e-25], every one into the rows the operation
    addresses and the column of the coefficient; a coefficient whose square
    is at most [10e-25] is not inserted. *)
Theorem insertions_keep_exactly_above_tolerance (s : gsG1System) (mp : gsMultiPatch) :
  (forall item iID bfID,
      D_sparse (insertInterfaceEdge mp item iID bfID s)
      = apply_writes (insertInterfaceEdge_writes s mp item iID bfID) (D_sparse s)
      /\ forall w, w ∈ insertInterfaceEdge_writes s mp item iID bfID <->
           exists np j r, (np < 2)%nat /\ (j < length (coefs (patch mp np)))%nat
             /\ r ∈ interface_rows s iID bfID
             /\ (10e-25 < coef_at mp np j * coef_at mp np j)%Q
             /\ w = ((r, entry s 6 (interface_patch item np) + Z.of_nat j), coef_at mp np j))
  /\ (forall item bID bfID,
      D_sparse (insertBoundaryEdge mp item bID bfID s)
      = apply_writes (insertBoundaryEdge_writes s mp item bID bfID) (D_sparse s)
      /\ forall w, w ∈ insertBoundaryEdge_writes s mp item bID bfID <->
           exists j, (j < length (coefs (patch mp 0)))%nat
             /\ (10e-25 < coef_at mp 0 j * coef_at mp 0 j)%Q
             /\ w = ((boundary_row s bID bfID, entry s 5 (ps_patch item) + Z.of_nat j),
                     coef_at mp 0 j))
  /\ (forall patchIndex vID nDofs bfID,
      D_sparse (insertVertex mp patchIndex vID nDofs bfID s)
      = apply_writes (insertVertex_writes s mp patchIndex vID nDofs bfID) (D_sparse s)
      /\ forall w, w ∈ insertVertex_writes s mp patchIndex vID nDofs bfID <->
           exists np j, (np < nPatches mp)%nat /\ (j < length (coefs (patch mp np)))%nat
             /\ (10e-25 < coef_at mp np j * coef_at mp np j)%Q
             /\ w = ((vertex_row s vID nDofs bfID,
                      entry s 5 (patchIndex !!! np) + Z.of_nat j), coef_at mp np j)).
Proof.
  split; [|split].
  - intros item iID bfID. split; [by rewrite insertInterfaceEdge_spec|].
    intros w. unfold insertInterfaceEdge_writes. rewrite elem_of_flat_map_seq.
    split.
    + intros (np & Hnp & Hw). apply elem_of_flat_map_seq in Hw as (j & Hj & Hw).
      apply elem_of_coef_writes in Hw as (r & Hr & Hc & ->). by exists np, j, r.
    + intros (np & j & r & Hnp & Hj & Hr & Hc & ->). exists np. split; [done|].
      apply elem_of_flat_map_seq. exists j. split; [done|].
      apply elem_of_coef_writes. by exists r.
  - intros item bID bfID. split; [by rewrite insertBoundaryEdge_spec|].
    intros w. unfold insertBoundaryEdge_writes. rewrite elem_of_flat_map_seq.
    split.
    + intros (j & Hj & Hw).
      apply elem_of_coef_writes in Hw as (r & Hr%list_elem_of_singleton & Hc & ->).
      subst r. by exists j.
    + intros (j & Hj & Hc & ->). exists j. split; [done|].
      apply elem_of_coef_writes. exists (boundary_row s bID bfID).
      split; [by apply list_elem_of_singleton|done].
  - intros patchIndex vID nDofs bfID. split; [by rewrite insertVertex_spec|].
    intros w. unfold insertVertex_writes. rewrite elem_of_flat_map_seq.
    split.
    + intros (np & Hnp & Hw). apply elem_of_flat_map_seq in Hw as (j & Hj & Hw).
      apply elem_of_coef_writes in Hw as (r & Hr%list_elem_of_singleton & Hc & ->).
      subst r. by exists np, j.
    + intros (np & j & Hnp & Hj & Hc & ->). exists np. split; [done|].
      apply elem_of_flat_map_seq. exists j. split; [done|].
      apply elem_of_coef_writes. exists (vertex_row s vID nDofs bfID).
      split; [by apply list_elem_of_singleton|done].
Qed.

(** C1 fails as stated: a coefficient [1e-12], whose square is exactly
    [1e-24] and so exceeds [1e-25], is handed to [insertBoundaryEdge] and
    to [insertVertex], and [D_sparse] stays empty. *)
Lemma coefficient_of_square_1e24_is_pruned :
  let f := basis_function [[1e-12%Q]] in
  let side := {| ps_patch := 0%nat; m_index := 1 |} in
  (coef_at f 0 0 * coef_at f 0 0 == 1e-24)%Q
  /\ (1e-25 < coef_at f 0 0 * coef_at f 0 0)%Q
  /\ entries (D_sparse sys_general) = ∅
  /\ entries (D_sparse (insertBoundaryEdge f side 0 0 sys_general)) = ∅
  /\ entries (D_sparse (insertVertex f [0%nat] 0 1 0 sys_general)) = ∅.
Proof.
  split; [vm_compute; reflexivity|]. split; [vm_compute; reflexivity|].
  split; [|split]; vm_compute; reflexivity.
Qed.

(** The same operation keeps the coefficients above the tolerance. *)
Example insertBoundaryEdge_keeps_large :
  let f := basis_function [[1; 1e-12; 2e-12]%Q] in
  let side := {| ps_patch := 1%nat; m_index := 2 |} in
  map_to_list (entries (D_sparse (insertBoundaryEdge f side 3 0 sys_general)))
  ≡ₚ [((28, 49), 1%Q); ((28, 51), 2e-12%Q)].
Proof. vm_compute. apply Permutation_refl || apply perm_swap. Qed.

(** ** The solver adapter (C5, C8) *)

(** C5.  [solve] hands to the sparse solver the matrix [D_0 * K * D_0^t] and
    the right-hand side [D_0 * f - D_0 * K * D_boundary^t * g], [g] being the
    stored boundary value vector [m_g1], and returns the solver's vector. *)
Theorem solve_forms_reduced_system (ops : EigenOps) (s : gsG1System)
    (K : gsSparseMatrix) (f : gsMatrix) :
  let D_0 := D_0_sparse s in
  let D_boundary := D_boundary_sparse s in
  let g := m_g1 s in
  let A := mul ops (mul ops D_0 K) (transpose ops D_0) in
  let F := sub_dense ops (mul_dense ops D_0 f)
             (mul_dense ops (mul ops (mul ops D_0 K) (transpose ops D_boundary)) g) in
  solve_A ops s K = A /\ solve_F ops s K f = F
  /\ solve ops s K f = Returned (fst (CGDiagonal ops A F)).
Proof. repeat split. Qed.

(** C8 (as amended).  [solve] never inspects the solver's [info()]: whatever
    the solver reports, the call returns normally with the solver's last
    iterate, obtained from a single run of [CGDiagonal] on the reduced
    system; it raises no error. *)
Theorem solve_ignores_convergence (ops : EigenOps) (s : gsG1System)
    (K : gsSparseMatrix) (f : gsMatrix) :
  solve ops s K f = Returned (fst (CGDiagonal ops (solve_A ops s K) (solve_F ops s K f)))
  /\ solve ops s K f <> NumericalError.
Proof. split; [reflexivity|discriminate]. Qed.

(** C8 fails as stated: the solver reports [NoConvergence] and [solve]
    returns its iterate as an ordinary result. *)
Lemma solve_returns_unconverged_iterate :
  snd (CGDiagonal stalling_ops (solve_A stalling_ops tiny_system tiny_K)
         (solve_F stalling_ops tiny_system tiny_K [1; 1]%Q)) = NoConvergence
  /\ solve stalling_ops tiny_system tiny_K [1; 1]%Q = Returned [0; 0; 0; 0]%Q
  /\ solve stalling_ops tiny_system tiny_K [1; 1]%Q <> NumericalError.
Proof. split; [reflexivity|]. split; [vm_compute; reflexivity|discriminate]. Qed.

(** The right-hand side of the tiny system, computed with the reference
    operations: [D_0 f = (3,0,0,0)], [D_0 K D_boundary^t g = (30,0,0,0)]. *)
Example solve_F_tiny :
  solve_F stalling_ops tiny_system tiny_K [1; 1]%Q = [-27; 0; 0; 0]%Q.
Proof. vm_compute. reflexivity. Qed.

(** ** The sparse reconstruction (C9) *)

Lemma for_range_for_each {S : Type} (lo hi : Z) (body : Z -> S -> S) (s : S) :
  for_range lo hi body s
  = for_each (Z.to_nat (hi - lo)) (fun i => body (Z.of_nat i + lo)) s.
Proof. unfold for_range, for_each, seqZ. by rewrite foldl_fmap. Qed.

Lemma scale_row_lookup (i : Z) (x : real_t) (M : gsSparseMatrix) (r c : Z) :
  entries (scale_row i x M) !! (r, c)
  = (fun v => if r =? i then (v * x)%Q else v) <$> entries M !! (r, c).
Proof.
  unfold scale_row. simpl. rewrite map_lookup_imap.
  by destruct (entries M !! (r, c)).
Qed.

(** Scaling the rows [lo .. hi-1], each by its own factor, multiplies an
    entry of such a row once and leaves the other rows alone. *)
Lemma scale_rows_lookup (lo hi : Z) (x : Z -> real_t) (M : gsSparseMatrix) (r c : Z) :
  entries (for_range lo hi (fun i R => scale_row i (x i) R) M) !! (r, c)
  = (fun v => if (lo <=? r) && (r <? hi) then (v * x r)%Q else v) <$> entries M !! (r, c).
Proof.
  rewrite for_range_for_each.
  assert (forall n : nat,
    entries (for_each n (fun i R => scale_row (Z.of_nat i + lo) (x (Z.of_nat i + lo)) R) M) !! (r, c)
    = (fun v => if (lo <=? r) && (r <? lo + Z.of_nat n) then (v * x r)%Q else v)
        <$> entries M !! (r, c)) as H.
  { induction n as [|n IH].
    - rewrite for_each_0. destruct (entries M !! (r, c)) as [v|]; [|done]. simpl.
      f_equal. zbool.
    - rewrite for_each_S, scale_row_lookup, IH.
      destruct (entries M !! (r, c)) as [v|]; [|done]. simpl. f_equal.
      zbool. }
  destruct (decide (lo <= hi)) as [Hle|Hgt].
  - rewrite H. replace (lo + Z.of_nat (Z.to_nat (hi - lo))) with hi by lia. reflexivity.
  - replace (Z.to_nat (hi - lo)) with 0%nat by lia. rewrite for_each_0.
    destruct (entries M !! (r, c)) as [v|]; [|done]. simpl. f_equal. zbool.
Qed.

(** Filling row [r0] over the columns [0 .. n-1]. *)
Lemma fill_row_lookup (r0 n : Z) (x : Z -> real_t) (M : gsSparseMatrix) (r c : Z) :
  entries (for_range 0 n (fun i R => sm_insert r0 i (x i) R) M) !! (r, c)
  = if (r =? r0) && (0 <=? c) && (c <? n) then Some (x c) else entries M !! (r, c).
Proof.
  rewrite for_range_for_each.
  assert (forall m : nat,
    entries (for_each m (fun i R => sm_insert r0 (Z.of_nat i + 0) (x (Z.of_nat i + 0)) R) M) !! (r, c)
    = if (r =? r0) && (0 <=? c) && (c <? Z.of_nat m) then Some (x c)
      else entries M !! (r, c)) as H.
  { induction m as [|m IH].
    - rewrite for_each_0. zbool.
    - rewrite for_each_S. simpl. rewrite lookup_insert, IH.
      case_decide as Hk.
      + injection Hk as <- <-. rewrite Z.add_0_r. zbool.
      + assert (r <> r0 \/ c <> Z.of_nat m) as Hne.
        { destruct (decide (r = r0)) as [->|]; [|by left].
          right. intros ->. apply Hk. by rewrite Z.add_0_r. }
        zbool. }
  rewrite Z.sub_0_r, H.
  destruct (decide (0 <= n)) as [Hn|Hn].
  - by rewrite Z2Nat.id.
  - replace (Z.of_nat (Z.to_nat n)) with 0 by lia. zbool.
Qed.

Lemma block00_lookup (nr nc : Z) (M : gsSparseMatrix) (r c : Z) :
  0 <= r < nr -> 0 <= c < nc ->
  entries (block00 nr nc M) !! (r, c) = entries M !! (r, c).
Proof.
  intros Hr Hc. unfold block00. simpl.
  destruct (entries M !! (r, c)) as [v|] eqn:E.
  - by apply map_lookup_filter_Some_2.
  - apply map_lookup_filter_None_2. by left.
Qed.

(** C9 (as amended).  [constructSparseG1Solution] reads its coefficient
    vector: on the columns [0 .. dim_K-1], a free row [r < dim_G1_Dofs] of
    the result is the row of [D_sparse] scaled by [solVector[r]], a fixed
    row [dim_G1_Dofs <= r < dim_G1_Dofs + dim_G1_Bdy] is the row of
    [D_sparse] scaled by the stored boundary value [m_g1[r]], and the row
    [dim_G1_Dofs + dim_G1_Bdy] holds the interior coefficients
    [solVector[dim_G1_Dofs + dim_G1_Bdy + c]]. *)
Theorem constructSparseG1Solution_scales_by_solVector (s : gsG1System)
    (solVector : gsMatrix) (r c : Z) :
  0 <= c < dim_K s ->
  0 <= r <= dim_G1_Dofs s + dim_G1_Bdy s ->
  0 <= dim_G1_Dofs s ->
  0 <= dim_G1_Bdy s ->
  entries (constructSparseG1Solution s solVector) !! (r, c)
  = if r <? dim_G1_Dofs s
    then (fun v => v * solVector !!! Z.to_nat r)%Q <$> entries (D_sparse s) !! (r, c)
    else if r <? dim_G1_Dofs s + dim_G1_Bdy s
    then (fun v => v * m_g1 s !!! Z.to_nat r)%Q <$> entries (D_sparse s) !! (r, c)
    else Some (solVector !!! Z.to_nat (dim_G1_Dofs s + dim_G1_Bdy s + c)).
Proof.
  intros Hc Hr Hd Hb. unfold constructSparseG1Solution.
  rewrite (fill_row_lookup _ _ (fun i => solVector !!! Z.to_nat (dim_G1_Dofs s + dim_G1_Bdy s + i))).
  rewrite (scale_rows_lookup _ _ (fun i => m_g1 s !!! Z.to_nat i)).
  rewrite (scale_rows_lookup _ _ (fun i => solVector !!! Z.to_nat i)).
  rewrite block00_lookup by lia.
  destruct (entries (D_sparse s) !! (r, c)) as [v|]; simpl; zbool.
Qed.

Lemma constructSparseG1Solution_scales_by_solVector_witness :
  entries (constructSparseG1Solution tiny_system [7; 0; 8; 9]%Q) !! (0, 1)
  = Some (2 * 7)%Q.
Proof.
  rewrite (constructSparseG1Solution_scales_by_solVector tiny_system [7; 0; 8; 9]%Q 0 1);
    [reflexivity | simpl; lia | simpl; lia | simpl; lia | simpl; lia].
Defined.

(** C9 fails as stated: the result depends on the coefficient vector the
    caller passes. *)
Lemma constructSparseG1Solution_needs_solVector :
  constructSparseG1Solution tiny_system [1; 0; 0; 0]%Q
  <> constructSparseG1Solution tiny_system [2; 0; 0; 0]%Q.
Proof.
  intros H.
  apply (f_equal (fun M => entries M !! (0, 0))) in H.
  vm_compute in H. discriminate.
Qed.

(** ** The loops of the initializers in closed form *)

Lemma for_each_embed {S T : Type} (build : T -> S) (body : nat -> S -> S)
    (g : nat -> T -> T) (n : nat) (x : T) :
  (forall i x, body i (build x) = build (g i x)) ->
  for_each n body (build x) = build (for_each n g x).
Proof.
  intros H. induction n as [|n IH]; [done|].
  by rewrite !for_each_S, IH, H.
Qed.

Lemma for_each_pair {A B : Type} (ga : nat -> A -> A) (gb : nat -> B -> B)
    (n : nat) (a : A) (b : B) :
  for_each n (fun i x => (ga i x.1, gb i x.2)) (a, b)
  = (for_each n ga a, for_each n gb b).
Proof.
  induction n as [|n IH]; [done|].
  by rewrite !for_each_S, IH.
Qed.

Lemma for_each_ext {S : Type} (f g : nat -> S -> S) (n : nat) (s : S) :
  (forall i s, (i < n)%nat -> f i s = g i s) -> for_each n f s = for_each n g s.
Proof.
  intros H. induction n as [|n IH]; [done|].
  rewrite !for_each_S, IH by (intros; apply H; lia). apply H. lia.
Qed.

Lemma for_each_const {S : Type} (g : S -> S) (n : nat) (s : S) :
  (forall s, g (g s) = g s) -> (0 < n)%nat -> for_each n (fun _ => g) s = g s.
Proof.
  intros Hg Hn. induction n as [|n IH]; [lia|].
  rewrite for_each_S. destruct n as [|n]; [done|]. rewrite IH by lia. apply Hg.
Qed.

(** The accumulation loop [T[i+1] = T[i] + c i] over a zeroed table. *)
Lemma fill_loop (c : nat -> Z) (n : nat) (a : Z) (m : nat) :
  (m <= n)%nat ->
  for_each m (fun i T => <[Datatypes.S i := T !!! i + c i]> T) (a :: replicate n 0)
  = offsets a (map c (seq 0 m)) ++ replicate (n - m) 0.
Proof.
  induction m as [|m IH]; intros Hm.
  - by rewrite Nat.sub_0_r.
  - rewrite for_each_S, IH by lia.
    rewrite seq_S, map_app.
    change (map c [(0 + m)%nat]) with [c m]. rewrite offsets_snoc.
    set (l := offsets a (map c (seq 0 m))).
    assert (length l = Datatypes.S m) as Hl
      by (unfold l; rewrite length_offsets, length_map, length_seq; done).
    rewrite lookup_total_app_l by lia.
    replace (l !!! m) with (vlast l)
      by (unfold l; rewrite offsets_last, length_map, length_seq; done).
    replace (Datatypes.S m) with (length l + 0)%nat at 1 by lia.
    rewrite insert_app_r.
    replace (n - m)%nat with (Datatypes.S (n - Datatypes.S m)) by lia.
    simpl. by rewrite <- app_assoc.
Qed.

Lemma fill_loop_full (c : nat -> Z) (n : nat) (a : Z) :
  for_each n (fun i T => <[Datatypes.S i := T !!! i + c i]> T) (a :: replicate n 0)
  = offsets a (map c (seq 0 n)).
Proof. rewrite fill_loop by lia. by rewrite Nat.sub_diag, app_nil_r. Qed.

(** The loop [v[i] = f i] over a zeroed vector. *)
Lemma set_loop {A : Type} (f : nat -> A) (d : A) (n m : nat) :
  (m <= n)%nat ->
  for_each m (fun i l => <[i := f i]> l) (replicate n d)
  = map f (seq 0 m) ++ replicate (n - m) d.
Proof.
  induction m as [|m IH]; intros Hm.
  - by rewrite Nat.sub_0_r.
  - rewrite for_each_S, IH by lia. rewrite seq_S, map_app.
    change (map f [(0 + m)%nat]) with [f m].
    replace m with (length (map f (seq 0 m)) + 0)%nat at 1
      by (rewrite length_map, length_seq; lia).
    rewrite insert_app_r.
    replace (n - m)%nat with (Datatypes.S (n - Datatypes.S m)) by lia.
    simpl. by rewrite <- app_assoc.
Qed.

Lemma set_loop_full {A : Type} (f : nat -> A) (d : A) (n : nat) :
  for_each n (fun i l => <[i := f i]> l) (replicate n d) = map f (seq 0 n).
Proof. rewrite set_loop by lia. by rewrite Nat.sub_diag, app_nil_r. Qed.

Lemma insert_twice (T : list Z) (j : nat) (x y : Z) :
  <[j := <[j := x]> T !!! j + y]> (<[j := x]> T) = <[j := x + y]> T.
Proof.
  destruct (decide (j < length T)%nat) as [Hj|Hj].
  - by rewrite list_lookup_total_insert_eq, list_insert_insert_eq.
  - rewrite !list_insert_ge; rewrite ?length_insert; try lia. done.
Qed.

Lemma setZero_succ (n : nat) : setZero (n + 1) = 0 :: replicate n 0.
Proof. unfold setZero. by rewrite Nat.add_1_r. Qed.

(** *** Allocation and the column tables *)

Lemma allocate_constructed (mp : gsMultiPatch) (nb tp iso : bool) :
  allocate mp (constructed nb tp iso)
  = fresh_state nb tp iso
      (setZero (length (interfaces mp) + 1)) (setZero (length (boundaries mp) + 1))
      (setZero (length (vertices mp) + 1)) (setZero (length (boundaries mp) + 1))
      (setZero (length (vertices mp) + 1)) (setZero (nPatches mp + 1))
      (setZero (nPatches mp + 1))
      (setZero (length (vertices mp))) (setZero (length (interfaces mp)))
      (setZero (length (boundaries mp))) [].
Proof. reflexivity. Qed.

Lemma fill_sizes_5 (mb : gsMultiBasis) (nb tp iso : bool)
    (T0 T1 T2 T3 T4 T5 T6 kov spi spb : list Z) (kk : list bool) :
  fill_sizes 5 mb (fresh_state nb tp iso T0 T1 T2 T3 T4 T5 T6 kov spi spb kk)
  = fresh_state nb tp iso T0 T1 T2 T3 T4
      (for_each (nBases mb) (fun i T => <[Datatypes.S i := T !!! i + size (basis mb i)]> T) T5)
      T6 kov spi spb kk.
Proof.
  unfold fill_sizes.
  apply (for_each_embed (fun T => fresh_state nb tp iso T0 T1 T2 T3 T4 T T6 kov spi spb kk)).
  reflexivity.
Qed.

Lemma fill_sizes_6 (mb : gsMultiBasis) (nb tp iso : bool)
    (T0 T1 T2 T3 T4 T5 T6 kov spi spb : list Z) (kk : list bool) :
  fill_sizes 6 mb (fresh_state nb tp iso T0 T1 T2 T3 T4 T5 T6 kov spi spb kk)
  = fresh_state nb tp iso T0 T1 T2 T3 T4 T5
      (for_each (nBases mb) (fun i T => <[Datatypes.S i := T !!! i + size (basis mb i)]> T) T6)
      kov spi spb kk.
Proof.
  unfold fill_sizes.
  apply (for_each_embed (fun T => fresh_state nb tp iso T0 T1 T2 T3 T4 T5 T kov spi spb kk)).
  reflexivity.
Qed.

Lemma for_each_triple {A B C : Type} (ga : nat -> A -> A) (gb : nat -> B -> B)
    (gc : nat -> C -> C) (n : nat) (a : A) (b : B) (c : C) :
  for_each n (fun i x => (ga i x.1.1, gb i x.1.2, gc i x.2)) (a, b, c)
  = (for_each n ga a, for_each n gb b, for_each n gc c).
Proof.
  induction n as [|n IH]; [done|].
  by rewrite !for_each_S, IH.
Qed.

(** *** The loops of [initialize_twoPatch] *)

Lemma tp_interface_loop (mp : gsMultiPatch) (mb : list gsMultiBasis) (ikm : Z)
    (nb tp iso : bool) (T1 T2 T3 T4 T5 T6 kov spb : list Z) :
  let n := length (interfaces mp) in
  for_each n (tp_interface_step mp mb ikm)
    (fresh_state nb tp iso (setZero (n + 1)) T1 T2 T3 T4 T5 T6 kov (setZero n) spb [])
  = fresh_state nb tp iso
      (offsets 0 (map (tp_interface_count mp mb ikm nb) (seq 0 n)))
      T1 T2 T3 T4 T5 T6 kov
      (map (tp_sizePlusInt mp mb ikm) (seq 0 n)) spb (tp_kinks mp).
Proof.
  intros n.
  rewrite (for_each_embed
    (fun x : list Z * list Z * list bool =>
       fresh_state nb tp iso x.1.1 T1 T2 T3 T4 T5 T6 kov x.1.2 spb x.2)
    _ (fun i x =>
         (<[Datatypes.S i := x.1.1 !!! i + tp_interface_count mp mb ikm nb i]> x.1.1,
          <[i := tp_sizePlusInt mp mb ikm i]> x.1.2,
          [tp_kink0 mp; tp_kink1 mp])) n (setZero (n + 1), setZero n, [])).
  - rewrite (for_each_triple
      (fun i T => <[Datatypes.S i := T !!! i + tp_interface_count mp mb ikm nb i]> T)
      (fun i l => <[i := tp_sizePlusInt mp mb ikm i]> l)
      (fun _ _ => [tp_kink0 mp; tp_kink1 mp])).
    rewrite setZero_succ, fill_loop_full. unfold setZero. rewrite set_loop_full.
    simpl. f_equal. unfold tp_kinks, n.
    destruct (interfaces mp) as [|it its]; [done|].
    by rewrite (for_each_const (fun _ => [tp_kink0 mp; tp_kink1 mp])) by (simpl; done || lia).
  - intros i [[T0 spi] kk]. unfold tp_interface_step, fresh_state, set_entry, set_table,
      set_numBasisFunctions, set_sizePlusInt, set_kink, entry, table. simpl.
    do 3 f_equal.
    unfold tp_interface_count, tp_numIntBdy, raw_count, tp_kink0, tp_kink1, b2z.
    destruct nb, (kink_test mp (1, 0)%Q (0, 0)%Q), (kink_test mp (1, 1)%Q (0, 1)%Q); lia.
Qed.

Lemma tp_boundary_loop (mp : gsMultiPatch) (mb : list gsMultiBasis)
    (nb tp iso : bool) (T0 T2 T4 T5 T6 kov spi : list Z) (kk : list bool) :
  let n := length (boundaries mp) in
  for_each n (tp_boundary_step mp mb)
    (fresh_state nb tp iso T0 (setZero (n + 1)) T2 (setZero (n + 1)) T4 T5 T6
       kov spi (setZero n) kk)
  = fresh_state nb tp iso T0
      (offsets 0 (map (tp_edge_count mp mb nb) (seq 0 n))) T2
      (offsets 0 (map (tp_boundary_count mp mb nb) (seq 0 n))) T4 T5 T6 kov spi
      (map (tp_sizePlusBdy mp mb) (seq 0 n)) kk.
Proof.
  intros n.
  rewrite (for_each_embed
    (fun x : list Z * list Z * list Z =>
       fresh_state nb tp iso T0 x.1.1 T2 x.1.2 T4 T5 T6 kov spi x.2 kk)
    _ (fun i x =>
         (<[Datatypes.S i := x.1.1 !!! i + tp_edge_count mp mb nb i]> x.1.1,
          <[Datatypes.S i := x.1.2 !!! i + tp_boundary_count mp mb nb i]> x.1.2,
          <[i := tp_sizePlusBdy mp mb i]> x.2)) n (setZero (n + 1), setZero (n + 1), setZero n)).
  - rewrite (for_each_triple
      (fun i T => <[Datatypes.S i := T !!! i + tp_edge_count mp mb nb i]> T)
      (fun i T => <[Datatypes.S i := T !!! i + tp_boundary_count mp mb nb i]> T)
      (fun i l => <[i := tp_sizePlusBdy mp mb i]> l)).
    rewrite setZero_succ, !fill_loop_full. unfold setZero. by rewrite set_loop_full.
  - intros i [[T1 T3] spb]. unfold tp_boundary_step, tp_edge_count, tp_boundary_count.
    destruct nb; unfold fresh_state, set_entry, set_table,
      set_numBasisFunctions, set_sizePlusBdy, entry, table; simpl;
      f_equal; repeat (f_equal; try lia).
Qed.

Lemma tp_vertex_loop (mp : gsMultiPatch)
    (nb tp iso : bool) (T0 T1 T3 T5 T6 spi spb : list Z) (kk : list bool) :
  let n := length (vertices mp) in
  for_each n (tp_vertex_step mp)
    (fresh_state nb tp iso T0 T1 (setZero (n + 1)) T3 (setZero (n + 1)) T5 T6
       (setZero n) spi spb kk)
  = fresh_state nb tp iso T0 T1
      (offsets 0 (map (tp_vertex_count mp nb) (seq 0 n))) T3
      (offsets 0 (map (tp_bdy_vertex_count mp nb kk) (seq 0 n))) T5 T6
      (map (vertex_kind mp) (seq 0 n)) spi spb kk.
Proof.
  intros n.
  rewrite (for_each_embed
    (fun x : list Z * list Z * list Z =>
       fresh_state nb tp iso T0 T1 x.1.1 T3 x.1.2 T5 T6 x.2 spi spb kk)
    _ (fun i x =>
         (<[Datatypes.S i := x.1.1 !!! i + tp_vertex_count mp nb i]> x.1.1,
          <[Datatypes.S i := x.1.2 !!! i + tp_bdy_vertex_count mp nb kk i]> x.1.2,
          <[i := vertex_kind mp i]> x.2)) n (setZero (n + 1), setZero (n + 1), setZero n)).
  - rewrite (for_each_triple
      (fun i T => <[Datatypes.S i := T !!! i + tp_vertex_count mp nb i]> T)
      (fun i T => <[Datatypes.S i := T !!! i + tp_bdy_vertex_count mp nb kk i]> T)
      (fun i l => <[i := vertex_kind mp i]> l)).
    rewrite setZero_succ, !fill_loop_full. unfold setZero. by rewrite set_loop_full.
  - intros i [[T2 T4] kov].
    unfold tp_vertex_step, tp_vertex_count, tp_bdy_vertex_count, vertex_kind, kink_of_vertex.
    destruct (length (vertices mp !!! i) =? 1)%nat; [by destruct nb|].
    destruct (length (vertices mp !!! i) =? localInterfaces mp (vertices mp !!! i))%nat;
      [reflexivity|].
    destruct nb; [reflexivity|].
    unfold kink_at, fresh_state, set_vertex, set_entry, set_table,
      set_numBasisFunctions, set_kindOfVertex, entry, table. simpl.
    destruct (kk !!! (if (i =? 1)%nat then 0%nat else 1%nat)); simpl.
    + rewrite insert_twice. unfold b2z. repeat (f_equal; try lia).
    + unfold b2z. repeat (f_equal; try lia).
Qed.

Lemma tp_columns (mp : gsMultiPatch) (mb : list gsMultiBasis) (nb tp iso : bool)
    (T0 T1 T2 T3 T4 kov spi spb : list Z) (kk : list bool) :
  tp_fill_interface_columns mb
    (fill_sizes 5 (mb !!! 0%nat)
       (fresh_state nb tp iso T0 T1 T2 T3 T4 (setZero (nPatches mp + 1))
          (setZero (nPatches mp + 1)) kov spi spb kk))
  = fresh_state nb tp iso T0 T1 T2 T3 T4
      (tp_column_tables mp mb iso !!! 0%nat) (tp_column_tables mp mb iso !!! 1%nat)
      kov spi spb kk.
Proof.
  unfold tp_fill_interface_columns, tp_column_tables.
  rewrite fill_sizes_5, !setZero_succ.
  change (m_isogeometric (fresh_state nb tp iso _ _ _ _ _ _ _ _ _ _ _)) with iso.
  destruct (negb iso && (length mb =? 2)%nat) eqn:E; [|destruct iso].
  - change (set_entry 6 0 _ (fresh_state nb tp iso T0 T1 T2 T3 T4 ?T5 _ kov spi spb kk))
      with (fresh_state nb tp iso T0 T1 T2 T3 T4 T5 (vlast T5 :: replicate (nPatches mp) 0)
              kov spi spb kk).
    by rewrite fill_sizes_6.
  - by rewrite fill_sizes_6.
  - reflexivity.
Qed.

Lemma chain_tables_fresh (nb tp iso : bool) (cI cE cV cB cBV : list Z)
    (T5 T6 kov spi spb : list Z) (kk : list bool) :
  numBasisFunctions
    (chain_tables
       (fresh_state nb tp iso (offsets 0 cI) (offsets 0 cE) (offsets 0 cV)
          (offsets 0 cB) (offsets 0 cBV) T5 T6 kov spi spb kk))
  = chained_tables cI cE cV cB cBV ++ [T5; T6].
Proof.
  unfold chain_tables, chain_table, chained_tables, fresh_state, set_table,
    set_numBasisFunctions, last_entry, table. simpl.
  rewrite !offsets_shift, !Z.add_0_l. reflexivity.
Qed.

(** [chain_tables] and [set_dimensions] touch nothing but the tables, the
    dimensions, the matrices and [m_g1]. *)
Lemma set_dimensions_chain_fields (s : gsG1System) :
  let s' := set_dimensions (chain_tables s) in
  numBasisFunctions s' = numBasisFunctions (chain_tables s)
  /\ kink s' = kink s /\ sizePlusInt s' = sizePlusInt s
  /\ sizePlusBdy s' = sizePlusBdy s /\ kindOfVertex s' = kindOfVertex s
  /\ m_twoPatch s' = m_twoPatch s /\ m_neumannBdy s' = m_neumannBdy s
  /\ m_isogeometric s' = m_isogeometric s.
Proof. repeat split. Qed.

(** The state [initialize_twoPatch] leaves, before chaining. *)
Lemma initialize_twoPatch_loops (mp : gsMultiPatch) (mb : list gsMultiBasis)
    (ikm : Z) (nb tp iso : bool) :
  initialize_twoPatch mp mb ikm (constructed nb tp iso)
  = set_dimensions (chain_tables
      (fresh_state nb tp iso
         (offsets 0 (map (tp_interface_count mp mb ikm nb) (seq 0 (length (interfaces mp)))))
         (offsets 0 (map (tp_edge_count mp mb nb) (seq 0 (length (boundaries mp)))))
         (offsets 0 (map (tp_vertex_count mp nb) (seq 0 (length (vertices mp)))))
         (offsets 0 (map (tp_boundary_count mp mb nb) (seq 0 (length (boundaries mp)))))
         (offsets 0 (map (tp_bdy_vertex_count mp nb (tp_kinks mp)) (seq 0 (length (vertices mp)))))
         (tp_column_tables mp mb iso !!! 0%nat) (tp_column_tables mp mb iso !!! 1%nat)
         (map (vertex_kind mp) (seq 0 (length (vertices mp))))
         (map (tp_sizePlusInt mp mb ikm) (seq 0 (length (interfaces mp))))
         (map (tp_sizePlusBdy mp mb) (seq 0 (length (boundaries mp))))
         (tp_kinks mp))).
Proof.
  unfold initialize_twoPatch.
  rewrite allocate_constructed, tp_columns.
  rewrite (tp_interface_loop mp mb ikm), (tp_boundary_loop mp mb), (tp_vertex_loop mp).
  reflexivity.
Qed.

(** Closed form of everything [initialize_twoPatch] computes. *)
Lemma initialize_twoPatch_closed (mp : gsMultiPatch) (mb : list gsMultiBasis)
    (ikm : Z) (nb tp iso : bool) :
  let s := initialize_twoPatch mp mb ikm (constructed nb tp iso) in
  numBasisFunctions s = tp_tables mp mb ikm nb iso
  /\ kink s = tp_kinks mp
  /\ sizePlusInt s = map (tp_sizePlusInt mp mb ikm) (seq 0 (length (interfaces mp)))
  /\ sizePlusBdy s = map (tp_sizePlusBdy mp mb) (seq 0 (length (boundaries mp)))
  /\ kindOfVertex s = map (vertex_kind mp) (seq 0 (length (vertices mp)))
  /\ m_twoPatch s = tp /\ m_neumannBdy s = nb /\ m_isogeometric s = iso.
Proof.
  intros s. unfold s. rewrite initialize_twoPatch_loops.
  split; [|repeat split].
  change (numBasisFunctions (set_dimensions ?x)) with (numBasisFunctions x).
  rewrite chain_tables_fresh. unfold tp_tables. by f_equal.
Qed.

(** *** The loops of [initialize] *)

Lemma gen_interface_loop (mp : gsMultiPatch) (mb : list gsMultiBasis)
    (nb tp iso : bool) (T1 T2 T3 T4 T5 T6 kov spb : list Z) (kk : list bool) :
  let n := length (interfaces mp) in
  for_each n (gen_interface_step mp mb)
    (fresh_state nb tp iso (setZero (n + 1)) T1 T2 T3 T4 T5 T6 kov (setZero n) spb kk)
  = fresh_state nb tp iso
      (offsets 0 (map (gen_interface_count mp mb) (seq 0 n)))
      T1 T2 T3 T4 T5 T6 kov
      (map (gen_sizePlusInt mp mb) (seq 0 n)) spb kk.
Proof.
  intros n.
  rewrite (for_each_embed
    (fun x : list Z * list Z =>
       fresh_state nb tp iso x.1 T1 T2 T3 T4 T5 T6 kov x.2 spb kk)
    _ (fun i x =>
         (<[Datatypes.S i := x.1 !!! i + gen_interface_count mp mb i]> x.1,
          <[i := gen_sizePlusInt mp mb i]> x.2)) n (setZero (n + 1), setZero n)).
  - rewrite (for_each_pair
      (fun i T => <[Datatypes.S i := T !!! i + gen_interface_count mp mb i]> T)
      (fun i l => <[i := gen_sizePlusInt mp mb i]> l)).
    rewrite setZero_succ, fill_loop_full. unfold setZero. by rewrite set_loop_full.
  - intros i [T0 spi]. unfold gen_interface_step, fresh_state, set_entry, set_table,
      set_numBasisFunctions, set_sizePlusInt, entry, table. simpl.
    do 3 f_equal. unfold gen_interface_count, raw_count. lia.
Qed.

Lemma gen_boundary_loop (mp : gsMultiPatch) (mb : list gsMultiBasis)
    (nb tp iso : bool) (T0 T2 T4 T5 T6 kov spi : list Z) (kk : list bool) :
  let n := length (boundaries mp) in
  for_each n (gen_boundary_step mp mb)
    (fresh_state nb tp iso T0 (setZero (n + 1)) T2 (setZero (n + 1)) T4 T5 T6
       kov spi (setZero n) kk)
  = fresh_state nb tp iso T0
      (offsets 0 (map (gen_edge_count mp mb nb) (seq 0 n))) T2
      (offsets 0 (map (gen_boundary_count mp mb nb) (seq 0 n))) T4 T5 T6 kov spi
      (map (fun i => to_size_t (gen_plus mp mb i)) (seq 0 n)) kk.
Proof.
  intros n.
  rewrite (for_each_embed
    (fun x : list Z * list Z * list Z =>
       fresh_state nb tp iso T0 x.1.1 T2 x.1.2 T4 T5 T6 kov spi x.2 kk)
    _ (fun i x =>
         (<[Datatypes.S i := x.1.1 !!! i + gen_edge_count mp mb nb i]> x.1.1,
          <[Datatypes.S i := x.1.2 !!! i + gen_boundary_count mp mb nb i]> x.1.2,
          <[i := to_size_t (gen_plus mp mb i)]> x.2)) n
    (setZero (n + 1), setZero (n + 1), setZero n)).
  - rewrite (for_each_triple
      (fun i T => <[Datatypes.S i := T !!! i + gen_edge_count mp mb nb i]> T)
      (fun i T => <[Datatypes.S i := T !!! i + gen_boundary_count mp mb nb i]> T)
      (fun i l => <[i := to_size_t (gen_plus mp mb i)]> l)).
    rewrite setZero_succ, !fill_loop_full. unfold setZero. by rewrite set_loop_full.
  - intros i [[T1 T3] spb].
    unfold gen_boundary_step, gen_edge_count, gen_boundary_count, gen_plus.
    destruct nb; unfold fresh_state, set_entry, set_table,
      set_numBasisFunctions, set_sizePlusBdy, entry, table; simpl;
      f_equal; repeat (f_equal; try lia).
Qed.

Lemma gen_vertex_loop (mp : gsMultiPatch)
    (nb tp iso : bool) (T0 T1 T3 T5 T6 spi spb : list Z) (kk : list bool) :
  let n := length (vertices mp) in
  for_each n (gen_vertex_step mp)
    (fresh_state nb tp iso T0 T1 (setZero (n + 1)) T3 (setZero (n + 1)) T5 T6
       (setZero n) spi spb kk)
  = fresh_state nb tp iso T0 T1
      (offsets 0 (map (gen_vertex_count mp) (seq 0 n))) T3
      (offsets 0 (map (gen_bdy_vertex_count mp) (seq 0 n))) T5 T6
      (map (vertex_kind mp) (seq 0 n)) spi spb kk.
Proof.
  intros n.
  rewrite (for_each_embed
    (fun x : list Z * list Z * list Z =>
       fresh_state nb tp iso T0 T1 x.1.1 T3 x.1.2 T5 T6 x.2 spi spb kk)
    _ (fun i x =>
         (<[Datatypes.S i := x.1.1 !!! i + gen_vertex_count mp i]> x.1.1,
          <[Datatypes.S i := x.1.2 !!! i + gen_bdy_vertex_count mp i]> x.1.2,
          <[i := vertex_kind mp i]> x.2)) n (setZero (n + 1), setZero (n + 1), setZero n)).
  - rewrite (for_each_triple
      (fun i T => <[Datatypes.S i := T !!! i + gen_vertex_count mp i]> T)
      (fun i T => <[Datatypes.S i := T !!! i + gen_bdy_vertex_count mp i]> T)
      (fun i l => <[i := vertex_kind mp i]> l)).
    rewrite setZero_succ, !fill_loop_full. unfold setZero. by rewrite set_loop_full.
  - intros i [[T2 T4] kov].
    unfold gen_vertex_step, gen_vertex_count, gen_bdy_vertex_count, vertex_kind.
    destruct (length (vertices mp !!! i) =? 1)%nat; [reflexivity|].
    destruct (length (vertices mp !!! i) =? localInterfaces mp (vertices mp !!! i))%nat;
      reflexivity.
Qed.

Lemma gen_columns (mp : gsMultiPatch) (mb : list gsMultiBasis) (nb tp iso : bool)
    (T0 T1 T2 T3 T4 kov spi spb : list Z) (kk : list bool) :
  (let s := fill_sizes 5 (mb !!! 0%nat)
       (fresh_state nb tp iso T0 T1 T2 T3 T4 (setZero (nPatches mp + 1))
          (setZero (nPatches mp + 1)) kov spi spb kk) in
   if m_isogeometric s then fill_sizes 6 (mb !!! 0%nat) s else s)
  = fresh_state nb tp iso T0 T1 T2 T3 T4
      (gen_column_tables mp mb iso !!! 0%nat) (gen_column_tables mp mb iso !!! 1%nat)
      kov spi spb kk.
Proof.
  unfold gen_column_tables. cbv zeta.
  rewrite fill_sizes_5, !setZero_succ.
  change (m_isogeometric (fresh_state nb tp iso _ _ _ _ _ _ _ _ _ _ _)) with iso.
  destruct iso; [by rewrite fill_sizes_6|reflexivity].
Qed.

Lemma initialize_loops (mp : gsMultiPatch) (mb : list gsMultiBasis)
    (nb tp iso : bool) :
  initialize mp mb (constructed nb tp iso)
  = set_dimensions (chain_tables
      (fresh_state nb tp iso
         (offsets 0 (map (gen_interface_count mp mb) (seq 0 (length (interfaces mp)))))
         (offsets 0 (map (gen_edge_count mp mb nb) (seq 0 (length (boundaries mp)))))
         (offsets 0 (map (gen_vertex_count mp) (seq 0 (length (vertices mp)))))
         (offsets 0 (map (gen_boundary_count mp mb nb) (seq 0 (length (boundaries mp)))))
         (offsets 0 (map (gen_bdy_vertex_count mp) (seq 0 (length (vertices mp)))))
         (gen_column_tables mp mb iso !!! 0%nat) (gen_column_tables mp mb iso !!! 1%nat)
         (map (vertex_kind mp) (seq 0 (length (vertices mp))))
         (map (gen_sizePlusInt mp mb) (seq 0 (length (interfaces mp))))
         (map (fun i => to_size_t (gen_plus mp mb i)) (seq 0 (length (boundaries mp))))
         [])).
Proof.
  unfold initialize.
  rewrite allocate_constructed.
  rewrite (gen_columns mp mb).
  rewrite (gen_interface_loop mp mb), (gen_boundary_loop mp mb), (gen_vertex_loop mp).
  reflexivity.
Qed.

(** Closed form of everything [initialize] computes. *)
Lemma initialize_closed (mp : gsMultiPatch) (mb : list gsMultiBasis)
    (nb tp iso : bool) :
  let s := initialize mp mb (constructed nb tp iso) in
  numBasisFunctions s = gen_tables mp mb nb iso
  /\ kink s = []
  /\ sizePlusInt s = map (gen_sizePlusInt mp mb) (seq 0 (length (interfaces mp)))
  /\ sizePlusBdy s = map (fun i => to_size_t (gen_plus mp mb i)) (seq 0 (length (boundaries mp)))
  /\ kindOfVertex s = map (vertex_kind mp) (seq 0 (length (vertices mp)))
  /\ m_twoPatch s = tp /\ m_neumannBdy s = nb /\ m_isogeometric s = iso.
Proof.
  intros s. unfold s. rewrite initialize_loops.
  split; [|repeat split].
  change (numBasisFunctions (set_dimensions ?x)) with (numBasisFunctions x).
  rewrite chain_tables_fresh. unfold gen_tables. by f_equal.
Qed.

(** ** The chained tables *)

Lemma chained_tables_offsets (cI cE cV cB cBV : list Z) (k : nat) :
  (k < 5)%nat ->
  exists a, chained_tables cI cE cV cB cBV !!! k
            = offsets a ([cI; cE; cV; cB; cBV] !!! k).
Proof.
  intros Hk. do 5 (destruct k as [|k]; [eexists; reflexivity|]). lia.
Qed.

Lemma chained_tables_chain (cI cE cV cB cBV : list Z) (k : nat) :
  (k < 4)%nat ->
  vlast (chained_tables cI cE cV cB cBV !!! k)
  = (chained_tables cI cE cV cB cBV !!! Datatypes.S k) !!! 0%nat.
Proof.
  intros Hk.
  do 4 (destruct k as [|k]; [unfold chained_tables; simpl; by rewrite offsets_head|]). lia.
Qed.

Lemma chained_tables_start (cI cE cV cB cBV : list Z) :
  (chained_tables cI cE cV cB cBV !!! 0%nat) !!! 0%nat = 0.
Proof. unfold chained_tables. simpl. apply offsets_head. Qed.

Lemma table_of_chained (s : gsG1System) (cI cE cV cB cBV : list Z) (cols : list (list Z))
    (k : nat) :
  numBasisFunctions s = chained_tables cI cE cV cB cBV ++ cols ->
  (k < 5)%nat ->
  table s k = chained_tables cI cE cV cB cBV !!! k.
Proof.
  intros H Hk. unfold table. rewrite H. by apply lookup_total_app_l.
Qed.

Lemma map_seq_lookup_total (f : nat -> Z) (n i : nat) :
  (i < n)%nat -> map f (seq 0 n) !!! i = f i.
Proof.
  intros Hi. apply list_lookup_total_correct.
  rewrite list_lookup_fmap, lookup_seq_lt by done. reflexivity.
Qed.

(** In a system whose first five tables are chained over the counts
    [cI, cE, cV, cB, cBV]: the size of a block is the count of its entity;
    each table ends where the next one starts; a table over non-negative
    counts is non-decreasing. *)
Lemma chained_block_size (s : gsG1System) (cI cE cV cB cBV : list Z)
    (cols : list (list Z)) (k i : nat) :
  numBasisFunctions s = chained_tables cI cE cV cB cBV ++ cols ->
  (k < 5)%nat -> (i < length ([cI; cE; cV; cB; cBV] !!! k))%nat ->
  entry s k (Datatypes.S i) - entry s k i = ([cI; cE; cV; cB; cBV] !!! k) !!! i.
Proof.
  intros H Hk Hi. unfold entry. rewrite (table_of_chained _ _ _ _ _ _ _ _ H Hk).
  destruct (chained_tables_offsets cI cE cV cB cBV k Hk) as [a ->].
  rewrite offsets_step by done. lia.
Qed.

Lemma chained_chain (s : gsG1System) (cI cE cV cB cBV : list Z)
    (cols : list (list Z)) (k : nat) :
  numBasisFunctions s = chained_tables cI cE cV cB cBV ++ cols ->
  (k < 4)%nat -> last_entry s k = entry s (Datatypes.S k) 0.
Proof.
  intros H Hk. unfold last_entry, entry.
  rewrite !(table_of_chained _ _ _ _ _ _ _ _ H) by lia.
  by apply chained_tables_chain.
Qed.

Lemma chained_nondecreasing (s : gsG1System) (cI cE cV cB cBV : list Z)
    (cols : list (list Z)) (k : nat) :
  numBasisFunctions s = chained_tables cI cE cV cB cBV ++ cols ->
  (k < 5)%nat -> Forall (fun c => 0 <= c) ([cI; cE; cV; cB; cBV] !!! k) ->
  nondecreasing (table s k).
Proof.
  intros H Hk Hc. rewrite (table_of_chained _ _ _ _ _ _ _ _ H Hk).
  destruct (chained_tables_offsets cI cE cV cB cBV k Hk) as [a ->].
  by apply offsets_nondecreasing.
Qed.

(** The constructor in closed form. *)
Lemma new_gsG1System_tables (mp : gsMultiPatch) (mb : list gsMultiBasis)
    (ikm : Z) (nb tp iso : bool) :
  numBasisFunctions (new_gsG1System mp mb ikm nb tp iso)
  = if tp then tp_tables mp mb ikm nb iso else gen_tables mp mb nb iso.
Proof.
  unfold new_gsG1System. change (m_twoPatch (constructed nb tp iso)) with tp.
  destruct tp.
  - apply initialize_twoPatch_closed.
  - apply initialize_closed.
Qed.

(** ** Interface counts (C2) *)

(** C2 (as amended).  For every interface [i], the allocated
    interface-function count [table[i+1] - table[i]] is, in the two-patch
    initializer, the raw count minus [numIntBdy] plus [2 * numInnerKnot],
    where [numIntBdy] is 4 (8 in Neumann mode) plus 1 per detected kink and
    [numInnerKnot] is 3 when [innerKnotMulti > 0] and [m_p - 1 - m_r = 1] and
    0 otherwise; in the general initializer it is the raw count for
    [m_r = 1] minus 10, whatever the mode. *)
Theorem interface_count_formula (mp : gsMultiPatch) (mb : list gsMultiBasis)
    (ikm : Z) (nb tp iso : bool) (i : nat) :
  (i < length (interfaces mp))%nat ->
  (let s := initialize_twoPatch mp mb ikm (constructed nb tp iso) in
   entry s 0 (Datatypes.S i) - entry s 0 i
   = raw_count (tp_m_p mp mb i) (tp_m_r mp mb i) (tp_m_n mp mb i)
     - ((if nb then 8 else 4) + b2z (tp_kink0 mp) + b2z (tp_kink1 mp))
     + 2 * (if (0 <? ikm) && (tp_m_p mp mb i - 1 - tp_m_r mp mb i =? 1) then 3 else 0))
  /\ (let s := initialize mp mb (constructed nb tp iso) in
      entry s 0 (Datatypes.S i) - entry s 0 i
      = raw_count (maxDegree (gen_basis_edge mp mb i)) 1
          (numElements (gen_basis_edge mp mb i)) - 10).
Proof.
  intros Hi. split.
  - intros s. destruct (initialize_twoPatch_closed mp mb ikm nb tp iso) as [Ht _].
    fold s in Ht. unfold tp_tables in Ht.
    rewrite (chained_block_size s _ _ _ _ _ _ 0 i Ht) by (simpl; rewrite ?length_map, ?length_seq; lia).
    simpl. by rewrite map_seq_lookup_total.
  - intros s. destruct (initialize_closed mp mb nb tp iso) as [Ht _].
    fold s in Ht. unfold gen_tables in Ht.
    rewrite (chained_block_size s _ _ _ _ _ _ 0 i Ht) by (simpl; rewrite ?length_map, ?length_seq; lia).
    simpl. by rewrite map_seq_lookup_total.
Qed.

Lemma interface_count_formula_witness :
  entry sys_kinked 0 1 - entry sys_kinked 0 0 = 13 - (4 + 1 + 1) + 2 * 0
  /\ entry sys_general 0 1 - entry sys_general 0 0 = 13 - 10.
Proof.
  assert (0 < length (interfaces (two_patch_domain turned_patch)))%nat as H1
    by (simpl; lia).
  assert (0 < length (interfaces (two_patch_domain flat_patch)))%nat as H2
    by (simpl; lia).
  split.
  - exact (proj1 (interface_count_formula (two_patch_domain turned_patch)
                    (two_patch_bases 3 4) 0 false true true 0 H1)).
  - exact (proj2 (interface_count_formula (two_patch_domain flat_patch)
                    (two_patch_bases 3 4) 0 false false true 0 H2)).
Defined.

(** C2 fails as stated.  In the general initializer, non-Neumann, the count
    of the interface is 3 where the raw count minus 4 is 9; in the two-patch
    initializer with a kink at both ends it is 7 where the raw count minus
    4 and minus 2 per kink is 5. *)
Lemma interface_count_differs_from_claim :
  (m_neumannBdy sys_general = false
   /\ raw_count 3 1 4 = 13
   /\ entry sys_general 0 1 - entry sys_general 0 0 = 3
   /\ entry sys_general 0 1 - entry sys_general 0 0 <> raw_count 3 1 4 - 4)
  /\ (m_neumannBdy sys_kinked = false
      /\ kink sys_kinked = [true; true]
      /\ entry sys_kinked 0 1 - entry sys_kinked 0 0 = 7
      /\ entry sys_kinked 0 1 - entry sys_kinked 0 0 <> raw_count 3 1 4 - 4 - 2 - 2).
Proof. vm_compute. repeat split; discriminate. Qed.

(** ** Monotone, chained tables (C3) *)

Lemma nonneg_map_seq (f : nat -> Z) (n : nat) :
  (forall i, (i < n)%nat -> 0 <= f i) -> nonneg (map f (seq 0 n)).
Proof.
  intros H. apply Forall_forall. intros x Hx.
  apply list_elem_of_fmap in Hx as (i & -> & Hi).
  apply elem_of_seq in Hi. apply H. lia.
Qed.

Lemma vertex_counts_nonneg (mp : gsMultiPatch) (nb : bool) (kk : list bool) (n : nat) :
  nonneg (map (tp_vertex_count mp nb) (seq 0 n))
  /\ nonneg (map (tp_bdy_vertex_count mp nb kk) (seq 0 n))
  /\ nonneg (map (gen_vertex_count mp) (seq 0 n))
  /\ nonneg (map (gen_bdy_vertex_count mp) (seq 0 n)).
Proof.
  repeat split; apply nonneg_map_seq; intros i _.
  - unfold tp_vertex_count. destruct (vertex_kind mp i =? -1), nb; lia.
  - unfold tp_bdy_vertex_count, b2z.
    destruct (vertex_kind mp i =? -1), (vertex_kind mp i =? 0), nb,
      (kk !!! kink_of_vertex i); lia.
  - unfold gen_vertex_count. destruct (vertex_kind mp i =? -1), (vertex_kind mp i =? 0); lia.
  - unfold gen_bdy_vertex_count.
    destruct (vertex_kind mp i =? -1), (vertex_kind mp i =? 0); lia.
Qed.

(** The five entity tables of a new system are chained; they are
    non-decreasing when the interface and boundary counts are non-negative. *)
Lemma new_gsG1System_chained (mp : gsMultiPatch) (mb : list gsMultiBasis)
    (ikm : Z) (nb tp iso : bool) :
  exists cI cE cV cB cBV cols,
    numBasisFunctions (new_gsG1System mp mb ikm nb tp iso)
    = chained_tables cI cE cV cB cBV ++ cols
    /\ (counts_nonneg mp mb ikm nb tp ->
        forall k, (k < 5)%nat -> nonneg ([cI; cE; cV; cB; cBV] !!! k)).
Proof.
  rewrite new_gsG1System_tables. unfold counts_nonneg. destruct tp.
  - do 6 eexists. split; [reflexivity|]. intros (HI & HE & HB) k Hk.
    destruct (vertex_counts_nonneg mp nb (tp_kinks mp) (length (vertices mp)))
      as (HV & HBV & _ & _).
    do 5 (destruct k as [|k]; [done|]). lia.
  - do 6 eexists. split; [reflexivity|]. intros (HI & HE & HB) k Hk.
    destruct (vertex_counts_nonneg mp nb [] (length (vertices mp)))
      as (_ & _ & HV & HBV).
    do 5 (destruct k as [|k]; [done|]). lia.
Qed.

Lemma new_gsG1System_tables_ok (mp : gsMultiPatch) (mb : list gsMultiBasis)
    (ikm : Z) (nb tp iso : bool) :
  counts_nonneg mp mb ikm nb tp ->
  tables_ok (new_gsG1System mp mb ikm nb tp iso).
Proof.
  intros Hc.
  destruct (new_gsG1System_chained mp mb ikm nb tp iso)
    as (cI & cE & cV & cB & cBV & cols & Ht & Hn).
  split.
  - intros k Hk. split.
    + eapply chained_nondecreasing; eauto. by apply Hn.
    + rewrite (table_of_chained _ _ _ _ _ _ _ _ Ht Hk).
      destruct (chained_tables_offsets cI cE cV cB cBV k Hk) as [a ->].
      rewrite length_offsets. lia.
  - intros k Hk. eapply chained_chain; eauto.
Qed.

Lemma column_table_matched (a : Z) (mb : gsMultiBasis) (n : nat) :
  nBases mb = n -> Forall (fun b => 0 <= size b) mb ->
  nondecreasing (column_table a mb n).
Proof.
  intros Hn Hs. unfold column_table. rewrite Hn, fill_loop_full.
  apply offsets_nondecreasing, nonneg_map_seq. intros i Hi.
  rewrite Forall_lookup in Hs. apply (Hs i). unfold basis.
  apply list_lookup_lookup_total_lt. unfold nBases in Hn. lia.
Qed.

Lemma setZero_nondecreasing (n : nat) : nondecreasing (setZero n).
Proof.
  intros i j [Hij Hj]. unfold setZero in *. rewrite length_replicate in Hj.
  rewrite !lookup_total_replicate_2 by lia. lia.
Qed.

(** C3 (as amended).  After initialization the entity tables are chained:
    the last value of category k's table is the first value of category
    k+1's, in the order InterfaceFunctions, EdgeFunctions, VertexFunctions,
    BoundaryEdgeFunctions, BoundaryVertexFunctions.  Every table is
    non-decreasing provided the initializer gives every interface and every
    boundary side a non-negative count and there is one basis of
    non-negative size per patch. *)
Theorem tables_chained_and_monotone (mp : gsMultiPatch) (mb : list gsMultiBasis)
    (ikm : Z) (nb tp iso : bool) :
  let s := new_gsG1System mp mb ikm nb tp iso in
  (forall k, (k < 4)%nat -> last_entry s k = entry s (Datatypes.S k) 0)
  /\ (counts_nonneg mp mb ikm nb tp -> columns_ok mp mb tp iso ->
      forall k, (k < 7)%nat -> nondecreasing (table s k)).
Proof.
  intros s. split.
  - intros k Hk.
    destruct (new_gsG1System_chained mp mb ikm nb tp iso)
      as (cI & cE & cV & cB & cBV & cols & Ht & _).
    eapply chained_chain; eauto.
  - intros Hc [H0 H1] k Hk.
    destruct (decide (k < 5)%nat) as [Hk5|Hk5].
    + by apply (new_gsG1System_tables_ok mp mb ikm nb tp iso Hc).
    + unfold table, s. rewrite new_gsG1System_tables.
      destruct H0 as [Hn0 Hs0].
      assert (k = 5%nat \/ k = 6%nat) as [->| ->] by lia.
      * destruct tp; simpl; by apply column_table_matched.
      * destruct tp; simpl.
        -- destruct (negb iso && (length mb =? 2)%nat) eqn:E.
           ++ apply andb_true_iff in E as [Hi Hl].
              apply negb_true_iff in Hi. apply Nat.eqb_eq in Hl.
              destruct (H1 eq_refl Hi Hl) as [Hn1 Hs1].
              by apply column_table_matched.
           ++ destruct iso; [by apply column_table_matched|apply setZero_nondecreasing].
        -- destruct iso; [by apply column_table_matched|apply setZero_nondecreasing].
Qed.

Lemma tables_chained_and_monotone_witness :
  (forall k, (k < 4)%nat -> last_entry sys_general k = entry sys_general (Datatypes.S k) 0)
  /\ (forall k, (k < 7)%nat -> nondecreasing (table sys_general k)).
Proof.
  destruct (tables_chained_and_monotone (two_patch_domain flat_patch)
              (two_patch_bases 3 4) 0 false false true) as [Hchain Hmono].
  split; [exact Hchain|]. apply Hmono.
  - vm_compute. repeat split; repeat constructor; discriminate.
  - split; [|discriminate]. split; [reflexivity|].
    repeat constructor; vm_compute; discriminate.
Defined.

(** C3 fails as stated: on a single-element bicubic discretisation the
    general initializer gives the interface the count -3, so the interface
    table [0; -3] decreases. *)
Lemma interface_table_decreases :
  table sys_coarse 0 = [0; -3] /\ ~ nondecreasing (table sys_coarse 0).
Proof.
  assert (table sys_coarse 0 = [0; -3]) as E by (vm_compute; reflexivity).
  split; [exact E|]. intros H. specialize (H 0%nat 1%nat).
  rewrite E in H. simpl in H. lia.
Qed.

(** ** Kink detection (C6) *)

Lemma tp_kinks_lookup (mp : gsMultiPatch) :
  interfaces mp <> [] ->
  tp_kinks mp !!! 0%nat = tp_kink0 mp /\ tp_kinks mp !!! 1%nat = tp_kink1 mp.
Proof. unfold tp_kinks. by destruct (interfaces mp). Qed.

(** C6.  In the two-patch initializer (with an interface to process), the
    kink flag of an end is set exactly when the squared determinant of the
    two first Jacobian columns exceeds 1e-25; every interface loses one more
    function per set flag; and in non-Neumann mode an interface-boundary
    vertex receives 2 boundary-vertex functions plus 1 when the flag it
    consults (flag 0 for vertex 1, flag 1 otherwise) is set. *)
Theorem kink_detection (mp : gsMultiPatch) (mb : list gsMultiBasis)
    (ikm : Z) (nb tp iso : bool) :
  interfaces mp <> [] ->
  let s := initialize_twoPatch mp mb ikm (constructed nb tp iso) in
  let det0 := determinant (kink_matrix mp (1, 0)%Q (0, 0)%Q) in
  let det1 := determinant (kink_matrix mp (1, 1)%Q (0, 1)%Q) in
  (kink_at s 0 = true <-> (1e-25 < det0 * det0)%Q)
  /\ (kink_at s 1 = true <-> (1e-25 < det1 * det1)%Q)
  /\ (forall i, (i < length (interfaces mp))%nat ->
        entry s 0 (Datatypes.S i) - entry s 0 i
        = raw_count (tp_m_p mp mb i) (tp_m_r mp mb i) (tp_m_n mp mb i)
          + 2 * tp_numInnerKnot mp mb ikm i
          - (if nb then 8 else 4) - b2z (kink_at s 0) - b2z (kink_at s 1))
  /\ (nb = false ->
      forall v, (v < length (vertices mp))%nat -> vertex_kind mp v = 1 ->
        entry s 4 (Datatypes.S v) - entry s 4 v
        = 2 + b2z (kink_at s (kink_of_vertex v))).
Proof.
  intros Hint s det0 det1.
  destruct (initialize_twoPatch_closed mp mb ikm nb tp iso) as (Ht & Hk & _).
  fold s in Ht, Hk. destruct (tp_kinks_lookup mp Hint) as [Hk0 Hk1].
  assert (kink_at s 0 = tp_kink0 mp) as E0 by (unfold kink_at; by rewrite Hk).
  assert (kink_at s 1 = tp_kink1 mp) as E1 by (unfold kink_at; by rewrite Hk).
  split; [rewrite E0; apply Qgtb_spec|].
  split; [rewrite E1; apply Qgtb_spec|].
  unfold tp_tables in Ht. split.
  - intros i Hi.
    rewrite (chained_block_size s _ _ _ _ _ _ 0 i Ht)
      by (simpl; rewrite ?length_map, ?length_seq; lia).
    simpl. rewrite map_seq_lookup_total by done.
    unfold tp_interface_count, tp_numIntBdy. rewrite E0, E1. lia.
  - intros -> v Hv Hkind.
    rewrite (chained_block_size s _ _ _ _ _ _ 4 v Ht)
      by (simpl; rewrite ?length_map, ?length_seq; lia).
    simpl. rewrite map_seq_lookup_total by done.
    unfold tp_bdy_vertex_count. rewrite Hkind. simpl.
    unfold kink_at. by rewrite Hk.
Qed.

Lemma kink_detection_witness :
  (kink_at sys_kinked 0 = true <-> (1e-25 < 1 * 1)%Q)
  /\ (kink_at sys_flat 0 = true <-> (1e-25 < 0 * 0)%Q)
  /\ entry sys_kinked 4 2 - entry sys_kinked 4 1 = 2 + b2z (kink_at sys_kinked 0)
  /\ entry sys_flat 4 2 - entry sys_flat 4 1 = 2 + b2z (kink_at sys_flat 0).
Proof.
  assert (interfaces (two_patch_domain turned_patch) <> []) as H1 by discriminate.
  assert (interfaces (two_patch_domain flat_patch) <> []) as H2 by discriminate.
  pose proof (kink_detection (two_patch_domain turned_patch) (two_patch_bases 3 4)
                0 false true true H1) as (K0 & _ & _ & KV).
  pose proof (kink_detection (two_patch_domain flat_patch) (two_patch_bases 3 4)
                0 false true true H2) as (F0 & _ & _ & FV).
  split; [exact K0|]. split; [exact F0|]. split.
  - apply (KV eq_refl 1%nat); [simpl; lia|reflexivity].
  - apply (FV eq_refl 1%nat); [simpl; lia|reflexivity].
Defined.

(** Tangents at 90 degrees set both flags and give vertex 1 three
    boundary-vertex functions; collinear tangents set none and give it two. *)
Example kink_at_right_angle :
  kink sys_kinked = [true; true] /\ entry sys_kinked 4 2 - entry sys_kinked 4 1 = 3
  /\ kink sys_flat = [false; false] /\ entry sys_flat 4 2 - entry sys_flat 4 1 = 2.
Proof. vm_compute. repeat split. Qed.

(** ** Rerouting in two-patch mode (C10) *)

Lemma rerouted_rows (s : gsG1System) (iID : nat) (bfID : Z) :
  m_twoPatch s = true -> m_neumannBdy s = false -> is_rerouted s bfID = true ->
  Forall (fun r => r ∈ [entry s 4 1; entry s 4 1 + 1; entry s 4 1 + 2;
                        entry s 4 3; entry s 4 3 + 1; entry s 4 3 + 2])
         (interface_rows s iID bfID)
  /\ forall iID', interface_rows s iID' bfID = interface_rows s iID bfID.
Proof.
  intros Htp Hnb Hr. unfold interface_rows, is_rerouted in *. rewrite Htp, Hnb. simpl.
  destruct (is_endpoint s bfID).
  - split; [|done]. apply Forall_app. split.
    + destruct ((bfID =? 0) || (bfID =? plusInt_of s)); [|constructor].
      constructor; [|constructor]. destruct (bfID =? 0); rewrite ?Z.add_0_r; set_solver.
    + destruct ((bfID =? plusInt_of s - 1) || (bfID =? 2 * plusInt_of s - 2)); [|constructor].
      constructor; [|constructor].
      destruct (bfID =? plusInt_of s - 1); rewrite ?Z.add_0_r; set_solver.
  - simpl in Hr. destruct ((bfID =? 1) && kink_at s 0).
    + split; [|done]. constructor; [set_solver|constructor].
    + simpl in Hr. rewrite Hr. split; [|done]. constructor; [set_solver|constructor].
Qed.

Lemma not_rerouted_rows (s : gsG1System) (iID : nat) (bfID : Z) :
  m_twoPatch s = true -> m_neumannBdy s = false -> is_rerouted s bfID = false ->
  interface_rows s iID bfID
  = [entry s 0 iID + bfID
     - (if bfID <? plusInt_of s - (if kink_at s 1 then 2 else 1)
        then (if kink_at s 0 then 2 else 1)
        else 3 + (if kink_at s 0 then 1 else 0) + (if kink_at s 1 then 1 else 0))].
Proof.
  intros Htp Hnb Hr. unfold interface_rows, is_rerouted in *. rewrite Htp, Hnb. simpl.
  apply orb_false_iff in Hr as [Hr H2]. apply orb_false_iff in Hr as [H0 H1].
  by rewrite H0, H1, H2.
Qed.

(** C10.  In two-patch non-Neumann mode: whether an ordinal is rerouted is
    decided by [sizePlusInt[0]] and the two kink flags alone; a rerouted
    ordinal is written into rows among [numBasisFunctions[4][1] + {0,1,2}]
    and [numBasisFunctions[4][3] + {0,1,2}], and the whole insertion is the
    same for every interface id.  The kink flags left by the two-patch
    initializer are those of the Jacobians of patch 0 at (1,0), (1,1) and of
    patch 1 at (0,0), (0,1), the same for every interface. *)
Theorem rerouting_ignores_interface_id :
  (forall (s : gsG1System) (mp : gsMultiPatch) (item : boundaryInterface)
          (iID iID' : nat) (bfID : Z),
      m_twoPatch s = true -> m_neumannBdy s = false -> is_rerouted s bfID = true ->
      insertInterfaceEdge mp item iID bfID s = insertInterfaceEdge mp item iID' bfID s
      /\ Forall (fun r => r ∈ [entry s 4 1; entry s 4 1 + 1; entry s 4 1 + 2;
                               entry s 4 3; entry s 4 3 + 1; entry s 4 3 + 2])
           (rows_of (insertInterfaceEdge_writes s mp item iID bfID)))
  /\ (forall (s s' : gsG1System) (bfID : Z),
      sizePlusInt s !!! 0%nat = sizePlusInt s' !!! 0%nat ->
      kink_at s 0 = kink_at s' 0 -> kink_at s 1 = kink_at s' 1 ->
      is_rerouted s bfID = is_rerouted s' bfID)
  /\ (forall (mp : gsMultiPatch) (mb : list gsMultiBasis) (ikm : Z) (nb tp iso : bool),
      interfaces mp <> [] ->
      kink (initialize_twoPatch mp mb ikm (constructed nb tp iso))
      = [kink_test mp (1, 0)%Q (0, 0)%Q; kink_test mp (1, 1)%Q (0, 1)%Q])
  /\ (forall (mp mp' : gsMultiPatch) (pt0 pt1 : gsVector2),
      jacobian (patch mp 0) pt0 = jacobian (patch mp' 0) pt0 ->
      jacobian (patch mp 1) pt1 = jacobian (patch mp' 1) pt1 ->
      kink_test mp pt0 pt1 = kink_test mp' pt0 pt1).
Proof.
  split; [|split; [|split]].
  - intros s mp item iID iID' bfID Htp Hnb Hr.
    destruct (rerouted_rows s iID bfID Htp Hnb Hr) as [Hrows Hsame].
    split.
    + rewrite !insertInterfaceEdge_spec. unfold insertInterfaceEdge_writes.
      by rewrite (Hsame iID').
    + apply Forall_forall. intros r Hin. unfold rows_of in Hin.
      apply list_elem_of_fmap in Hin as (w & -> & Hw).
      unfold insertInterfaceEdge_writes in Hw.
      apply elem_of_flat_map_seq in Hw as (np & _ & Hw).
      apply elem_of_flat_map_seq in Hw as (j & _ & Hw).
      apply elem_of_coef_writes in Hw as (r & Hr' & _ & ->). simpl.
      rewrite Forall_forall in Hrows. by apply Hrows.
  - intros s s' bfID Hp H0 H1. unfold is_rerouted, is_endpoint, plusInt_of.
    by rewrite Hp, H0, H1.
  - intros mp mb ikm nb tp iso Hint.
    destruct (initialize_twoPatch_closed mp mb ikm nb tp iso) as (_ & Hk & _).
    rewrite Hk. unfold tp_kinks. by destruct (interfaces mp).
  - intros mp mp' pt0 pt1 H0 H1. unfold kink_test, kink_matrix. by rewrite H0, H1.
Qed.

Lemma rerouting_ignores_interface_id_witness :
  insertInterfaceEdge (basis_function [[1]; [2]]%Q) inhabitant 0 0 sys_flat
  = insertInterfaceEdge (basis_function [[1]; [2]]%Q) inhabitant 5 0 sys_flat
  /\ rows_of (insertInterfaceEdge_writes sys_flat (basis_function [[1]; [2]]%Q) inhabitant 5 0)
     = [52; 52].
Proof.
  destruct rerouting_ignores_interface_id as (H & _).
  split.
  - apply (H sys_flat (basis_function [[1]; [2]]%Q) inhabitant 0%nat 5%nat 0);
      vm_compute; reflexivity.
  - vm_compute. reflexivity.
Defined.

(** ** The interior identity of [finalize] (C4) *)

Lemma foldl_writes {A : Type} (l : list A) (body : A -> gsG1System -> gsG1System)
    (w : gsG1System -> A -> list ((Z * Z) * Q)) (s : gsG1System) :
  (forall i s, body i s = set_D_sparse (apply_writes (w s i) (D_sparse s)) s) ->
  (forall i s M, w (set_D_sparse M s) i = w s i) ->
  foldl (fun s i => body i s) s l
  = set_D_sparse (apply_writes (flat_map (w s) l) (D_sparse s)) s.
Proof.
  intros Hbody Hw. revert s. induction l as [|a l IH]; intros s.
  - by destruct s.
  - simpl. rewrite IH, Hbody. simpl. rewrite apply_writes_app.
    change (set_D_sparse ?X (set_D_sparse ?M s)) with (set_D_sparse X s).
    do 2 f_equal. apply flat_map_ext. intros i. apply Hw.
Qed.

Lemma foldl_project {A S T : Type} (P : S -> T) (body : A -> S -> S)
    (body' : A -> T -> T) (l : list A) (s : S) :
  (forall i s, P (body i s) = body' i (P s)) ->
  P (foldl (fun s i => body i s) s l) = foldl (fun t i => body' i t) (P s) l.
Proof.
  intros H. revert s. induction l as [|a l IH]; intros s; [done|].
  simpl. by rewrite IH, H.
Qed.

Lemma snd_finalize_interior (mb : gsMultiBasis) (st : gsSparseMatrix * gsG1System) :
  (finalize_interior mb st).2 = finalize_D mb st.2.
Proof.
  unfold finalize_interior, finalize_D, for_each, for_range.
  apply foldl_project. intros np st1.
  apply foldl_project. intros j st2.
  apply foldl_project. intros i [B s']. reflexivity.
Qed.

Lemma finalize_D_spec (mb : gsMultiBasis) (s : gsG1System) :
  finalize_D mb s = set_D_sparse (apply_writes (finalize_writes s mb) (D_sparse s)) s.
Proof.
  unfold finalize_D, finalize_writes, for_each, for_range.
  apply (foldl_writes _ _
    (fun s np =>
       flat_map (fun j =>
         flat_map (fun i =>
           [((dim_G1_Dofs s + dim_G1_Bdy s + entry s 5 np
              + j * bsize (component (basis mb np) 0) + i,
              entry s 5 np + j * bsize (component (basis mb np) 0) + i), 1%Q)])
           (seqZ 2 (bsize (component (basis mb np) 0) - 2 - 2)))
         (seqZ 2 (bsize (component (basis mb np) 1) - 2 - 2)))); [|done].
  intros np s1.
  apply (foldl_writes _ _
    (fun s j =>
         flat_map (fun i =>
           [((dim_G1_Dofs s + dim_G1_Bdy s + entry s 5 np
              + j * bsize (component (basis mb np) 0) + i,
              entry s 5 np + j * bsize (component (basis mb np) 0) + i), 1%Q)])
           (seqZ 2 (bsize (component (basis mb np) 0) - 2 - 2)))); [|done].
  intros j s2.
  apply (foldl_writes _ _
    (fun s i =>
           [((dim_G1_Dofs s + dim_G1_Bdy s + entry s 5 np
              + j * bsize (component (basis mb np) 0) + i,
              entry s 5 np + j * bsize (component (basis mb np) 0) + i), 1%Q)]));
    [|done].
  intros i s3. reflexivity.
Qed.

(** [finalize] changes [D_sparse] by the interior insertions only and
    leaves tables and dimensions alone. *)
Lemma finalize_D_sparse (ops : EigenOps) (mp : gsMultiPatch) (mb : gsMultiBasis)
    (g1 : list Q) (s : gsG1System) :
  D_sparse (finalize ops mp mb g1 s) = apply_writes (finalize_writes s mb) (D_sparse s).
Proof.
  unfold finalize.
  match goal with
  | |- context [finalize_interior mb ?st] =>
      pose proof (snd_finalize_interior mb st) as H;
      destruct (finalize_interior mb st) as [B s'] eqn:E
  end.
  simpl in *. rewrite H, finalize_D_spec. reflexivity.
Qed.

Lemma elem_of_flat_map_seqZ {A : Type} (f : Z -> list A) (lo len : Z) (x : A) :
  x ∈ flat_map f (seqZ lo len) <-> exists i, lo <= i < lo + len /\ x ∈ f i.
Proof.
  rewrite list_elem_of_In, in_flat_map. split.
  - intros (i & Hi%list_elem_of_In%elem_of_seqZ & Hx%list_elem_of_In). by exists i.
  - intros (i & Hi & Hx). exists i. rewrite <- !list_elem_of_In.
    split; [by apply elem_of_seqZ|done].
Qed.

Lemma elem_of_finalize_writes (s : gsG1System) (mb : gsMultiBasis) (w : (Z * Z) * Q) :
  w ∈ finalize_writes s mb <->
  exists (np : nat) (i j : Z),
    (np < nBases mb)%nat
    /\ 2 <= i < bsize (component (basis mb np) 0) - 2
    /\ 2 <= j < bsize (component (basis mb np) 1) - 2
    /\ w = ((dim_G1_Dofs s + dim_G1_Bdy s
             + (entry s 5 np + j * bsize (component (basis mb np) 0) + i),
             entry s 5 np + j * bsize (component (basis mb np) 0) + i), 1%Q).
Proof.
  unfold finalize_writes. rewrite elem_of_flat_map_seq. split.
  - intros (np & Hnp & Hw). apply elem_of_flat_map_seqZ in Hw as (j & Hj & Hw).
    apply elem_of_flat_map_seqZ in Hw as (i & Hi & Hw).
    apply list_elem_of_singleton in Hw. subst w.
    exists np, i, j. repeat split; try lia. do 2 f_equal. lia.
  - intros (np & i & j & Hnp & Hi & Hj & ->). exists np. split; [done|].
    apply elem_of_flat_map_seqZ. exists j. split; [lia|].
    apply elem_of_flat_map_seqZ. exists i. split; [lia|].
    apply list_elem_of_singleton. do 2 f_equal. lia.
Qed.

Lemma new_gsG1System_well_shaped (mp : gsMultiPatch) (mb : list gsMultiBasis)
    (ikm : Z) (nb tp iso : bool) :
  well_shaped (new_gsG1System mp mb ikm nb tp iso).
Proof.
  unfold new_gsG1System. change (m_twoPatch (constructed nb tp iso)) with tp.
  destruct tp; [unfold initialize_twoPatch|unfold initialize]; cbv zeta;
    match goal with
    | |- well_shaped (set_dimensions ?x) => generalize x
    end; intros x; split; reflexivity.
Qed.

Lemma insertions_preserve_shape (s : gsG1System) :
  well_shaped s ->
  (forall mp item iID bfID, well_shaped (insertInterfaceEdge mp item iID bfID s))
  /\ (forall mp item bID bfID, well_shaped (insertBoundaryEdge mp item bID bfID s))
  /\ (forall mp patchIndex vID nDofs bfID,
        well_shaped (insertVertex mp patchIndex vID nDofs bfID s)).
Proof.
  intros [Hr Hc]. split; [|split]; intros; unfold well_shaped;
    rewrite ?insertInterfaceEdge_spec, ?insertBoundaryEdge_spec, ?insertVertex_spec;
    simpl;
    match goal with
    | |- context [apply_writes ?ws ?M] =>
        destruct (apply_writes_shape ws M) as [H1 H2]
    end; split; congruence.
Qed.

(** C4.  [finalize] sets [D[dim_G1_Dofs + dim_G1_Bdy + c, c] = 1] at exactly
    the strictly interior coefficient columns [c] (tensor indices
    [2 <= i < dim_u-2], [2 <= j < dim_v-2] of their patch) and changes no
    other entry of [D_sparse]; the entries lie on the diagonal of the
    trailing block of [D_sparse], the rows from [dim_G1_Dofs + dim_G1_Bdy]
    on, which is [dim_K] rows by [dim_K] columns; with tensor-product bases
    whose columns fit into [dim_K] they fall inside that block. *)
Theorem finalize_interior_identity (ops : EigenOps) (mp : gsMultiPatch)
    (mb : gsMultiBasis) (g1 : list Q) (s : gsG1System) :
  let D' := D_sparse (finalize ops mp mb g1 s) in
  (forall r c, interior_position s mb r c -> entries D' !! (r, c) = Some 1%Q)
  /\ (forall r c, ~ interior_position s mb r c ->
        entries D' !! (r, c) = entries (D_sparse s) !! (r, c))
  /\ (well_shaped s ->
      rows D' - (dim_G1_Dofs s + dim_G1_Bdy s) = dim_K s /\ cols D' = dim_K s)
  /\ (tensor_columns s mb ->
      forall r c, interior_position s mb r c ->
        0 <= c < dim_K s /\ r - (dim_G1_Dofs s + dim_G1_Bdy s) = c).
Proof.
  intros D'. unfold D'. rewrite finalize_D_sparse.
  split; [|split; [|split]].
  - intros r c (np & i & j & Hnp & Hi & Hj & -> & ->).
    destruct (lookup_apply_writes_in (finalize_writes s mb) (D_sparse s)
                (dim_G1_Dofs s + dim_G1_Bdy s
                 + (entry s 5 np + j * bsize (component (basis mb np) 0) + i),
                 entry s 5 np + j * bsize (component (basis mb np) 0) + i))
      as (v & Hv & Hl).
    + apply list_elem_of_fmap. eexists (_, 1%Q). split; [reflexivity|].
      apply elem_of_finalize_writes. by exists np, i, j.
    + rewrite Hl. f_equal.
      apply elem_of_finalize_writes in Hv as (? & ? & ? & _ & _ & _ & Hv). congruence.
  - intros r c Hnot. apply lookup_apply_writes_notin. intros Hin.
    apply list_elem_of_fmap in Hin as (w & Hk & Hw).
    apply elem_of_finalize_writes in Hw as (np & i & j & Hnp & Hi & Hj & ->).
    simpl in Hk. injection Hk as -> ->. apply Hnot. by exists np, i, j.
  - intros [Hr Hc].
    destruct (apply_writes_shape (finalize_writes s mb) (D_sparse s)) as [-> ->]. lia.
  - intros (Ht & Hs & Hk) r c (np & i & j & Hnp & Hi & Hj & -> & ->).
    split; [|lia].
    assert (mb !! np = Some (basis mb np)) as Hb
      by (apply list_lookup_lookup_total_lt; exact Hnp).
    rewrite Forall_lookup in Hs. destruct (Hs np _ Hb) as [Hsz Hpos].
    assert (nondecreasing (table s 5)) as Hmono.
    { rewrite Ht. apply offsets_nondecreasing. apply Forall_fmap.
      apply Forall_lookup. intros k b Hkb. by destruct (Hs k b Hkb). }
    assert (length (table s 5) = Datatypes.S (nBases mb)) as Hlen
      by (rewrite Ht, length_offsets, length_map; done).
    assert (entry s 5 (Datatypes.S np) = entry s 5 np + size (basis mb np)) as Hstep.
    { unfold entry. rewrite Ht, offsets_step by (rewrite length_map; exact Hnp).
      f_equal. apply list_lookup_total_correct. by rewrite list_lookup_fmap, Hb. }
    assert (0 <= entry s 5 np) as H0.
    { pose proof (Hmono 0%nat np ltac:(lia)) as H. unfold entry.
      rewrite Ht in H at 1. rewrite offsets_head in H. exact H. }
    assert (entry s 5 (Datatypes.S np) <= vlast (table s 5)) as Hlast.
    { unfold vlast. rewrite last_lookup, Hlen. simpl.
      pose proof (Hmono (Datatypes.S np) (nBases mb) ltac:(lia)) as H.
      unfold entry. rewrite (list_lookup_total_alt _ (nBases mb)) in H. exact H. }
    nia.
Qed.

Lemma finalize_interior_identity_witness :
  let mb := [tensor_basis 3 4; tensor_basis 3 4] in
  let D' := D_sparse (finalize stalling_ops (two_patch_domain flat_patch) mb [] sys_general) in
  entries D' !! (83, 16) = Some 1%Q
  /\ entries D' !! (67, 0) = entries (D_sparse sys_general) !! (67, 0)
  /\ (rows D' - (dim_G1_Dofs sys_general + dim_G1_Bdy sys_general) = dim_K sys_general
      /\ cols D' = dim_K sys_general)
  /\ (0 <= 16 < dim_K sys_general
      /\ 83 - (dim_G1_Dofs sys_general + dim_G1_Bdy sys_general) = 16).
Proof.
  intros mb D'.
  destruct (finalize_interior_identity stalling_ops (two_patch_domain flat_patch)
              mb [] sys_general) as (Hin & Hout & Hshape & Hblock).
  assert (interior_position sys_general mb 83 16) as Hpos.
  { exists 0%nat, 2, 2. split; [simpl; lia|]. split; [simpl; lia|].
    split; [simpl; lia|]. split; vm_compute; reflexivity. }
  split; [by apply Hin|]. split; [|split].
  - apply Hout. intros (np & i & j & Hnp & Hi & Hj & Hc & Hr).
    assert (dim_G1_Dofs sys_general + dim_G1_Bdy sys_general = 67) as E
      by (vm_compute; reflexivity).
    assert (0 <= entry sys_general 5 np).
    { destruct np as [|[|np]]; [vm_compute; congruence..|]. simpl in Hnp. lia. }
    assert (bsize (component (basis mb np) 0) = 7) as Eu.
    { destruct np as [|[|np]]; [reflexivity..|]. simpl in Hnp. lia. }
    rewrite Eu in *. lia.
  - apply Hshape. split; vm_compute; reflexivity.
  - apply Hblock; [|exact Hpos]. split; [vm_compute; reflexivity|]. split.
    + repeat constructor; vm_compute; congruence.
    + vm_compute. congruence.
Defined.

(** ** Disjoint rows and order independence (C7) *)

Lemma run_spec (c : call) (s : gsG1System) :
  run c s = set_D_sparse (apply_writes (writes_of s c) (D_sparse s)) s.
Proof.
  destruct c; simpl.
  - apply insertInterfaceEdge_spec.
  - apply insertBoundaryEdge_spec.
  - apply insertVertex_spec.
Qed.

Lemma writes_of_set_D_sparse (M : gsSparseMatrix) (s : gsG1System) (c : call) :
  writes_of (set_D_sparse M s) c = writes_of s c.
Proof. by destruct c. Qed.

(** The rows a call writes are among the rows it addresses. *)
Lemma written_rows_addressed (s : gsG1System) (c : call) (r : Z) :
  r ∈ rows_of (writes_of s c) -> r ∈ addressed_rows s c.
Proof.
  unfold rows_of. intros Hin. apply list_elem_of_fmap in Hin as (w & -> & Hw).
  destruct c as [mp item iID bfID|mp item bID bfID|mp pidx vID nDofs bfID]; simpl in *.
  - apply elem_of_flat_map_seq in Hw as (np & _ & Hw).
    apply elem_of_flat_map_seq in Hw as (j & _ & Hw).
    by apply elem_of_coef_writes in Hw as (r & Hr & _ & ->).
  - apply elem_of_flat_map_seq in Hw as (j & _ & Hw).
    by apply elem_of_coef_writes in Hw as (r & Hr & _ & ->).
  - apply elem_of_flat_map_seq in Hw as (np & _ & Hw).
    apply elem_of_flat_map_seq in Hw as (j & _ & Hw).
    by apply elem_of_coef_writes in Hw as (r & Hr & _ & ->).
Qed.

Lemma sparse_eq (A B : gsSparseMatrix) :
  rows A = rows B -> cols A = cols B -> entries A = entries B -> A = B.
Proof. destruct A, B. simpl. by intros -> -> ->. Qed.

(** The insertions as a union: later triplets take precedence. *)
Lemma entries_apply_writes (ws : list ((Z * Z) * Q)) (M : gsSparseMatrix) :
  entries (apply_writes ws M) = list_to_map (reverse ws) ∪ entries M.
Proof.
  revert M. induction ws as [|[[r c] v] ws IH]; intros M.
  - simpl. by rewrite (left_id_L ∅ (∪)).
  - simpl. rewrite IH. simpl. rewrite reverse_cons, list_to_map_app. simpl.
    rewrite <- (assoc_L (∪)). f_equal.
    rewrite insert_union_singleton_l, insert_empty. reflexivity.
Qed.

(** Insertions into disjoint sets of rows commute. *)
Lemma apply_writes_comm (w1 w2 : list ((Z * Z) * Q)) (M : gsSparseMatrix) :
  (forall r, r ∈ rows_of w1 -> r ∉ rows_of w2) ->
  apply_writes w2 (apply_writes w1 M) = apply_writes w1 (apply_writes w2 M).
Proof.
  intros Hdisj. apply sparse_eq.
  - destruct (apply_writes_shape w2 (apply_writes w1 M)) as [-> _].
    destruct (apply_writes_shape w1 (apply_writes w2 M)) as [-> _].
    destruct (apply_writes_shape w1 M) as [-> _].
    by destruct (apply_writes_shape w2 M) as [-> _].
  - destruct (apply_writes_shape w2 (apply_writes w1 M)) as [_ ->].
    destruct (apply_writes_shape w1 (apply_writes w2 M)) as [_ ->].
    destruct (apply_writes_shape w1 M) as [_ ->].
    by destruct (apply_writes_shape w2 M) as [_ ->].
  - rewrite !entries_apply_writes, !(assoc_L (∪)). f_equal.
    apply map_union_comm. apply map_disjoint_spec. intros [r c] v1 v2 H2 H1.
    apply elem_of_list_to_map_2 in H1, H2.
    rewrite elem_of_reverse in H1, H2.
    apply (Hdisj r); unfold rows_of; apply list_elem_of_fmap;
      [by exists ((r, c), v2) | by exists ((r, c), v1)].
Qed.

Lemma vlast_lookup (t : list Z) : vlast t = t !!! pred (length t).
Proof. unfold vlast. by rewrite last_lookup, list_lookup_total_alt. Qed.

Lemma first_le_last (t : list Z) :
  nondecreasing t -> (0 < length t)%nat -> t !!! 0%nat <= vlast t.
Proof.
  intros Hm Hl. rewrite vlast_lookup. apply Hm. lia.
Qed.

(** A row of a block lies between the first and the last value of its table. *)
Lemma block_within_table (s : gsG1System) (k e : nat) (r : Z) :
  nondecreasing (table s k) -> block_of s k e r ->
  entry s k 0 <= r < last_entry s k.
Proof.
  intros Hm [Hl [Hlo Hhi]]. unfold last_entry, entry in *.
  rewrite vlast_lookup.
  pose proof (Hm 0%nat e ltac:(lia)) as H1.
  pose proof (Hm (Datatypes.S e) (pred (length (table s k))) ltac:(lia)) as H2.
  lia.
Qed.

(** With non-decreasing chained tables, a row lies in at most one block. *)
Lemma blocks_disjoint (s : gsG1System) (k e k' e' : nat) (r : Z) :
  tables_ok s -> (k < 5)%nat -> (k' < 5)%nat ->
  block_of s k e r -> block_of s k' e' r -> k = k' /\ e = e'.
Proof.
  intros [Hm Hc] Hk Hk' B B'.
  destruct (decide (k = k')) as [<-|Hne].
  - split; [done|]. destruct (Hm k Hk) as [Hmono _].
    destruct B as [Hl [Hlo Hhi]], B' as [Hl' [Hlo' Hhi']]. unfold entry in *.
    destruct (decide (e < e')%nat) as [Hlt|Hge].
    + pose proof (Hmono (Datatypes.S e) e' ltac:(lia)). lia.
    + destruct (decide (e' < e)%nat) as [Hlt'|Hge']; [|lia].
      pose proof (Hmono (Datatypes.S e') e ltac:(lia)). lia.
  - exfalso.
    pose proof (block_within_table s k e r (proj1 (Hm k Hk)) B) as R.
    pose proof (block_within_table s k' e' r (proj1 (Hm k' Hk')) B') as R'.
    assert (forall j, (j < 5)%nat -> entry s j 0 <= last_entry s j) as Hfl.
    { intros j Hj. destruct (Hm j Hj). by apply first_le_last. }
    pose proof (Hfl 0%nat ltac:(lia)). pose proof (Hfl 1%nat ltac:(lia)).
    pose proof (Hfl 2%nat ltac:(lia)). pose proof (Hfl 3%nat ltac:(lia)).
    pose proof (Hfl 4%nat ltac:(lia)).
    pose proof (Hc 0%nat ltac:(lia)). pose proof (Hc 1%nat ltac:(lia)).
    pose proof (Hc 2%nat ltac:(lia)). pose proof (Hc 3%nat ltac:(lia)).
    do 5 (destruct k as [|k]; [do 5 (destruct k' as [|k']; [lia|]); lia|]). lia.
Qed.

Lemma entity_blocks_disjoint (s : gsG1System) (e1 e2 : entity) (r : Z) :
  tables_ok s -> in_blocks s e1 r -> in_blocks s e2 r -> e1 = e2.
Proof.
  intros Hok H1 H2.
  destruct e1, e2; simpl in *;
    repeat match goal with
           | H : _ \/ _ |- _ => destruct H
           end;
    match goal with
    | B : block_of s ?k _ r, B' : block_of s ?k' _ r |- _ =>
        destruct (blocks_disjoint s k _ k' _ r Hok ltac:(lia) ltac:(lia) B B')
    end; try discriminate; by subst.
Qed.

(** C7 (as amended).  Let the tables be non-decreasing and chained.  Two
    insertion calls whose addressed rows lie inside the row blocks of two
    distinct entities address, and write, disjoint sets of rows, and
    applying them in either order yields the same system, hence the same
    [D_sparse]. *)
Theorem disjoint_blocks_commute (s : gsG1System) (c1 c2 : call) (e1 e2 : entity) :
  tables_ok s -> e1 <> e2 ->
  rows_within s c1 e1 -> rows_within s c2 e2 ->
  (forall r, r ∈ addressed_rows s c1 -> r ∉ addressed_rows s c2)
  /\ (forall r, r ∈ rows_of (writes_of s c1) -> r ∉ rows_of (writes_of s c2))
  /\ run c2 (run c1 s) = run c1 (run c2 s).
Proof.
  intros Hok Hne H1 H2.
  assert (forall r, r ∈ addressed_rows s c1 -> r ∉ addressed_rows s c2) as Hdisj.
  { intros r Hr1 Hr2. apply Hne. unfold rows_within in *.
    rewrite Forall_forall in H1, H2.
    eapply entity_blocks_disjoint; eauto. }
  assert (forall r, r ∈ rows_of (writes_of s c1) -> r ∉ rows_of (writes_of s c2)) as Hw.
  { intros r Hr1 Hr2. apply (Hdisj r); by apply written_rows_addressed. }
  split; [exact Hdisj|]. split; [exact Hw|].
  rewrite !run_spec. simpl. rewrite !writes_of_set_D_sparse.
  change (set_D_sparse ?X (set_D_sparse ?M s)) with (set_D_sparse X s).
  f_equal. by apply apply_writes_comm.
Qed.

(** *** What the constructor leaves, entity by entity *)

Lemma chained_table_length (s : gsG1System) (cI cE cV cB cBV : list Z)
    (cols : list (list Z)) (k : nat) :
  numBasisFunctions s = chained_tables cI cE cV cB cBV ++ cols ->
  (k < 5)%nat ->
  length (table s k) = Datatypes.S (length ([cI; cE; cV; cB; cBV] !!! k)).
Proof.
  intros H Hk. rewrite (table_of_chained _ _ _ _ _ _ _ _ H Hk).
  destruct (chained_tables_offsets cI cE cV cB cBV k Hk) as [a ->].
  apply length_offsets.
Qed.

Lemma new_gsG1System_fields (mp : gsMultiPatch) (mb : list gsMultiBasis)
    (ikm : Z) (nb tp iso : bool) :
  let s := new_gsG1System mp mb ikm nb tp iso in
  m_twoPatch s = tp /\ m_neumannBdy s = nb
  /\ kindOfVertex s = map (vertex_kind mp) (seq 0 (length (vertices mp)))
  /\ sizePlusBdy s
     = map (fun b => to_size_t (if tp then bsize (bdy_basis_edge mp mb b) - 4
                                else gen_plus mp mb b))
         (seq 0 (length (boundaries mp)))
  /\ sizePlusInt s
     = map (fun i => if tp then tp_sizePlusInt mp mb ikm i else gen_sizePlusInt mp mb i)
         (seq 0 (length (interfaces mp)))
  /\ kink s = if tp then tp_kinks mp else [].
Proof.
  intros s. unfold s, new_gsG1System.
  change (m_twoPatch (constructed nb tp iso)) with tp. destruct tp.
  - destruct (initialize_twoPatch_closed mp mb ikm nb true iso)
      as (_ & Hk & Hi & Hb & Hv & Ht & Hn & _).
    repeat split; done.
  - destruct (initialize_closed mp mb nb false iso)
      as (_ & Hk & Hi & Hb & Hv & Ht & Hn & _).
    repeat split; done.
Qed.

Lemma new_gsG1System_blocks (mp : gsMultiPatch) (mb : list gsMultiBasis)
    (ikm : Z) (nb tp iso : bool) :
  let s := new_gsG1System mp mb ikm nb tp iso in
  (length (table s 0) = Datatypes.S (length (interfaces mp))
   /\ length (table s 1) = Datatypes.S (length (boundaries mp))
   /\ length (table s 2) = Datatypes.S (length (vertices mp))
   /\ length (table s 3) = Datatypes.S (length (boundaries mp))
   /\ length (table s 4) = Datatypes.S (length (vertices mp)))
  /\ (forall i, (i < length (interfaces mp))%nat ->
        block_size s 0 i = if tp then tp_interface_count mp mb ikm nb i
                           else gen_interface_count mp mb i)
  /\ (forall b, (b < length (boundaries mp))%nat ->
        block_size s 1 b = (if tp then tp_edge_count mp mb nb b
                            else gen_edge_count mp mb nb b)
        /\ block_size s 3 b = (if tp then tp_boundary_count mp mb nb b
                               else gen_boundary_count mp mb nb b))
  /\ (forall v, (v < length (vertices mp))%nat ->
        block_size s 2 v = (if tp then tp_vertex_count mp nb v else gen_vertex_count mp v)
        /\ block_size s 4 v = (if tp then tp_bdy_vertex_count mp nb (tp_kinks mp) v
                               else gen_bdy_vertex_count mp v)).
Proof.
  intros s. pose proof (new_gsG1System_tables mp mb ikm nb tp iso) as Ht. fold s in Ht.
  unfold block_size.
  destruct tp; unfold tp_tables, gen_tables in Ht.
  - split; [|split; [|split]].
    + repeat split;
        rewrite (chained_table_length s _ _ _ _ _ _ _ Ht) by lia; simpl;
        by rewrite length_map, length_seq.
    + intros i Hi. rewrite (chained_block_size s _ _ _ _ _ _ 0 i Ht)
        by (simpl; rewrite ?length_map, ?length_seq; lia).
      simpl. by rewrite map_seq_lookup_total.
    + intros b Hb. split.
      * rewrite (chained_block_size s _ _ _ _ _ _ 1 b Ht)
          by (simpl; rewrite ?length_map, ?length_seq; lia).
        simpl. by rewrite map_seq_lookup_total.
      * rewrite (chained_block_size s _ _ _ _ _ _ 3 b Ht)
          by (simpl; rewrite ?length_map, ?length_seq; lia).
        simpl. by rewrite map_seq_lookup_total.
    + intros v Hv. split.
      * rewrite (chained_block_size s _ _ _ _ _ _ 2 v Ht)
          by (simpl; rewrite ?length_map, ?length_seq; lia).
        simpl. by rewrite map_seq_lookup_total.
      * rewrite (chained_block_size s _ _ _ _ _ _ 4 v Ht)
          by (simpl; rewrite ?length_map, ?length_seq; lia).
        simpl. by rewrite map_seq_lookup_total.
  - split; [|split; [|split]].
    + repeat split;
        rewrite (chained_table_length s _ _ _ _ _ _ _ Ht) by lia; simpl;
        by rewrite length_map, length_seq.
    + intros i Hi. rewrite (chained_block_size s _ _ _ _ _ _ 0 i Ht)
        by (simpl; rewrite ?length_map, ?length_seq; lia).
      simpl. by rewrite map_seq_lookup_total.
    + intros b Hb. split.
      * rewrite (chained_block_size s _ _ _ _ _ _ 1 b Ht)
          by (simpl; rewrite ?length_map, ?length_seq; lia).
        simpl. by rewrite map_seq_lookup_total.
      * rewrite (chained_block_size s _ _ _ _ _ _ 3 b Ht)
          by (simpl; rewrite ?length_map, ?length_seq; lia).
        simpl. by rewrite map_seq_lookup_total.
    + intros v Hv. split.
      * rewrite (chained_block_size s _ _ _ _ _ _ 2 v Ht)
          by (simpl; rewrite ?length_map, ?length_seq; lia).
        simpl. by rewrite map_seq_lookup_total.
      * rewrite (chained_block_size s _ _ _ _ _ _ 4 v Ht)
          by (simpl; rewrite ?length_map, ?length_seq; lia).
        simpl. by rewrite map_seq_lookup_total.
Qed.

Lemma to_size_t_small (z : Z) : 0 <= z < 2 ^ 64 -> to_size_t z = z.
Proof. intros H. unfold to_size_t. by apply Z.mod_small. Qed.

Lemma to_index_t_small (z : Z) : 0 <= z < 2 ^ 63 -> to_index_t (to_size_t z) = z.
Proof.
  intros H. rewrite to_size_t_small by lia. unfold to_index_t.
  destruct (Z.ltb_spec z (2 ^ 63)); lia.
Qed.

Lemma nonneg_lookup (f : nat -> Z) (n i : nat) :
  nonneg (map f (seq 0 n)) -> (i < n)%nat -> 0 <= f i.
Proof.
  intros H Hi. unfold nonneg in H. rewrite Forall_lookup in H.
  apply (H i). rewrite list_lookup_fmap, lookup_seq_lt by done. reflexivity.
Qed.

Lemma vertex_kind_cases (mp : gsMultiPatch) (v : nat) :
  vertex_kind mp v = -1 \/ vertex_kind mp v = 0 \/ vertex_kind mp v = 1.
Proof.
  unfold vertex_kind.
  destruct (length (vertices mp !!! v) =? 1)%nat; [by left|].
  destruct (length (vertices mp !!! v) =? localInterfaces mp (vertices mp !!! v))%nat;
    [right; by left|right; by right].
Qed.

(** The routing of the insertion operations agrees with the allocation: on
    a new system with non-negative counts, an ordinal within the number of
    functions of its entity is sent to a row of that entity's own blocks,
    in every branch that does not reroute. *)
Lemma routing_respects_blocks (mp : gsMultiPatch) (mb : list gsMultiBasis)
    (ikm : Z) (nb tp iso : bool) :
  counts_nonneg mp mb ikm nb tp ->
  let s := new_gsG1System mp mb ikm nb tp iso in
  (forall fmp item i bf,
      tp && negb nb = false -> (i < length (interfaces mp))%nat ->
      0 <= bf < block_size s 0 i ->
      rows_within s (InsertInterfaceEdge fmp item i bf) (Interface i))
  /\ (forall fmp item b bf,
      (b < length (boundaries mp))%nat ->
      (if tp then bsize (bdy_basis_edge mp mb b) - 4 else gen_plus mp mb b) < 2 ^ 64 ->
      0 <= bf < block_size s 3 b + block_size s 1 b ->
      rows_within s (InsertBoundaryEdge fmp item b bf) (BoundarySide b))
  /\ (forall fmp pidx v bf,
      (v < length (vertices mp))%nat ->
      0 <= bf < block_size s 2 v + block_size s 4 v ->
      rows_within s (InsertVertex fmp pidx v (block_size s 2 v) bf) (Vertex v)).
Proof.
  intros Hc s.
  destruct (new_gsG1System_fields mp mb ikm nb tp iso) as (Ftp & Fnb & Fkov & Fspb & _).
  destruct (new_gsG1System_blocks mp mb ikm nb tp iso)
    as ((L0 & L1 & L2 & L3 & L4) & BI & BB & BV).
  fold s in Ftp, Fnb, Fkov, Fspb, L0, L1, L2, L3, L4, BI, BB, BV.
  split; [|split].
  - intros fmp item i bf Hmode Hi Hbf. unfold rows_within. simpl.
    unfold interface_rows. rewrite Ftp, Fnb, Hmode.
    constructor; [|constructor]. simpl. unfold block_of, block_size in *.
    split; lia.
  - intros fmp item b bf Hb Hsz Hbf. unfold rows_within. simpl.
    constructor; [|constructor]. simpl.
    destruct (BB b Hb) as [E1 E3].
    assert (sizePlusBdy s !!! b
            = to_size_t (if tp then bsize (bdy_basis_edge mp mb b) - 4
                         else gen_plus mp mb b)) as EP
      by (rewrite Fspb; by rewrite (map_seq_lookup_total _ _ _ Hb)).
    unfold boundary_row. rewrite Ftp, Fnb, EP.
    unfold block_of, block_size in *. rewrite L1, L3.
    unfold counts_nonneg in Hc.
    destruct tp, nb; simpl in *; destruct Hc as (_ & HE & HB);
      pose proof (nonneg_lookup _ _ b HE Hb) as HE';
      pose proof (nonneg_lookup _ _ b HB Hb) as HB'; simpl in HE', HB';
      unfold tp_edge_count, tp_boundary_count, gen_edge_count, gen_boundary_count in *.
    + right. split; lia.
    + rewrite to_size_t_small by lia.
      destruct (Z.ltb_spec bf (bsize (bdy_basis_edge mp mb b) - 4));
        [right|left]; split; lia.
    + right. split; lia.
    + rewrite (to_size_t_small (gen_plus mp mb b)) by lia.
      rewrite to_size_t_small by lia.
      destruct (Z.ltb_spec bf (gen_plus mp mb b - 6)); [right|left]; split; lia.
  - intros fmp pidx v bf Hv Hbf. unfold rows_within. simpl.
    constructor; [|constructor]. simpl.
    destruct (BV v Hv) as [E2 E4].
    assert (kindOfVertex s !!! v = vertex_kind mp v) as EK
      by (rewrite Fkov; by rewrite (map_seq_lookup_total _ _ _ Hv)).
    unfold vertex_row. rewrite EK.
    assert (vertex_kind mp v = 0 -> block_size s 4 v = 0) as Hint.
    { intros E0. rewrite E4. unfold tp_bdy_vertex_count, gen_bdy_vertex_count.
      rewrite E0. by destruct tp. }
    unfold block_of, block_size in *. rewrite L2, L4.
    destruct (vertex_kind_cases mp v) as [K|[K|K]]; rewrite K; simpl.
    + destruct (Z.ltb_spec bf (entry s 2 (Datatypes.S v) - entry s 2 v));
        [left|right]; split; lia.
    + specialize (Hint K). left. split; lia.
    + destruct (Z.ltb_spec bf (entry s 2 (Datatypes.S v) - entry s 2 v));
        [left|right]; split; lia.
Qed.

(** The rows of a rerouted ordinal all lie in the first [2 + kink[0]] rows
    from [numBasisFunctions[4][1]] or all in the first [2 + kink[1]] rows
    from [numBasisFunctions[4][3]], as soon as the plus space has 3
    functions. *)
Lemma rerouted_rows_split (s : gsG1System) (i : nat) (bf : Z) :
  m_twoPatch s = true -> m_neumannBdy s = false -> is_rerouted s bf = true ->
  3 <= plusInt_of s ->
  Forall (fun r => entry s 4 1 <= r < entry s 4 1 + 2 + b2z (kink_at s 0))
    (interface_rows s i bf)
  \/ Forall (fun r => entry s 4 3 <= r < entry s 4 3 + 2 + b2z (kink_at s 1))
       (interface_rows s i bf).
Proof.
  intros Htp Hnb. unfold interface_rows, is_rerouted, is_endpoint.
  rewrite Htp, Hnb. simpl.
  generalize (plusInt_of s) (kink_at s 0) (kink_at s 1) (entry s 4 1) (entry s 4 3)
    (entry s 0 i).
  clear. intros P k0 k1 a b c Hr HP. unfold b2z.
  repeat match goal with
         | H : context [Z.eqb ?x ?y] |- _ =>
             destruct (Z.eqb_spec x y); [subst|]; try lia
         end;
    simpl in Hr; try discriminate;
    destruct k0, k1; simpl in *; try discriminate;
    first [ left; apply Forall_singleton; lia
          | right; apply Forall_singleton; lia ].
Qed.

(** In two-patch non-Neumann mode, with [X] the plus-space size of
    interface 0: the ordinals [0 .. 2X-2] that are not rerouted are sent to
    rows of the block of interface 0, and the rerouted ones to rows of the
    boundary-vertex block of vertex 1 or of vertex 3. *)
Lemma two_patch_routing (mp : gsMultiPatch) (mb : list gsMultiBasis)
    (ikm : Z) (iso : bool) :
  counts_nonneg mp mb ikm false true -> interfaces mp <> [] ->
  let s := new_gsG1System mp mb ikm false true iso in
  let X := (tp_m_p mp mb 0 - tp_m_r mp mb 0 - 1) * (tp_m_n mp mb 0 - 1)
           + tp_m_p mp mb 0 + 1 + tp_numInnerKnot mp mb ikm 0 in
  0 <= X < 2 ^ 63 ->
  plusInt_of s = X
  /\ (forall fmp item bf,
        is_rerouted s bf = false -> 0 <= bf <= 2 * X - 2 ->
        rows_within s (InsertInterfaceEdge fmp item 0 bf) (Interface 0))
  /\ ((3 < length (vertices mp))%nat -> vertex_kind mp 1 = 1 -> vertex_kind mp 3 = 1 ->
      forall fmp item i bf,
        is_rerouted s bf = true ->
        rows_within s (InsertInterfaceEdge fmp item i bf) (Vertex 1)
        \/ rows_within s (InsertInterfaceEdge fmp item i bf) (Vertex 3)).
Proof.
  intros Hc Hint s X HX.
  destruct (new_gsG1System_fields mp mb ikm false true iso)
    as (Ftp & Fnb & _ & _ & Fspi & Fk).
  destruct (new_gsG1System_blocks mp mb ikm false true iso)
    as ((L0 & L1 & L2 & L3 & L4) & BI & BB & BV).
  fold s in Ftp, Fnb, Fspi, Fk, L0, L1, L2, L3, L4, BI, BB, BV.
  assert (0 < length (interfaces mp))%nat as Hn
    by (destruct (interfaces mp); [done|simpl; lia]).
  destruct (tp_kinks_lookup mp Hint) as [Hk0 Hk1].
  assert (kink_at s 0 = tp_kink0 mp) as E0 by (unfold kink_at; by rewrite Fk).
  assert (kink_at s 1 = tp_kink1 mp) as E1 by (unfold kink_at; by rewrite Fk).
  assert (plusInt_of s = X) as EP.
  { unfold plusInt_of. rewrite Fspi, (map_seq_lookup_total _ _ _ Hn).
    unfold tp_sizePlusInt. fold X. by apply to_index_t_small. }
  pose proof (BI 0%nat Hn) as B0. simpl in B0.
  assert (block_size s 0 0 = 2 * X - 5 - b2z (tp_kink0 mp) - b2z (tp_kink1 mp)) as B0'.
  { rewrite B0. unfold tp_interface_count, tp_numIntBdy, raw_count, X. lia. }
  assert (0 <= block_size s 0 0) as Hpos.
  { rewrite B0. destruct Hc as (HI & _). apply (nonneg_lookup _ _ 0%nat HI Hn). }
  split; [exact EP|]. split.
  - intros fmp item bf Hr Hbf. unfold rows_within. simpl.
    rewrite (not_rerouted_rows s 0 bf Ftp Fnb Hr).
    unfold is_rerouted, is_endpoint in Hr. rewrite EP, E0, E1 in *.
    apply orb_false_iff in Hr as [Hr H2]. apply orb_false_iff in Hr as [H0 H1].
    repeat (apply orb_false_iff in H0 as [H0 ?]).
    constructor; [|constructor]. simpl. unfold block_of, block_size in *.
    rewrite L0. split; [lia|].
    unfold b2z in *.
    destruct (tp_kink0 mp), (tp_kink1 mp); simpl in *;
      rewrite ?andb_true_r, ?andb_false_r in *;
      repeat match goal with
             | H : (_ =? _) = false |- _ => apply Z.eqb_neq in H
             end;
      match goal with
      | |- context [?a <? ?b] => destruct (Z.ltb_spec a b)
      end; lia.
  - intros Hv3 K1 K3 fmp item i bf Hr.
    destruct (BV 1%nat ltac:(lia)) as [_ V1]. destruct (BV 3%nat ltac:(lia)) as [_ V3].
    simpl in V1, V3. unfold tp_bdy_vertex_count, kink_of_vertex in V1, V3.
    rewrite K1 in V1. rewrite K3 in V3. simpl in V1, V3.
    rewrite Hk0 in V1. rewrite Hk1 in V3. rewrite <- E0 in V1. rewrite <- E1 in V3.
    assert (3 <= plusInt_of s) as HP.
    { rewrite EP. unfold b2z in B0'. destruct (tp_kink0 mp), (tp_kink1 mp); lia. }
    unfold rows_within. simpl.
    destruct (rerouted_rows_split s i bf Ftp Fnb Hr HP) as [H|H]; [left|right];
      (eapply Forall_impl; [exact H|]); intros r Hrow; simpl; right;
      unfold block_of, block_size in *; rewrite L4; split; lia.
Qed.

Lemma disjoint_blocks_commute_witness :
  let c1 := InsertInterfaceEdge (basis_function [[1]; [2]]%Q)
              {| first := {| ps_patch := 0; m_index := 2 |};
                 second := {| ps_patch := 1; m_index := 1 |} |} 0 0 in
  let c2 := InsertVertex (basis_function [[3]; [4]]%Q) [0%nat; 1%nat] 1 3 4 in
  (forall r, r ∈ addressed_rows sys_general c1 -> r ∉ addressed_rows sys_general c2)
  /\ (forall r, r ∈ rows_of (writes_of sys_general c1) ->
                r ∉ rows_of (writes_of sys_general c2))
  /\ run c2 (run c1 sys_general) = run c1 (run c2 sys_general).
Proof.
  intros c1 c2.
  assert (counts_nonneg (two_patch_domain flat_patch) (two_patch_bases 3 4) 0 false false)
    as Hc by (vm_compute; repeat split; repeat constructor; discriminate).
  destruct (routing_respects_blocks (two_patch_domain flat_patch) (two_patch_bases 3 4)
              0 false false true Hc) as (RI & _ & RV).
  apply (disjoint_blocks_commute sys_general c1 c2 (Interface 0) (Vertex 1)).
  - by apply new_gsG1System_tables_ok.
  - discriminate.
  - apply RI; [reflexivity|simpl; lia|vm_compute; split; [discriminate|reflexivity]].
  - apply (RV (basis_function [[3]; [4]]%Q) [0%nat; 1%nat] 1%nat 4);
      [simpl; lia|vm_compute; split; [discriminate|reflexivity]].
Defined.

(** C7 fails as stated.  In two-patch mode the first plus-space function of
    the interface (ordinal 0) is rerouted to the first boundary-vertex row
    of vertex 1, the row [insertVertex] uses for the first boundary function
    of vertex 1: two calls addressed to distinct entities write the same row
    (and here the same column), and the entry that [D_sparse] ends up with
    depends on the order of the calls. *)
Lemma rerouted_row_collides_with_vertex :
  let c1 := InsertInterfaceEdge (basis_function [[1]; []]%Q)
              {| first := {| ps_patch := 0; m_index := 2 |};
                 second := {| ps_patch := 1; m_index := 1 |} |} 0 0 in
  let c2 := InsertVertex (basis_function [[2]]%Q) [0%nat] 1 0 0 in
  entity_of c1 <> entity_of c2
  /\ rows_of (writes_of sys_flat c1) = [52]
  /\ rows_of (writes_of sys_flat c2) = [52]
  /\ entries (D_sparse (run c2 (run c1 sys_flat))) !! (52, 0) = Some 2%Q
  /\ entries (D_sparse (run c1 (run c2 sys_flat))) !! (52, 0) = Some 1%Q
  /\ run c2 (run c1 sys_flat) <> run c1 (run c2 sys_flat).
Proof.
  intros c1 c2.
  assert (entries (D_sparse (run c2 (run c1 sys_flat))) !! (52, 0) = Some 2%Q) as H21
    by (vm_compute; reflexivity).
  assert (entries (D_sparse (run c1 (run c2 sys_flat))) !! (52, 0) = Some 1%Q) as H12
    by (vm_compute; reflexivity).
  split; [discriminate|]. split; [vm_compute; reflexivity|].
  split; [vm_compute; reflexivity|]. split; [exact H21|]. split; [exact H12|].
  intros E. rewrite E, H12 in H21. clear E. discriminate H21.
Qed.

(** * Further properties of the routing, the dimensions and the reducer *)

(** ** Routing within one entity *)

(** The row of an in-range ordinal of a boundary side, in every mode: the
    boundary-edge block first, the edge block after it. *)
Lemma boundary_row_formula (mp : gsMultiPatch) (mb : list gsMultiBasis)
    (ikm : Z) (nb tp iso : bool) (b : nat) (bf : Z) :
  counts_nonneg mp mb ikm nb tp ->
  let s := new_gsG1System mp mb ikm nb tp iso in
  (b < length (boundaries mp))%nat ->
  (if tp then bsize (bdy_basis_edge mp mb b) - 4 else gen_plus mp mb b) < 2 ^ 64 ->
  0 <= bf < block_size s 3 b + block_size s 1 b ->
  boundary_row s b bf
  = if bf <? block_size s 3 b then entry s 3 b + bf
    else entry s 1 b + (bf - block_size s 3 b).
Proof.
  intros Hc s Hb Hsz Hbf.
  destruct (new_gsG1System_fields mp mb ikm nb tp iso) as (Ftp & Fnb & _ & Fspb & _).
  destruct (new_gsG1System_blocks mp mb ikm nb tp iso) as (_ & _ & BB & _).
  fold s in Ftp, Fnb, Fspb, BB.
  destruct (BB b Hb) as [E1 E3].
  assert (sizePlusBdy s !!! b
          = to_size_t (if tp then bsize (bdy_basis_edge mp mb b) - 4
                       else gen_plus mp mb b)) as EP
    by (rewrite Fspb; by rewrite (map_seq_lookup_total _ _ _ Hb)).
  unfold boundary_row. rewrite Ftp, Fnb, EP. rewrite E1, E3 in Hbf. rewrite E3.
  unfold counts_nonneg in Hc.
  destruct tp, nb; simpl in *; destruct Hc as (_ & HE & HB);
    pose proof (nonneg_lookup _ _ b HE Hb) as HE';
    pose proof (nonneg_lookup _ _ b HB Hb) as HB'; simpl in HE', HB';
    unfold tp_edge_count, tp_boundary_count, gen_edge_count, gen_boundary_count in *.
  - destruct (Z.ltb_spec bf (2 * bsize (bdy_basis_edge mp mb b) - 8)); lia.
  - rewrite to_size_t_small by lia.
    destruct (Z.ltb_spec bf (bsize (bdy_basis_edge mp mb b) - 4)); lia.
  - destruct (Z.ltb_spec bf (2 * gen_plus mp mb b - 1 - 10)); lia.
  - rewrite (to_size_t_small (gen_plus mp mb b)) by lia.
    rewrite to_size_t_small by lia.
    destruct (Z.ltb_spec bf (gen_plus mp mb b - 6)); lia.
Qed.

(** The row of an in-range ordinal of a vertex, when the caller passes the
    number of vertex functions as [nDofs]. *)
Lemma vertex_row_formula (mp : gsMultiPatch) (mb : list gsMultiBasis)
    (ikm : Z) (nb tp iso : bool) (v : nat) (bf : Z) :
  let s := new_gsG1System mp mb ikm nb tp iso in
  (v < length (vertices mp))%nat ->
  0 <= bf < block_size s 2 v + block_size s 4 v ->
  vertex_row s v (block_size s 2 v) bf
  = if bf <? block_size s 2 v then entry s 2 v + bf
    else entry s 4 v + (bf - block_size s 2 v).
Proof.
  intros s Hv Hbf.
  destruct (new_gsG1System_fields mp mb ikm nb tp iso) as (_ & _ & Fkov & _).
  destruct (new_gsG1System_blocks mp mb ikm nb tp iso) as (_ & _ & _ & BV).
  fold s in Fkov, BV. destruct (BV v Hv) as [E2 E4].
  assert (kindOfVertex s !!! v = vertex_kind mp v) as EK
    by (rewrite Fkov; by rewrite (map_seq_lookup_total _ _ _ Hv)).
  assert (vertex_kind mp v = 0 -> block_size s 4 v = 0) as Hint.
  { intros E0. rewrite E4. unfold tp_bdy_vertex_count, gen_bdy_vertex_count.
    rewrite E0. by destruct tp. }
  unfold vertex_row. rewrite EK.
  destruct (vertex_kind_cases mp v) as [K|[K|K]]; rewrite K; simpl.
  - destruct (Z.ltb_spec bf (block_size s 2 v)); lia.
  - specialize (Hint K). destruct (Z.ltb_spec bf (block_size s 2 v)); lia.
  - destruct (Z.ltb_spec bf (block_size s 2 v)); lia.
Qed.

(** X1.  On a new system with non-negative counts, [insertBoundaryEdge]
    sends every ordinal below the number of functions of the side
    (boundary-edge plus edge functions) to a row of the side's own two
    blocks, the boundary-edge block first, and two different ordinals to two
    different rows. *)
Theorem boundary_ordinals_get_own_rows (mp : gsMultiPatch) (mb : list gsMultiBasis)
    (ikm : Z) (nb tp iso : bool) (b : nat) (bf bf' : Z) :
  counts_nonneg mp mb ikm nb tp ->
  let s := new_gsG1System mp mb ikm nb tp iso in
  (b < length (boundaries mp))%nat ->
  (if tp then bsize (bdy_basis_edge mp mb b) - 4 else gen_plus mp mb b) < 2 ^ 64 ->
  0 <= bf < block_size s 3 b + block_size s 1 b ->
  0 <= bf' < block_size s 3 b + block_size s 1 b ->
  (if bf <? block_size s 3 b
   then block_of s 3 b (boundary_row s b bf)
        /\ boundary_row s b bf = entry s 3 b + bf
   else block_of s 1 b (boundary_row s b bf)
        /\ boundary_row s b bf = entry s 1 b + (bf - block_size s 3 b))
  /\ (boundary_row s b bf = boundary_row s b bf' -> bf = bf').
Proof.
  intros Hc s Hb Hsz Hbf Hbf'.
  pose proof (boundary_row_formula mp mb ikm nb tp iso b bf Hc Hb Hsz Hbf) as F.
  pose proof (boundary_row_formula mp mb ikm nb tp iso b bf' Hc Hb Hsz Hbf') as F'.
  fold s in F, F'.
  destruct (new_gsG1System_blocks mp mb ikm nb tp iso)
    as ((_ & L1 & _ & L3 & _) & _).
  fold s in L1, L3.
  pose proof (new_gsG1System_tables_ok mp mb ikm nb tp iso Hc) as Hok. fold s in Hok.
  assert (forall x, 0 <= x < block_size s 3 b + block_size s 1 b ->
            if x <? block_size s 3 b
            then block_of s 3 b (entry s 3 b + x)
            else block_of s 1 b (entry s 1 b + (x - block_size s 3 b))) as Hblk.
  { intros x Hx. unfold block_of, block_size in *. rewrite L1, L3.
    destruct (Z.ltb_spec x (entry s 3 (Datatypes.S b) - entry s 3 b)); split; lia. }
  pose proof (Hblk bf Hbf) as B. pose proof (Hblk bf' Hbf') as B'.
  rewrite F, F'. split.
  - destruct (bf <? block_size s 3 b); by split.
  - destruct (Z.ltb_spec bf (block_size s 3 b)), (Z.ltb_spec bf' (block_size s 3 b));
      intros E; try lia.
    + rewrite E in B.
      destruct (blocks_disjoint s 3 b 1 b _ Hok ltac:(lia) ltac:(lia) B B'). lia.
    + rewrite E in B.
      destruct (blocks_disjoint s 1 b 3 b _ Hok ltac:(lia) ltac:(lia) B B'). lia.
Qed.

Lemma boundary_ordinals_get_own_rows_witness :
  (block_of sys_general 3 2 (boundary_row sys_general 2 0)
   /\ boundary_row sys_general 2 0 = entry sys_general 3 2 + 0)
  /\ (boundary_row sys_general 2 0 = boundary_row sys_general 2 1 -> 0 = 1).
Proof.
  assert (counts_nonneg (two_patch_domain flat_patch) (two_patch_bases 3 4) 0 false false)
    as Hc by (vm_compute; repeat split; repeat constructor; discriminate).
  apply (boundary_ordinals_get_own_rows (two_patch_domain flat_patch)
           (two_patch_bases 3 4) 0 false false true 2 0 1 Hc).
  - simpl. lia.
  - vm_compute. reflexivity.
  - vm_compute. split; [discriminate|reflexivity].
  - vm_compute. split; [discriminate|reflexivity].
Defined.

(** X2.  On a new system, [insertVertex] called with [nDofs] equal to the
    number of vertex functions of the vertex sends every ordinal below the
    number of functions of the vertex (vertex plus boundary-vertex
    functions) to a row of the vertex's own two blocks, the vertex block
    first, and two different ordinals to two different rows. *)
Theorem vertex_ordinals_get_own_rows (mp : gsMultiPatch) (mb : list gsMultiBasis)
    (ikm : Z) (nb tp iso : bool) (v : nat) (bf bf' : Z) :
  counts_nonneg mp mb ikm nb tp ->
  let s := new_gsG1System mp mb ikm nb tp iso in
  (v < length (vertices mp))%nat ->
  0 <= bf < block_size s 2 v + block_size s 4 v ->
  0 <= bf' < block_size s 2 v + block_size s 4 v ->
  (if bf <? block_size s 2 v
   then block_of s 2 v (vertex_row s v (block_size s 2 v) bf)
        /\ vertex_row s v (block_size s 2 v) bf = entry s 2 v + bf
   else block_of s 4 v (vertex_row s v (block_size s 2 v) bf)
        /\ vertex_row s v (block_size s 2 v) bf
           = entry s 4 v + (bf - block_size s 2 v))
  /\ (vertex_row s v (block_size s 2 v) bf = vertex_row s v (block_size s 2 v) bf'
      -> bf = bf').
Proof.
  intros Hc s Hv Hbf Hbf'.
  pose proof (vertex_row_formula mp mb ikm nb tp iso v bf Hv Hbf) as F.
  pose proof (vertex_row_formula mp mb ikm nb tp iso v bf' Hv Hbf') as F'.
  fold s in F, F'.
  destruct (new_gsG1System_blocks mp mb ikm nb tp iso)
    as ((_ & _ & L2 & _ & L4) & _).
  fold s in L2, L4.
  pose proof (new_gsG1System_tables_ok mp mb ikm nb tp iso Hc) as Hok. fold s in Hok.
  assert (forall x, 0 <= x < block_size s 2 v + block_size s 4 v ->
            if x <? block_size s 2 v
            then block_of s 2 v (entry s 2 v + x)
            else block_of s 4 v (entry s 4 v + (x - block_size s 2 v))) as Hblk.
  { intros x Hx. unfold block_of, block_size in *. rewrite L2, L4.
    destruct (Z.ltb_spec x (entry s 2 (Datatypes.S v) - entry s 2 v)); split; lia. }
  pose proof (Hblk bf Hbf) as B. pose proof (Hblk bf' Hbf') as B'.
  rewrite F, F'. split.
  - destruct (bf <? block_size s 2 v); by split.
  - destruct (Z.ltb_spec bf (block_size s 2 v)), (Z.ltb_spec bf' (block_size s 2 v));
      intros E; try lia.
    + rewrite E in B.
      destruct (blocks_disjoint s 2 v 4 v _ Hok ltac:(lia) ltac:(lia) B B'). lia.
    + rewrite E in B.
      destruct (blocks_disjoint s 4 v 2 v _ Hok ltac:(lia) ltac:(lia) B B'). lia.
Qed.

Lemma vertex_ordinals_get_own_rows_witness :
  (block_of sys_general 4 1 (vertex_row sys_general 1 (block_size sys_general 2 1) 4)
   /\ vertex_row sys_general 1 (block_size sys_general 2 1) 4
      = entry sys_general 4 1 + (4 - block_size sys_general 2 1))
  /\ (vertex_row sys_general 1 (block_size sys_general 2 1) 4
      = vertex_row sys_general 1 (block_size sys_general 2 1) 2 -> 4 = 2).
Proof.
  assert (counts_nonneg (two_patch_domain flat_patch) (two_patch_bases 3 4) 0 false false)
    as Hc by (vm_compute; repeat split; repeat constructor; discriminate).
  apply (vertex_ordinals_get_own_rows (two_patch_domain flat_patch)
           (two_patch_bases 3 4) 0 false false true 1 4 2 Hc).
  - simpl. lia.
  - vm_compute. split; [discriminate|reflexivity].
  - vm_compute. split; [discriminate|reflexivity].
Defined.

Lemma new_gsG1System_block_order (mp : gsMultiPatch) (mb : list gsMultiBasis)
    (ikm : Z) (nb tp iso : bool) :
  counts_nonneg mp mb ikm nb tp ->
  let s := new_gsG1System mp mb ikm nb tp iso in
  (forall k i j, (k < 5)%nat -> (i <= j < length (table s k))%nat ->
     entry s k i <= entry s k j)
  /\ (forall k k' i j, (k < k' < 5)%nat ->
        (i < length (table s k))%nat -> (j < length (table s k'))%nat ->
        entry s k i <= entry s k' j).
Proof.
  intros Hc s.
  destruct (new_gsG1System_tables_ok mp mb ikm nb tp iso Hc) as [Hm Hch]. fold s in Hm, Hch.
  assert (forall k i j, (k < 5)%nat -> (i <= j < length (table s k))%nat ->
            entry s k i <= entry s k j) as Hmono.
  { intros k i j Hk Hij. destruct (Hm k Hk) as [Hn _]. by apply Hn. }
  split; [exact Hmono|].
  assert (forall k i, (k < 5)%nat -> (i < length (table s k))%nat ->
            entry s k 0 <= entry s k i <= last_entry s k) as Hfl.
  { intros k i Hk Hi. unfold last_entry. rewrite vlast_lookup. split.
    - apply Hmono; [done|lia].
    - apply Hmono; [done|lia]. }
  assert (forall k, (k < 5)%nat -> entry s k 0 <= last_entry s k) as Hfl0.
  { intros k Hk. destruct (Hm k Hk) as [_ Hl]. apply (Hfl k 0%nat Hk Hl). }
  intros k k' i j Hkk Hi Hj.
  pose proof (Hfl k i ltac:(lia) Hi). pose proof (Hfl k' j ltac:(lia) Hj).
  pose proof (Hfl0 0%nat ltac:(lia)). pose proof (Hfl0 1%nat ltac:(lia)).
  pose proof (Hfl0 2%nat ltac:(lia)). pose proof (Hfl0 3%nat ltac:(lia)).
  pose proof (Hfl0 4%nat ltac:(lia)).
  pose proof (Hch 0%nat ltac:(lia)). pose proof (Hch 1%nat ltac:(lia)).
  pose proof (Hch 2%nat ltac:(lia)). pose proof (Hch 3%nat ltac:(lia)).
  do 5 (destruct k as [|k]; [do 5 (destruct k' as [|k']; [lia|]); lia|]). lia.
Qed.

(** X3.  In two-patch non-Neumann mode, with [X >= 0] the plus-space size of
    interface 0 and vertices 1 and 3 the interface-boundary vertices: each
    of the [2X - 1] ordinals of the interface is written into exactly one
    row; two different ordinals are written into two different rows; an
    ordinal that is not rerouted lands in the block of the interface, a
    rerouted one in the boundary-vertex block of vertex 1 or of vertex 3. *)
Theorem two_patch_interface_ordinals_get_own_rows (mp : gsMultiPatch)
    (mb : list gsMultiBasis) (ikm : Z) (iso : bool) (bf bf' : Z) :
  counts_nonneg mp mb ikm false true -> interfaces mp <> [] ->
  let s := new_gsG1System mp mb ikm false true iso in
  let X := (tp_m_p mp mb 0 - tp_m_r mp mb 0 - 1) * (tp_m_n mp mb 0 - 1)
           + tp_m_p mp mb 0 + 1 + tp_numInnerKnot mp mb ikm 0 in
  0 <= X < 2 ^ 63 ->
  (3 < length (vertices mp))%nat -> vertex_kind mp 1 = 1 -> vertex_kind mp 3 = 1 ->
  0 <= bf <= 2 * X - 2 -> 0 <= bf' <= 2 * X - 2 -> bf <> bf' ->
  exists r r',
    interface_rows s 0 bf = [r] /\ interface_rows s 0 bf' = [r'] /\ r <> r'
    /\ (is_rerouted s bf = false -> block_of s 0 0 r)
    /\ (is_rerouted s bf = true -> block_of s 4 1 r \/ block_of s 4 3 r).
Proof.
  intros Hc Hint s X HX Hv3 K1 K3 Hbf Hbf' Hne.
  destruct (new_gsG1System_fields mp mb ikm false true iso) as (Ftp & Fnb & _).
  destruct (new_gsG1System_blocks mp mb ikm false true iso)
    as ((L0 & _ & _ & _ & L4) & BI & _ & BV).
  destruct (two_patch_routing mp mb ikm iso Hc Hint HX) as (EP & _).
  destruct (new_gsG1System_block_order mp mb ikm false true iso Hc) as [Hmono Hcross].
  fold s in Ftp, Fnb, L0, L4, BI, BV, EP, Hmono, Hcross.
  assert (0 < length (interfaces mp))%nat as Hn
    by (destruct (interfaces mp); [done|simpl; lia]).
  destruct (new_gsG1System_fields mp mb ikm false true iso) as (_ & _ & _ & _ & _ & Fk).
  fold s in Fk. destruct (tp_kinks_lookup mp Hint) as [Hk0 Hk1].
  assert (kink_at s 0 = tp_kink0 mp) as E0 by (unfold kink_at; by rewrite Fk).
  assert (kink_at s 1 = tp_kink1 mp) as E1 by (unfold kink_at; by rewrite Fk).
  assert (entry s 0 1 - entry s 0 0
          = 2 * plusInt_of s - 5 - b2z (kink_at s 0) - b2z (kink_at s 1)) as Hcnt.
  { pose proof (BI 0%nat Hn) as B0. unfold block_size in B0. simpl in B0.
    rewrite B0, EP, E0, E1. unfold tp_interface_count, tp_numIntBdy, raw_count, X. lia. }
  assert (0 <= entry s 0 1 - entry s 0 0) as Hpos.
  { pose proof (BI 0%nat Hn) as B0. unfold block_size in B0. simpl in B0. rewrite B0.
    destruct Hc as (HI & _). apply (nonneg_lookup _ _ 0%nat HI Hn). }
  assert (entry s 4 2 - entry s 4 1 = 2 + b2z (kink_at s 0)) as HV1.
  { destruct (BV 1%nat ltac:(lia)) as [_ V]. unfold block_size in V. simpl in V.
    rewrite V. unfold tp_bdy_vertex_count, kink_of_vertex. rewrite K1. simpl.
    by rewrite Hk0, E0. }
  assert (entry s 4 4 - entry s 4 3 = 2 + b2z (kink_at s 1)) as HV3.
  { destruct (BV 3%nat ltac:(lia)) as [_ V]. unfold block_size in V. simpl in V.
    rewrite V. unfold tp_bdy_vertex_count, kink_of_vertex. rewrite K3. simpl.
    by rewrite Hk1, E1. }
  pose proof (Hcross 0%nat 4%nat 1%nat 1%nat ltac:(lia) ltac:(lia) ltac:(lia)) as Hord1.
  pose proof (Hmono 4%nat 2%nat 3%nat ltac:(lia) ltac:(lia)) as Hord2.
  unfold X in Hbf, Hbf'. rewrite <- EP in Hbf, Hbf'.
  unfold block_of. rewrite L0, L4.
  assert (1 < Datatypes.S (length (interfaces mp)))%nat as HL0 by lia.
  assert (2 < Datatypes.S (length (vertices mp)))%nat as HL1 by lia.
  assert (4 < Datatypes.S (length (vertices mp)))%nat as HL3 by lia.
  unfold interface_rows, is_rerouted, is_endpoint. rewrite Ftp, Fnb. simpl.
  revert HL0 HL1 HL3 Hbf Hbf' Hne Hcnt Hpos HV1 HV3 Hord1 Hord2.
  generalize (Datatypes.S (length (interfaces mp))) (Datatypes.S (length (vertices mp))).
  generalize (plusInt_of s) (kink_at s 0) (kink_at s 1)
    (entry s 0 0) (entry s 0 1) (entry s 4 1) (entry s 4 2) (entry s 4 3) (entry s 4 4).
  clear. intros P k0 k1 c0 c1 a1 a2 b3 b4 n0 n4 HL0 HL1 HL3 Hbf Hbf' Hne Hcnt Hpos HV1 HV3
    Hord1 Hord2.
  unfold b2z in *.
  destruct k0, k1;
    repeat match goal with
           | |- context [Z.eqb ?x ?y] =>
               destruct (Z.eqb_spec x y); [subst|]; try lia
           end;
    repeat match goal with
           | |- context [Z.ltb ?x ?y] => destruct (Z.ltb_spec x y); try lia
           end;
    simpl; do 2 eexists; (split; [reflexivity|]); (split; [reflexivity|]);
    (split; [lia|]); split; intros ?; try discriminate;
    first [ split; lia | left; split; lia | right; split; lia ].
Qed.

Lemma two_patch_interface_ordinals_get_own_rows_witness :
  exists r r',
    interface_rows sys_kinked 0 1 = [r] /\ interface_rows sys_kinked 0 2 = [r'] /\ r <> r'
    /\ (is_rerouted sys_kinked 1 = false -> block_of sys_kinked 0 0 r)
    /\ (is_rerouted sys_kinked 1 = true
        -> block_of sys_kinked 4 1 r \/ block_of sys_kinked 4 3 r).
Proof.
  apply (two_patch_interface_ordinals_get_own_rows (two_patch_domain turned_patch)
           (two_patch_bases 3 4) 0 true 1 2).
  - vm_compute. repeat split; repeat constructor; discriminate.
  - discriminate.
  - vm_compute. split; [discriminate|reflexivity].
  - simpl; lia.
  - reflexivity.
  - reflexivity.
  - vm_compute. split; discriminate.
  - vm_compute. split; discriminate.
  - lia.
Defined.

(** ** Dimensions *)

Lemma new_gsG1System_dimensions (mp : gsMultiPatch) (mb : list gsMultiBasis)
    (ikm : Z) (nb tp iso : bool) :
  let s := new_gsG1System mp mb ikm nb tp iso in
  dim_K s = last_entry s 6 /\ dim_G1_Dofs s = last_entry s 2
  /\ dim_G1_Bdy s = last_entry s 4 - entry s 3 0
  /\ D_sparse s = resize (dim_G1_Dofs s + dim_G1_Bdy s + dim_K s) (dim_K s)
  /\ m_g1 s = replicate (Z.to_nat (dim_G1_Dofs s + dim_G1_Bdy s + dim_K s)) 0%Q.
Proof.
  unfold new_gsG1System. change (m_twoPatch (constructed nb tp iso)) with tp.
  destruct tp; [unfold initialize_twoPatch|unfold initialize]; cbv zeta;
    match goal with
    | |- context [set_dimensions ?x] => generalize x
    end; intros x; repeat split.
Qed.





(** ** Runs of insertions *)

Lemma run_all_spec (cs : list call) (s : gsG1System) :
  run_all cs s = set_D_sparse (apply_writes (flat_map (writes_of s) cs) (D_sparse s)) s.
Proof.
  unfold run_all. apply (foldl_writes cs run writes_of s).
  - intros c s'. apply run_spec.
  - intros c s' M. apply writes_of_set_D_sparse.
Qed.

(** X5.  A run of insertion calls, in any number and order, returns the
    system with another [D_sparse] and nothing else changed: tables,
    dimensions, flags, [D_0_sparse], [D_boundary_sparse] and [m_g1] stay.
    The new [D_sparse] has the shape of the old one, stores an entry
    wherever the old one did, and agrees with the old one on every row that
    none of the calls addresses. *)
Theorem insertions_change_addressed_rows_only (cs : list call) (s : gsG1System) :
  exists M,
    run_all cs s = set_D_sparse M s
    /\ rows M = rows (D_sparse s) /\ cols M = cols (D_sparse s)
    /\ (forall k, is_Some (entries (D_sparse s) !! k) -> is_Some (entries M !! k))
    /\ (forall r c, (forall x, x ∈ cs -> r ∉ addressed_rows s x) ->
          entries M !! (r, c) = entries (D_sparse s) !! (r, c)).
Proof.
  exists (apply_writes (flat_map (writes_of s) cs) (D_sparse s)).
  split; [apply run_all_spec|].
  destruct (apply_writes_shape (flat_map (writes_of s) cs) (D_sparse s)) as [Hr Hc].
  split; [exact Hr|]. split; [exact Hc|]. split.
  - intros k Hk.
    destruct (decide (k ∈ (flat_map (writes_of s) cs).*1)) as [Hin|Hnin].
    + destruct (lookup_apply_writes_in _ (D_sparse s) k Hin) as (v & _ & ->). by eexists.
    + by rewrite lookup_apply_writes_notin.
  - intros r c Hno. apply lookup_apply_writes_other_row. intros Hin.
    unfold rows_of in Hin. apply list_elem_of_fmap in Hin as (w & -> & Hw).
    apply list_elem_of_In, in_flat_map in Hw as (x & Hx%list_elem_of_In & Hw%list_elem_of_In).
    apply (Hno x Hx). apply written_rows_addressed.
    unfold rows_of. apply list_elem_of_fmap. by exists w.
Qed.

(** ** Reading back what an insertion stored *)

Lemma row_block_after_writes (D : gsSparseMatrix) (ws : list triplet) (r col : Z)
    (cf : list real_t) :
  empty_row D r ->
  (forall c v, ((r, c), v) ∈ ws -> col <= c < col + Z.of_nat (length cf) ->
     exists j, (j < length cf)%nat /\ kept (cf !!! j) = true
               /\ c = col + Z.of_nat j /\ v = cf !!! j) ->
  (forall j, (j < length cf)%nat -> kept (cf !!! j) = true ->
     ((r, col + Z.of_nat j), cf !!! j) ∈ ws) ->
  row_block (apply_writes ws D) r col (Z.of_nat (length cf)) = map pruned cf.
Proof.
  intros He Hsound Hcomplete. unfold row_block. apply list_eq. intros i.
  change (map ?f ?l) with (f <$> l). rewrite !list_lookup_fmap.
  destruct (decide (i < length cf)%nat) as [Hi|Hi].
  - rewrite lookup_seqZ_lt by lia.
    rewrite (list_lookup_lookup_total_lt cf i Hi). simpl. f_equal.
    rewrite Z.add_0_l. unfold coeff, pruned.
    destruct (kept (cf !!! i)) eqn:Ek.
    + destruct (lookup_apply_writes_in ws D (r, col + Z.of_nat i)) as (v & Hv & ->).
      { apply list_elem_of_fmap. eexists (_, _). split; [reflexivity|].
        by apply Hcomplete. }
      destruct (Hsound _ _ Hv ltac:(lia)) as (j & Hj & _ & Hc & ->).
      assert (j = i) as -> by lia. reflexivity.
    + rewrite lookup_apply_writes_notin; [by rewrite He|].
      intros Hin. apply list_elem_of_fmap in Hin as ([[r' c'] v] & Heq & Hw).
      simpl in Heq. injection Heq as <- <-.
      destruct (Hsound _ _ Hw ltac:(lia)) as (j & Hj & Hk & Hc & _).
      assert (j = i) as -> by lia. congruence.
  - rewrite lookup_seqZ_ge by lia. rewrite lookup_ge_None_2 by lia. reflexivity.
Qed.

(** The writes of an insertion over [n] patches, patch [k] going to the
    columns from [col k] on, read back from one of the rows. *)
Lemma multi_patch_read_back (D : gsSparseMatrix) (rs : list Z) (r : Z) (n : nat)
    (col : nat -> Z) (cf : nat -> list real_t) (np : nat) :
  r ∈ rs -> empty_row D r -> (np < n)%nat ->
  (forall k j, (k < n)%nat -> k <> np -> (j < length (cf k))%nat ->
     ~ (col np <= col k + Z.of_nat j < col np + Z.of_nat (length (cf np)))) ->
  row_block
    (apply_writes
       (flat_map (fun k =>
          flat_map (fun j => coef_writes rs (col k + Z.of_nat j) (cf k !!! j))
            (seq 0 (length (cf k))))
          (seq 0 n)) D)
    r (col np) (Z.of_nat (length (cf np)))
  = map pruned (cf np).
Proof.
  intros Hr He Hnp Hdisj. apply row_block_after_writes; [done|..].
  - intros c v Hw Hc.
    apply elem_of_flat_map_seq in Hw as (k & Hk & Hw).
    apply elem_of_flat_map_seq in Hw as (j & Hj & Hw).
    apply elem_of_coef_writes in Hw as (r' & _ & Hkept & Heq).
    injection Heq as _ -> ->.
    destruct (decide (k = np)) as [->|Hne].
    + exists j. repeat split; try done. by apply kept_spec.
    + exfalso. by apply (Hdisj k j Hk Hne Hj).
  - intros j Hj Hkept. apply elem_of_flat_map_seq. exists np. split; [done|].
    apply elem_of_flat_map_seq. exists j. split; [done|].
    apply elem_of_coef_writes. exists r. split; [done|]. split; [|done].
    by apply kept_spec.
Qed.

(** Column blocks of different patches do not meet when the column table is
    nondecreasing. *)
Lemma column_blocks_apart (T : list Z) (p q : nat) (j : Z) :
  nondecreasing T -> (Datatypes.S p < length T)%nat -> (Datatypes.S q < length T)%nat ->
  p <> q -> 0 <= j < T !!! Datatypes.S q - T !!! q ->
  ~ (T !!! p <= T !!! q + j < T !!! Datatypes.S p).
Proof.
  intros Hm Hp Hq Hne Hj.
  destruct (decide (p < q)%nat) as [Hlt|Hge].
  - pose proof (Hm (Datatypes.S p) q ltac:(lia)). lia.
  - pose proof (Hm (Datatypes.S q) p ltac:(lia)). lia.
Qed.

(** X6.  When the row that [insertBoundaryEdge] addresses is still empty and
    the basis function has one coefficient per column of its patch,
    [getSingleBasis] of that row and patch returns, after the insertion, the
    coefficients of the function, with every coefficient whose square is at
    most [10e-25] replaced by zero. *)
Theorem boundary_edge_read_back (s : gsG1System) (mp : gsMultiPatch) (item : patchSide)
    (bID : nat) (bfID : Z) :
  let r := boundary_row s bID bfID in
  empty_row (D_sparse s) r ->
  block_size s 5 (ps_patch item) = Z.of_nat (length (coefs (patch mp 0))) ->
  getSingleBasis (insertBoundaryEdge mp item bID bfID s) r (ps_patch item)
  = map pruned (coefs (patch mp 0)).
Proof.
  intros r He Hw. rewrite insertBoundaryEdge_spec.
  unfold getSingleBasis. unfold block_size in Hw.
  change (entry (set_D_sparse ?M s) ?k ?i) with (entry s k i).
  change (D_sparse (set_D_sparse ?M s)) with M.
  rewrite Hw.
  rewrite <- (app_nil_r (insertBoundaryEdge_writes s mp item bID bfID)).
  apply (multi_patch_read_back (D_sparse s) [r] r 1
           (fun _ => entry s 5 (ps_patch item)) (fun _ => coefs (patch mp 0)) 0).
  - by apply list_elem_of_singleton.
  - exact He.
  - lia.
  - intros k j Hk Hne. lia.
Qed.

Lemma boundary_edge_read_back_witness :
  let g := basis_function [[1; 1e-13] ++ replicate 47 0]%Q in
  let item := {| ps_patch := 1; m_index := 3 |} in
  getSingleBasis (insertBoundaryEdge g item 4 0 sys_general)
    (boundary_row sys_general 4 0) 1
  = map pruned (coefs (patch g 0)).
Proof.
  intros g item.
  apply (boundary_edge_read_back sys_general g item 4 0).
  - intros c. vm_compute. reflexivity.
  - vm_compute. reflexivity.
Defined.

(** X7.  [insertVertex] followed by [getSingleBasis]: when the addressed row
    is still empty, the patches named by [patchIndex] are different patches
    of a nondecreasing column table, and the function has on each of its
    patches one coefficient per column of the patch it goes to, then the
    row read back for the patch of the function's patch [np] is the
    coefficient vector of that patch, with every coefficient whose square is
    at most [10e-25] replaced by zero. *)
Theorem vertex_read_back (s : gsG1System) (mp : gsMultiPatch) (patchIndex : list nat)
    (vID : nat) (nDofs bfID : Z) (np : nat) :
  let r := vertex_row s vID nDofs bfID in
  empty_row (D_sparse s) r ->
  nondecreasing (table s 5) ->
  (forall k, (k < nPatches mp)%nat ->
     (Datatypes.S (patchIndex !!! k) < length (table s 5))%nat
     /\ block_size s 5 (patchIndex !!! k) = Z.of_nat (length (coefs (patch mp k)))) ->
  (forall k1 k2, (k1 < nPatches mp)%nat -> (k2 < nPatches mp)%nat ->
     patchIndex !!! k1 = patchIndex !!! k2 -> k1 = k2) ->
  (np < nPatches mp)%nat ->
  getSingleBasis (insertVertex mp patchIndex vID nDofs bfID s) r (patchIndex !!! np)
  = map pruned (coefs (patch mp np)).
Proof.
  intros r He Hm Hw Hinj Hnp. rewrite insertVertex_spec.
  unfold getSingleBasis.
  change (entry (set_D_sparse ?M s) ?k ?i) with (entry s k i).
  change (D_sparse (set_D_sparse ?M s)) with M.
  destruct (Hw np Hnp) as [Hl Hb]. unfold block_size in Hb. rewrite Hb.
  apply (multi_patch_read_back (D_sparse s) [r] r (nPatches mp)
           (fun k => entry s 5 (patchIndex !!! k)) (fun k => coefs (patch mp k)) np).
  - by apply list_elem_of_singleton.
  - exact He.
  - exact Hnp.
  - intros k j Hk Hne Hj. destruct (Hw k Hk) as [Hlk Hbk]. unfold block_size in Hbk.
    rewrite <- Hb.
    replace (entry s 5 (patchIndex !!! np)
             + (entry s 5 (Datatypes.S (patchIndex !!! np)) - entry s 5 (patchIndex !!! np)))
      with (entry s 5 (Datatypes.S (patchIndex !!! np))) by lia.
    apply (column_blocks_apart (table s 5)); try done.
    + intros Heq. apply Hne. by apply Hinj.
    + unfold entry in Hbk. lia.
Qed.

Lemma vertex_read_back_witness :
  let g := basis_function [[1; 1e-13] ++ replicate 47 0; replicate 48 0 ++ [2]]%Q in
  getSingleBasis (insertVertex g [0%nat; 1%nat] 1 3 0 sys_general)
    (vertex_row sys_general 1 3 0) 1
  = map pruned (coefs (patch g 1)).
Proof.
  intros g.
  apply (vertex_read_back sys_general g [0%nat; 1%nat] 1 3 0 1).
  - intros c. vm_compute. reflexivity.
  - assert (table sys_general 5 = [0; 49; 98]) as -> by (vm_compute; reflexivity).
    intros i j Hij. destruct i as [|[|[|i]]], j as [|[|[|j]]]; simpl in *; lia.
  - intros k Hk. destruct k as [|[|k]]; [split; [vm_compute; lia|vm_compute; reflexivity]..|].
    cbv in Hk. lia.
  - intros k1 k2 H1 H2. cbv in H1, H2.
    destruct k1 as [|[|k1]], k2 as [|[|k2]]; try lia; try reflexivity; discriminate.
  - cbv. lia.
Defined.

(** X8.  [insertInterfaceEdge] followed by [getSingleInterfaceBasis]: when
    the two sides of the interface lie on different patches of a
    nondecreasing interface column table and the function has on each side
    one coefficient per column of the patch of that side, every still empty
    row the call addresses reads back, for the patch of side [np], as the
    coefficient vector of side [np] with every coefficient whose square is
    at most [10e-25] replaced by zero. *)
Theorem interface_read_back (s : gsG1System) (mp : gsMultiPatch) (item : boundaryInterface)
    (iID : nat) (bfID : Z) (r : Z) (np : nat) :
  r ∈ interface_rows s iID bfID ->
  empty_row (D_sparse s) r ->
  nondecreasing (table s 6) ->
  (forall k, (k < 2)%nat ->
     (Datatypes.S (interface_patch item k) < length (table s 6))%nat
     /\ block_size s 6 (interface_patch item k) = Z.of_nat (length (coefs (patch mp k)))) ->
  ps_patch (first item) <> ps_patch (second item) ->
  (np < 2)%nat ->
  getSingleInterfaceBasis (insertInterfaceEdge mp item iID bfID s) r (interface_patch item np)
  = map pruned (coefs (patch mp np)).
Proof.
  intros Hr He Hm Hw Hdiff Hnp. rewrite insertInterfaceEdge_spec.
  unfold getSingleInterfaceBasis.
  change (entry (set_D_sparse ?M s) ?k ?i) with (entry s k i).
  change (D_sparse (set_D_sparse ?M s)) with M.
  destruct (Hw np Hnp) as [Hl Hb]. unfold block_size in Hb. rewrite Hb.
  apply (multi_patch_read_back (D_sparse s) (interface_rows s iID bfID) r 2
           (fun k => entry s 6 (interface_patch item k)) (fun k => coefs (patch mp k)) np).
  - exact Hr.
  - exact He.
  - exact Hnp.
  - intros k j Hk Hne Hj. destruct (Hw k Hk) as [Hlk Hbk]. unfold block_size in Hbk.
    rewrite <- Hb.
    replace (entry s 6 (interface_patch item np)
             + (entry s 6 (Datatypes.S (interface_patch item np))
                - entry s 6 (interface_patch item np)))
      with (entry s 6 (Datatypes.S (interface_patch item np))) by lia.
    apply (column_blocks_apart (table s 6)); try done.
    + intros Heq. apply Hne.
      destruct np as [|[|np]], k as [|[|k]]; try lia; unfold interface_patch in Heq;
        simpl in Heq; congruence.
    + unfold entry in Hbk. lia.
Qed.

Lemma interface_read_back_witness :
  let g := basis_function [[1; 1e-13] ++ replicate 47 0; replicate 48 0 ++ [2]]%Q in
  let item := {| first := {| ps_patch := 0; m_index := 2 |};
                 second := {| ps_patch := 1; m_index := 1 |} |} in
  getSingleInterfaceBasis (insertInterfaceEdge g item 0 0 sys_kinked) 50 1
  = map pruned (coefs (patch g 1)).
Proof.
  intros g item.
  apply (interface_read_back sys_kinked g item 0 0 50 1).
  - vm_compute. apply list_elem_of_singleton. reflexivity.
  - intros c. vm_compute. reflexivity.
  - assert (table sys_kinked 6 = [0; 49; 98]) as -> by (vm_compute; reflexivity).
    intros i j Hij. destruct i as [|[|[|i]]], j as [|[|[|j]]]; simpl in *; lia.
  - intros k Hk. destruct k as [|[|k]]; [split; [vm_compute; lia|vm_compute; reflexivity]..|].
    lia.
  - discriminate.
  - lia.
Defined.

(** ** The boundary values stored by [finalize] *)

Lemma finalize_fields (ops : EigenOps) (mp : gsMultiPatch) (mb : gsMultiBasis)
    (g1 : list Q) (s : gsG1System) :
  let s' := finalize ops mp mb g1 s in
  m_g1 s' = store_boundary_values (dim_G1_Dofs s) (dim_G1_Bdy s) g1 (m_g1 s)
  /\ numBasisFunctions s' = numBasisFunctions s
  /\ dim_K s' = dim_K s /\ dim_G1_Dofs s' = dim_G1_Dofs s /\ dim_G1_Bdy s' = dim_G1_Bdy s
  /\ kindOfVertex s' = kindOfVertex s /\ sizePlusInt s' = sizePlusInt s
  /\ sizePlusBdy s' = sizePlusBdy s /\ kink s' = kink s
  /\ m_twoPatch s' = m_twoPatch s /\ m_neumannBdy s' = m_neumannBdy s
  /\ m_isogeometric s' = m_isogeometric s.
Proof.
  unfold finalize.
  match goal with
  | |- context [finalize_interior mb ?st] =>
      pose proof (snd_finalize_interior mb st) as H;
      destruct (finalize_interior mb st) as [B s1] eqn:E
  end.
  simpl in *. rewrite H, finalize_D_spec. repeat split.
Qed.

Lemma store_behind_prefix {A : Type} (f : nat -> A) (l1 l2 : list A) (m : nat) :
  for_each m (fun i v => <[(length l1 + i)%nat := f i]> v) (l1 ++ l2)
  = l1 ++ for_each m (fun i v => <[i := f i]> v) l2.
Proof.
  induction m as [|m IH]; [done|].
  rewrite !for_each_S, IH. rewrite insert_app_r_alt by lia.
  do 2 f_equal. lia.
Qed.

Lemma length_set_loop {A : Type} (f : nat -> A) (l : list A) (m : nat) :
  length (for_each m (fun i v => <[i := f i]> v) l) = length l.
Proof.
  induction m as [|m IH]; [done|]. by rewrite for_each_S, length_insert.
Qed.

Lemma store_before_suffix {A : Type} (f : nat -> A) (l2 l3 : list A) (m : nat) :
  (m <= length l2)%nat ->
  for_each m (fun i v => <[i := f i]> v) (l2 ++ l3)
  = for_each m (fun i v => <[i := f i]> v) l2 ++ l3.
Proof.
  induction m as [|m IH]; intros Hm; [done|].
  rewrite !for_each_S, IH by lia. rewrite insert_app_l; [done|].
  rewrite length_set_loop. lia.
Qed.

Lemma map_lookup_total_seq (g : list Q) : map (fun i => g !!! i) (seq 0 (length g)) = g.
Proof.
  apply list_eq. intros i. change (map ?f ?l) with (f <$> l).
  rewrite list_lookup_fmap.
  destruct (decide (i < length g)%nat) as [Hi|Hi].
  - rewrite lookup_seq_lt by done. simpl.
    by rewrite (list_lookup_lookup_total_lt g i Hi).
  - rewrite lookup_seq_ge by lia. by rewrite lookup_ge_None_2 by lia.
Qed.

(** X9.  Constructor, any run of insertions, then [finalize] with as many
    boundary values as [dim_G1_Bdy]: [m_g1] is the boundary values [g1],
    preceded by [dim_G1_Dofs] zeros and followed by [dim_K] zeros; the
    tables and the three dimensions are those the constructor set. *)
Theorem finalize_stores_boundary_values (ops : EigenOps) (mp : gsMultiPatch)
    (mb : list gsMultiBasis) (ikm : Z) (nb tp iso : bool) (cs : list call)
    (geo : gsMultiPatch) (mbf : gsMultiBasis) (g1 : list Q) :
  let s0 := new_gsG1System mp mb ikm nb tp iso in
  let s' := finalize ops geo mbf g1 (run_all cs s0) in
  0 <= dim_G1_Dofs s0 -> 0 <= dim_G1_Bdy s0 -> 0 <= dim_K s0 ->
  length g1 = Z.to_nat (dim_G1_Bdy s0) ->
  m_g1 s' = replicate (Z.to_nat (dim_G1_Dofs s0)) 0%Q ++ g1
            ++ replicate (Z.to_nat (dim_K s0)) 0%Q
  /\ numBasisFunctions s' = numBasisFunctions s0
  /\ dim_G1_Dofs s' = dim_G1_Dofs s0 /\ dim_G1_Bdy s' = dim_G1_Bdy s0
  /\ dim_K s' = dim_K s0.
Proof.
  intros s0 s' Hd Hb Hk Hg.
  destruct (finalize_fields ops geo mbf g1 (run_all cs s0))
    as (Em & Et & EK & Ed & Eb & _).
  fold s' in Em, Et, EK, Ed, Eb.
  rewrite run_all_spec in Em, Et, EK, Ed, Eb. simpl in Em, Et, EK, Ed, Eb.
  split; [|by repeat split].
  rewrite Em.
  destruct (new_gsG1System_dimensions mp mb ikm nb tp iso) as (_ & _ & _ & _ & Eg).
  fold s0 in Eg. rewrite Eg.
  rewrite !Z2Nat.inj_add by lia. rewrite !replicate_add, <- app_assoc.
  unfold store_boundary_values.
  pose proof (store_behind_prefix (fun i => g1 !!! i)
                (replicate (Z.to_nat (dim_G1_Dofs s0)) 0%Q)
                (replicate (Z.to_nat (dim_G1_Bdy s0)) 0%Q
                 ++ replicate (Z.to_nat (dim_K s0)) 0%Q)
                (Z.to_nat (dim_G1_Bdy s0))) as Hp.
  rewrite length_replicate in Hp. rewrite Hp. f_equal.
  rewrite store_before_suffix by (rewrite length_replicate; lia). f_equal.
  rewrite set_loop_full, <- Hg. apply map_lookup_total_seq.
Qed.

Lemma finalize_stores_boundary_values_witness :
  let g1 := replicate (Z.to_nat (dim_G1_Bdy sys_general)) 1%Q in
  let cs := [InsertVertex (basis_function [[3]; [4]]%Q) [0%nat; 1%nat] 1 3 4] in
  let s' := finalize stalling_ops (two_patch_domain flat_patch)
              [tensor_basis 3 4; tensor_basis 3 4] g1 (run_all cs sys_general) in
  m_g1 s' = replicate (Z.to_nat (dim_G1_Dofs sys_general)) 0%Q ++ g1
            ++ replicate (Z.to_nat (dim_K sys_general)) 0%Q
  /\ numBasisFunctions s' = numBasisFunctions sys_general
  /\ dim_G1_Dofs s' = dim_G1_Dofs sys_general /\ dim_G1_Bdy s' = dim_G1_Bdy sys_general
  /\ dim_K s' = dim_K sys_general.
Proof.
  intros g1 cs s'.
  apply (finalize_stores_boundary_values stalling_ops (two_patch_domain flat_patch)
           (two_patch_bases 3 4) 0 false false true cs (two_patch_domain flat_patch)
           [tensor_basis 3 4; tensor_basis 3 4] g1).
  - vm_compute. discriminate.
  - vm_compute. discriminate.
  - vm_compute. discriminate.
  - vm_compute. reflexivity.
Defined.


(** ** The reconstruction [constructG1Solution] *)

Lemma entry_out_of_range (s : gsG1System) (k e : nat) :
  (length (table s k) <= e)%nat -> entry s k e = 0.
Proof.
  intros H. unfold entry. rewrite list_lookup_total_alt.
  by rewrite lookup_ge_None_2.
Qed.

(** With chained nondecreasing tables that start at a non-negative row, the
    rows of the interface, edge and vertex blocks lie below the last entry
    of the vertex table, whatever entity index the loops are given. *)
Lemma dof_rows_below_dofs (s : gsG1System) (k e i : nat) :
  tables_ok s -> 0 <= entry s 0 0 -> (k < 3)%nat ->
  (i < Z.to_nat (entry s k (Datatypes.S e) - entry s k e))%nat ->
  (Z.to_nat (entry s k e + Z.of_nat i) < Z.to_nat (last_entry s 2))%nat.
Proof.
  intros [Hm Hch] H0 Hk Hi.
  assert (forall k i j, (k < 5)%nat -> (i <= j < length (table s k))%nat ->
            entry s k i <= entry s k j) as Hmono.
  { intros k' i' j' Hk' Hij. destruct (Hm k' Hk') as [Hn _]. by apply Hn. }
  assert (forall k i, (k < 5)%nat -> (i < length (table s k))%nat ->
            entry s k 0 <= entry s k i <= last_entry s k) as Hfl.
  { intros k' i' Hk' Hi'. unfold last_entry. rewrite vlast_lookup. split.
    - apply Hmono; [done|lia].
    - apply Hmono; [done|lia]. }
  assert (forall k, (k < 5)%nat -> entry s k 0 <= last_entry s k) as Hfl0.
  { intros k' Hk'. destruct (Hm k' Hk') as [_ Hl]. apply (Hfl k' 0%nat Hk' Hl). }
  pose proof (Hfl0 0%nat ltac:(lia)). pose proof (Hfl0 1%nat ltac:(lia)).
  pose proof (Hfl0 2%nat ltac:(lia)).
  pose proof (Hch 0%nat ltac:(lia)). pose proof (Hch 1%nat ltac:(lia)).
  assert (entry s 0 0 <= entry s k 0 /\ last_entry s k <= last_entry s 2) as [Hlo Hhi].
  { destruct k as [|[|[|k]]]; lia. }
  destruct (decide (Datatypes.S e < length (table s k))%nat) as [Hin|Hout].
  - pose proof (Hfl k e ltac:(lia) ltac:(lia)).
    pose proof (Hfl k (Datatypes.S e) ltac:(lia) Hin). lia.
  - rewrite (entry_out_of_range s k (Datatypes.S e)) in Hi by lia.
    destruct (decide (e < length (table s k))%nat) as [He|He].
    + pose proof (Hfl k e ltac:(lia) He). lia.
    + rewrite (entry_out_of_range s k e) in Hi by lia. simpl in Hi. lia.
Qed.

Lemma add_rows_ext (mk : gsBasis -> list Q -> gsGeometry) (s : gsG1System) (b : gsBasis)
    (kc p : nat) (a : Z) (u v : list Q) (n : nat) (g : option (list gsMultiPatch)) :
  (forall i, (i < n)%nat -> u !!! Z.to_nat (a + Z.of_nat i) = v !!! Z.to_nat (a + Z.of_nat i)) ->
  for_each n (fun i g =>
    let ii := a + Z.of_nat i in add_row mk s b kc p ii (u !!! Z.to_nat ii) g) g
  = for_each n (fun i g =>
    let ii := a + Z.of_nat i in add_row mk s b kc p ii (v !!! Z.to_nat ii) g) g.
Proof.
  intros H. apply for_each_ext. intros i g' Hi. cbv zeta. by rewrite H.
Qed.

(** X10.  [constructG1Solution] reads [solVector] below [dim_G1_Dofs] only:
    on a system whose tables are chained and nondecreasing from a
    non-negative first row, with [dim_G1_Dofs] the last entry of the vertex
    table (as the constructor sets it), two solution vectors that agree in
    their first [dim_G1_Dofs] entries give the same result.  The interior
    part of the solution, which [solve] also returns, is not used. *)
Theorem constructG1Solution_reads_dofs_only (mk : gsBasis -> list Q -> gsGeometry)
    (s : gsG1System) (u v : list Q) (geo : gsMultiPatch) (mb : list gsMultiBasis) :
  tables_ok s -> 0 <= entry s 0 0 -> dim_G1_Dofs s = last_entry s 2 ->
  (forall k, (k < Z.to_nat (dim_G1_Dofs s))%nat -> u !!! k = v !!! k) ->
  constructG1Solution mk s u geo mb = constructG1Solution mk s v geo mb.
Proof.
  intros Hok H0 Hd Huv. rewrite Hd in Huv.
  assert (forall k e i, (k < 3)%nat ->
            (i < Z.to_nat (entry s k (Datatypes.S e) - entry s k e))%nat ->
            u !!! Z.to_nat (entry s k e + Z.of_nat i)
            = v !!! Z.to_nat (entry s k e + Z.of_nat i)) as Hrow.
  { intros k e i Hk Hi. apply Huv. by apply dof_rows_below_dofs. }
  unfold constructG1Solution. cbv zeta.
  rewrite (for_each_ext (g1_interface_step mk s u geo mb) (g1_interface_step mk s v geo mb)).
  2:{ intros e g _. unfold g1_interface_step. cbv zeta.
      rewrite (add_rows_ext mk s _ 6 _ (entry s 0 e) u v) by (intros; apply Hrow; [lia|assumption]).
      f_equal. apply add_rows_ext. intros; apply Hrow; [lia|assumption]. }
  rewrite (for_each_ext (g1_boundary_step mk s u geo mb) (g1_boundary_step mk s v geo mb)).
  2:{ intros e g _. unfold g1_boundary_step. cbv zeta.
      apply add_rows_ext. intros; apply Hrow; [lia|assumption]. }
  apply for_each_ext. intros e g _. unfold g1_vertex_step. cbv zeta.
  apply for_each_ext. intros j g' _.
  apply add_rows_ext. intros; apply Hrow; [lia|assumption].
Qed.

Lemma constructG1Solution_reads_dofs_only_witness :
  let mk := fun (_ : gsBasis) (c : list Q) =>
              {| coefs := c; jacobian := fun _ => ((0, 0), (0, 0))%Q |} in
  let u := replicate (Z.to_nat (dim_G1_Dofs sys_general)) 1%Q ++ [5; 5]%Q in
  let v := replicate (Z.to_nat (dim_G1_Dofs sys_general)) 1%Q ++ [7]%Q in
  constructG1Solution mk sys_general u (two_patch_domain flat_patch) (two_patch_bases 3 4)
  = constructG1Solution mk sys_general v (two_patch_domain flat_patch) (two_patch_bases 3 4).
Proof.
  intros mk u v.
  apply (constructG1Solution_reads_dofs_only mk sys_general u v).
  - apply new_gsG1System_tables_ok.
    vm_compute. repeat split; repeat constructor; discriminate.
  - vm_compute. discriminate.
  - vm_compute. reflexivity.
  - intros k Hk. unfold u, v.
    rewrite !lookup_total_app_l by (rewrite length_replicate; exact Hk). reflexivity.
Defined.

Lemma add_row_returns (mk : gsBasis -> list Q -> gsGeometry) (s : gsG1System) (b : gsBasis)
    (kc p : nat) (ii : Z) (x : Q) (n : nat) (r : option (list gsMultiPatch)) :
  (p < n)%nat -> (exists g, r = Some g /\ length g = n) ->
  exists g, add_row mk s b kc p ii x r = Some g /\ length g = n.
Proof.
  intros Hp (g & -> & Hg). unfold add_row, add_at. simpl.
  destruct (decide (p < length g)%nat) as [_|Hn]; [|lia].
  eexists. split; [reflexivity|]. by rewrite length_alter.
Qed.

(** X11.  [constructG1Solution] does not throw when every patch index in the
    topology of [geo] is the index of a patch: it returns one multi-patch
    per patch of [geo]. *)
Theorem constructG1Solution_returns (mk : gsBasis -> list Q -> gsGeometry)
    (s : gsG1System) (solVector : list Q) (geo : gsMultiPatch) (mb : list gsMultiBasis) :
  patch_indices_valid geo ->
  exists g, constructG1Solution mk s solVector geo mb = Some g
            /\ length g = nPatches geo.
Proof.
  intros (HI & HB & HV). unfold constructG1Solution. cbv zeta.
  set (Inv := fun r : option (list gsMultiPatch) =>
                exists g, r = Some g /\ length g = nPatches geo).
  assert (forall (body : nat -> option (list gsMultiPatch) -> option (list gsMultiPatch))
            (n : nat) r,
            (forall i r, (i < n)%nat -> Inv r -> Inv (body i r)) -> Inv r ->
            Inv (for_each n body r)) as Hloop.
  { intros body n r Hb Hr. induction n as [|n IH]; [done|].
    rewrite for_each_S. apply Hb; [lia|]. apply IH. intros; apply Hb; [lia|done]. }
  change (Inv (for_each (length (vertices geo)) (g1_vertex_step mk s solVector geo mb)
            (for_each (length (boundaries geo)) (g1_boundary_step mk s solVector geo mb)
               (for_each (length (interfaces geo))
                  (g1_interface_step mk s solVector geo mb)
                  (Some (replicate (nPatches geo) init_mp)))))).
  apply Hloop; [|apply Hloop; [|apply Hloop]].
  - intros e r He Hr. unfold g1_vertex_step. cbv zeta.
    assert (vertices geo !! e = Some (vertices geo !!! e)) as Hl
      by (by apply list_lookup_lookup_total_lt).
    pose proof (proj1 (Forall_lookup _ _) HV e _ Hl) as Hcs.
    apply Hloop; [|done]. intros j r' Hj Hr'.
    assert ((vertices geo !!! e) !! j = Some (vertices geo !!! e !!! j)) as Hlj
      by (by apply list_lookup_lookup_total_lt).
    pose proof (proj1 (Forall_lookup _ _) Hcs j _ Hlj) as Hp.
    apply Hloop; [|apply Hloop; [|done]].
    + intros i r2 _ Hr2. by apply add_row_returns.
    + intros i r2 _ Hr2. destruct ((e =? 1)%nat || (e =? 3)%nat); by apply add_row_returns.
  - intros e r He Hr. unfold g1_boundary_step. cbv zeta.
    assert (boundaries geo !! e = Some (boundaries geo !!! e)) as Hl
      by (by apply list_lookup_lookup_total_lt).
    pose proof (proj1 (Forall_lookup _ _) HB e _ Hl) as Hp.
    apply Hloop; [|apply Hloop; [|done]]; intros i r2 _ Hr2; by apply add_row_returns.
  - intros e r He Hr. unfold g1_interface_step. cbv zeta.
    assert (interfaces geo !! e = Some (interfaces geo !!! e)) as Hl
      by (by apply list_lookup_lookup_total_lt).
    destruct (proj1 (Forall_lookup _ _) HI e _ Hl) as [Hp1 Hp2].
    apply Hloop; [|apply Hloop; [|done]]; intros i r2 _ Hr2; by apply add_row_returns.
  - exists (replicate (nPatches geo) init_mp). split; [done|]. apply length_replicate.
Qed.

Lemma constructG1Solution_returns_witness :
  let mk := fun (_ : gsBasis) (c : list Q) =>
              {| coefs := c; jacobian := fun _ => ((0, 0), (0, 0))%Q |} in
  exists g, constructG1Solution mk sys_general [] (two_patch_domain flat_patch)
              (two_patch_bases 3 4) = Some g
            /\ length g = nPatches (two_patch_domain flat_patch).
Proof.
  intros mk.
  apply (constructG1Solution_returns mk sys_general [] (two_patch_domain flat_patch)
           (two_patch_bases 3 4)).
  repeat split; repeat constructor; simpl; lia.
Defined.

(** * The line search [stepsize] *)

(** A loop whose condition holds after each of the first [n] rounds and
    fails after the next one makes [n + 1] rounds. *)
Lemma do_while_rounds {S : Type} (body : S -> S) (cond : S -> bool) (n fuel : nat) (st : S) :
  (forall k, (k < n)%nat -> cond (Nat.iter (Datatypes.S k) body st) = true) ->
  cond (Nat.iter (Datatypes.S n) body st) = false ->
  (n < fuel)%nat ->
  do_while fuel body cond st = Some (Nat.iter (Datatypes.S n) body st).
Proof.
  revert fuel st. induction n as [|n IH]; intros fuel st Hk Hn Hf.
  - destruct fuel as [|fuel]; [lia|]. simpl in *. by rewrite Hn.
  - destruct fuel as [|fuel]; [lia|].
    pose proof (Hk 0%nat ltac:(lia)) as H0. simpl in H0.
    cbn [do_while]. rewrite H0.
    rewrite (IH fuel (body st)).
    + f_equal. symmetry. apply Nat.iter_succ_r.
    + intros k Hk'. rewrite <- Nat.iter_succ_r. apply Hk. lia.
    + rewrite <- Nat.iter_succ_r. exact Hn.
    + lia.
Qed.

Lemma iter_assemble_at (assemble : list Q -> gsLinpLapAssembler) (u_ s_ : list Q)
    (q : Q) (body : stepsize_vars -> stepsize_vars) (n : nat) (st : stepsize_vars) :
  (forall st, body st = assemble_at assemble u_ s_ (sv_tau st * q)%Q (sv_iter st + 1)) ->
  sv_iter (Nat.iter n body st) = sv_iter st + Z.of_nat n
  /\ sv_tau (Nat.iter n body st) = Nat.iter n (fun t => (t * q)%Q) (sv_tau st)
  /\ ((0 < n)%nat ->
      Nat.iter n body st
      = assemble_at assemble u_ s_ (sv_tau (Nat.iter n body st)) (sv_iter st + Z.of_nat n)).
Proof.
  intros Hb. induction n as [|n (Hi & Ht & Ha)].
  - split; [simpl; lia|]. split; [reflexivity|lia].
  - change (Nat.iter (Datatypes.S n) body st) with (body (Nat.iter n body st)).
    rewrite Hb. simpl sv_iter. simpl sv_tau. rewrite Hi, Ht.
    split; [lia|]. split; [reflexivity|].
    intros _. f_equal. lia.
Qed.

(** X12.  The line search makes no round or ten.  With room for ten rounds,
    [stepsize] returns; the step it returns is [1] when both tests hold at
    step [1], [0.8^10] when the sufficient-decrease test fails at step [1]
    and [1.2^10] when only the curvature test fails at step [1], whatever the
    tests would give at the steps in between; and [Kh], [fh], [pde.w], [rh]
    and [Jh] are left as assembled at the returned step. *)
Theorem stepsize_makes_no_round_or_ten (fuel : nat)
    (assemble : list Q -> gsLinpLapAssembler) (u_ s_ rh : list Q) (Jh mu sigma : Q) :
  (10 <= fuel)%nat ->
  let st1 := assemble_at assemble u_ s_ 1 0 in
  let c1 := sufficient_decrease st1 s_ rh Jh mu in
  let c2 := curvature st1 s_ rh sigma in
  exists out,
    stepsize fuel assemble u_ s_ rh Jh mu sigma = Some out
    /\ (out_tau out == if c1 then if c2 then 1 else (6 # 5) ^ 10 else (4 # 5) ^ 10)%Q
    /\ let A := assemble (vadd u_ (vscale (out_tau out) s_)) in
       out_Kh out = A_matrix A /\ out_fh out = A_rhs A /\ out_Jh out = A_energy A
       /\ out_pde_w out = vadd u_ (vscale (out_tau out) s_)
       /\ out_rh out = vsub (mat_vec (A_matrix A) (vadd u_ (vscale (out_tau out) s_)))
                         (A_rhs A).
Proof.
  intros Hf st1 c1 c2. unfold stepsize. cbv zeta. fold st1. fold c1. fold c2.
  destruct c1 eqn:E1; simpl negb; cbv iota.
  - destruct c2 eqn:E2; simpl negb; simpl andb; cbv iota.
    + eexists. split; [reflexivity|]. simpl. split; [reflexivity|]. repeat split.
    + destruct (iter_assemble_at assemble u_ s_ 1.2 (grow_body assemble u_ s_ rh Jh mu sigma)
                  10 st1 ltac:(reflexivity)) as (Hi & Ht & Ha).
      rewrite (do_while_rounds _ _ 9 fuel st1).
      * rewrite (Ha ltac:(lia)). rewrite Ht. simpl mbind. eexists.
        split; [reflexivity|]. simpl out_tau. split; [vm_compute; reflexivity|].
        repeat split.
      * intros k Hk.
        destruct (iter_assemble_at assemble u_ s_ 1.2
                    (grow_body assemble u_ s_ rh Jh mu sigma)
                    (Datatypes.S k) st1 ltac:(reflexivity)) as (Hi' & _).
        rewrite Hi'. simpl sv_iter. apply Z.ltb_lt. lia.
      * rewrite Hi. reflexivity.
      * lia.
  - destruct (iter_assemble_at assemble u_ s_ 0.8 (shrink_body assemble u_ s_ rh Jh mu)
                10 st1 ltac:(reflexivity)) as (Hi & Ht & Ha).
    rewrite (do_while_rounds _ _ 9 fuel st1).
    + rewrite (Ha ltac:(lia)). rewrite Ht. simpl mbind. eexists.
      split; [reflexivity|]. simpl out_tau. split; [vm_compute; reflexivity|].
      repeat split.
    + intros k Hk.
      destruct (iter_assemble_at assemble u_ s_ 0.8 (shrink_body assemble u_ s_ rh Jh mu)
                  (Datatypes.S k) st1 ltac:(reflexivity)) as (Hi' & _).
      rewrite Hi'. simpl sv_iter. apply Z.ltb_lt. lia.
    + rewrite Hi. reflexivity.
    + lia.
Qed.

Lemma stepsize_makes_no_round_or_ten_witness :
  let assemble := fun w : list Q =>
    {| A_matrix := tiny_K; A_rhs := [1; 0]%Q; A_energy := dot w w |} in
  exists out,
    stepsize 10 assemble [1; 1]%Q [-1; 0]%Q [1; 0]%Q 0 0.0001 0.9 = Some out
    /\ (out_tau out == (4 # 5) ^ 10)%Q
    /\ out_Jh out = A_energy (assemble (vadd [1; 1]%Q (vscale (out_tau out) [-1; 0]%Q))).
Proof.
  intros assemble.
  destruct (stepsize_makes_no_round_or_ten 10 assemble [1; 1]%Q [-1; 0]%Q [1; 0]%Q
              0 0.0001 0.9 ltac:(lia)) as (out & Hs & Ht & _ & _ & HJ & _).
  exists out. split; [exact Hs|]. split; [|exact HJ].
  assert (sufficient_decrease (assemble_at assemble [1; 1]%Q [-1; 0]%Q 1 0)
            [-1; 0]%Q [1; 0]%Q 0 0.0001 = false) as E by (vm_compute; reflexivity).
  rewrite E in Ht. exact Ht.
Defined.

(** ** Boundary functions as boundary bases *)

(** X13.  On a freshly constructed system with non-negative counts, the
    boundary function [bfID] of side [bID] (an ordinal below the boundary
    count of the side) is the boundary basis number
    [numBasisFunctions[3][bID] - numBasisFunctions[3][0] + bfID]: that
    number is below [boundary_size()], and after [insertBoundaryEdge]
    [getSingleBoundaryBasis] returns for it the coefficients of the
    function, those of square at most [10e-25] replaced by zero. *)
Theorem boundary_function_is_boundary_basis (mp : gsMultiPatch) (mb : list gsMultiBasis)
    (ikm : Z) (nb tp iso : bool) (g : gsMultiPatch) (item : patchSide) (bID : nat)
    (bfID : Z) :
  counts_nonneg mp mb ikm nb tp ->
  let s := new_gsG1System mp mb ikm nb tp iso in
  (bID < length (boundaries mp))%nat ->
  (if tp then bsize (bdy_basis_edge mp mb bID) - 4 else gen_plus mp mb bID) < 2 ^ 64 ->
  0 <= bfID < block_size s 3 bID ->
  block_size s 5 (ps_patch item) = Z.of_nat (length (coefs (patch g 0))) ->
  let n := entry s 3 bID - entry s 3 0 + bfID in
  0 <= n < boundary_size s
  /\ getSingleBoundaryBasis (insertBoundaryEdge g item bID bfID s) n (ps_patch item)
     = map pruned (coefs (patch g 0)).
Proof.
  intros Hc s Hb Hsz Hbf Hw n.
  destruct (new_gsG1System_block_order mp mb ikm nb tp iso Hc) as [Hmono Hcross].
  destruct (new_gsG1System_tables_ok mp mb ikm nb tp iso Hc) as [_ Hch].
  destruct (new_gsG1System_blocks mp mb ikm nb tp iso) as ((_ & L1 & _ & L3 & L4) & _ & BB & _).
  destruct (new_gsG1System_dimensions mp mb ikm nb tp iso) as (_ & Ed & _ & ED & _).
  fold s in Hmono, Hcross, Hch, L1, L3, L4, BB, Ed, ED.
  pose proof (Hch 2%nat ltac:(lia)) as C2.
  assert (0 <= block_size s 1 bID) as He.
  { unfold block_size. pose proof (Hmono 1%nat bID (Datatypes.S bID) ltac:(lia) ltac:(lia)).
    lia. }
  assert (0 <= bfID < block_size s 3 bID + block_size s 1 bID) as Hbf' by lia.
  pose proof (boundary_row_formula mp mb ikm nb tp iso bID bfID Hc Hb Hsz Hbf') as Er.
  fold s in Er.
  destruct (Z.ltb_spec bfID (block_size s 3 bID)) as [_|?]; [|lia].
  split.
  - unfold boundary_size, n. unfold block_size in Hbf.
    pose proof (Hmono 3%nat 0%nat bID ltac:(lia) ltac:(lia)).
    pose proof (Hcross 3%nat 4%nat (Datatypes.S bID) (length (vertices mp))
                  ltac:(lia) ltac:(lia) ltac:(lia)) as H34.
    unfold last_entry. rewrite vlast_lookup, L4. simpl. fold (entry s 4 (length (vertices mp))).
    lia.
  - rewrite insertBoundaryEdge_spec. unfold getSingleBoundaryBasis.
    change (entry (set_D_sparse ?M s) ?k ?i) with (entry s k i).
    change (D_sparse (set_D_sparse ?M s)) with M.
    change (dim_G1_Dofs (set_D_sparse ?M s)) with (dim_G1_Dofs s).
    unfold block_size in Hw. rewrite Hw.
    replace (dim_G1_Dofs s + n) with (boundary_row s bID bfID) by (unfold n; lia).
    rewrite <- (app_nil_r (insertBoundaryEdge_writes s g item bID bfID)).
    apply (multi_patch_read_back (D_sparse s) [boundary_row s bID bfID]
             (boundary_row s bID bfID) 1
             (fun _ => entry s 5 (ps_patch item)) (fun _ => coefs (patch g 0)) 0).
    + by apply list_elem_of_singleton.
    + intros c. rewrite ED. apply lookup_empty.
    + lia.
    + intros k j Hk Hne. lia.
Qed.

Lemma boundary_function_is_boundary_basis_witness :
  let g := basis_function [[1; 1e-13] ++ replicate 47 0]%Q in
  let item := {| ps_patch := 1; m_index := 3 |} in
  let n := entry sys_general 3 4 - entry sys_general 3 0 + 0 in
  0 <= n < boundary_size sys_general
  /\ getSingleBoundaryBasis (insertBoundaryEdge g item 4 0 sys_general) n 1
     = map pruned (coefs (patch g 0)).
Proof.
  intros g item n.
  apply (boundary_function_is_boundary_basis (two_patch_domain flat_patch)
           (two_patch_bases 3 4) 0 false false true g item 4 0).
  - vm_compute. repeat split; repeat constructor; discriminate.
  - simpl; lia.
  - vm_compute. reflexivity.
  - vm_compute. split; [discriminate|reflexivity].
  - vm_compute. reflexivity.
Defined.

(** ** The row selectors of [finalize] *)

Lemma foldl_writes_pair {A : Type} (l : list A)
    (body : A -> gsSparseMatrix * gsG1System -> gsSparseMatrix * gsG1System)
    (w : gsG1System -> A -> list ((Z * Z) * Q)) (B : gsSparseMatrix) (s : gsG1System) :
  (forall i B s, body i (B, s)
     = (apply_writes (map diag_of (w s i)) B,
        set_D_sparse (apply_writes (w s i) (D_sparse s)) s)) ->
  (forall i s M, w (set_D_sparse M s) i = w s i) ->
  foldl (fun st i => body i st) (B, s) l
  = (apply_writes (map diag_of (flat_map (w s) l)) B,
     set_D_sparse (apply_writes (flat_map (w s) l) (D_sparse s)) s).
Proof.
  intros Hbody Hw. revert B s. induction l as [|a l IH]; intros B s.
  - by destruct s.
  - simpl. rewrite Hbody, IH. simpl.
    rewrite (flat_map_ext _ (w s)) by (intros i; apply Hw).
    rewrite map_app, !apply_writes_app. reflexivity.
Qed.

Lemma finalize_interior_spec (mb : gsMultiBasis) (B : gsSparseMatrix) (s : gsG1System) :
  finalize_interior mb (B, s)
  = (apply_writes (map diag_of (finalize_writes s mb)) B,
     set_D_sparse (apply_writes (finalize_writes s mb) (D_sparse s)) s).
Proof.
  unfold finalize_interior, finalize_writes, for_each, for_range.
  apply (foldl_writes_pair _ _
    (fun s np =>
       flat_map (fun j =>
         flat_map (fun i =>
           [((dim_G1_Dofs s + dim_G1_Bdy s + entry s 5 np
              + j * bsize (component (basis mb np) 0) + i,
              entry s 5 np + j * bsize (component (basis mb np) 0) + i), 1%Q)])
           (seqZ 2 (bsize (component (basis mb np) 0) - 2 - 2)))
         (seqZ 2 (bsize (component (basis mb np) 1) - 2 - 2)))); [|done].
  intros np B1 s1.
  apply (foldl_writes_pair _ _
    (fun s j =>
         flat_map (fun i =>
           [((dim_G1_Dofs s + dim_G1_Bdy s + entry s 5 np
              + j * bsize (component (basis mb np) 0) + i,
              entry s 5 np + j * bsize (component (basis mb np) 0) + i), 1%Q)])
           (seqZ 2 (bsize (component (basis mb np) 0) - 2 - 2)))); [|done].
  intros j B2 s2.
  apply (foldl_writes_pair _ _
    (fun s i =>
           [((dim_G1_Dofs s + dim_G1_Bdy s + entry s 5 np
              + j * bsize (component (basis mb np) 0) + i,
              entry s 5 np + j * bsize (component (basis mb np) 0) + i), 1%Q)]));
    [|done].
  intros i B3 s3. reflexivity.
Qed.

(** The loop [for (i = 0; i < m; i++) B.insert(a + i, a + i) = 1] on the
    empty matrix. *)
Lemma identity_loop (a : Z) (m : nat) (n : Z) (i j : Z) (v : Q) :
  entries (for_each m (fun k B => identity_insert (a + Z.of_nat k) B) (resize n n)) !! (i, j)
  = Some v
  <-> v = 1%Q /\ i = j /\ a <= i < a + Z.of_nat m.
Proof.
  induction m as [|m IH].
  - simpl. rewrite lookup_empty. split; [done|lia].
  - rewrite for_each_S. unfold identity_insert at 1. simpl.
    destruct (decide ((a + Z.of_nat m, a + Z.of_nat m) = (i, j))) as [E|E].
    + rewrite E, lookup_insert_eq. injection E as <- <-. split.
      * intros [= <-]. repeat split; lia.
      * intros (-> & _). reflexivity.
    + rewrite lookup_insert_ne by done. rewrite IH. split.
      * intros (-> & -> & H). repeat split; lia.
      * intros (-> & -> & H). repeat split; try lia.
        destruct (decide (j = a + Z.of_nat m)) as [->|]; [done|lia].
Qed.

Lemma identity_loop_shape (f : nat -> Z) (m : nat) (B : gsSparseMatrix) :
  rows (for_each m (fun k B => identity_insert (f k) B) B) = rows B
  /\ cols (for_each m (fun k B => identity_insert (f k) B) B) = cols B.
Proof. induction m as [|m IH]; [done|]. rewrite for_each_S. exact IH. Qed.

(** X14.  [finalize] obtains [D_0_sparse] and [D_boundary_sparse] by
    multiplying the completed [D_sparse] from the left with two square 0/1
    diagonal matrices of [dim_G1_Dofs + dim_G1_Bdy + dim_K] rows:
    [B_0_sparse] has a one exactly on the first [dim_G1_Dofs] diagonal
    positions and on the interior rows it has just inserted into
    [D_sparse]; [B_boundary_sparse] has a one exactly on the [dim_G1_Bdy]
    diagonal positions from [dim_G1_Dofs] on. *)
Theorem finalize_selects_rows (ops : EigenOps) (mp : gsMultiPatch) (mb : gsMultiBasis)
    (g1 : list Q) (s : gsG1System) :
  let s' := finalize ops mp mb g1 s in
  let n := dim_G1_Dofs s + dim_G1_Bdy s + dim_K s in
  exists B_0 B_boundary,
    D_0_sparse s' = mul ops B_0 (D_sparse s')
    /\ D_boundary_sparse s' = mul ops B_boundary (D_sparse s')
    /\ rows B_0 = n /\ cols B_0 = n /\ rows B_boundary = n /\ cols B_boundary = n
    /\ (forall i j v, entries B_0 !! (i, j) = Some v <->
          v = 1%Q /\ i = j
          /\ (0 <= i < dim_G1_Dofs s \/ exists c, interior_position s mb i c))
    /\ (forall i j v, entries B_boundary !! (i, j) = Some v <->
          v = 1%Q /\ i = j /\ dim_G1_Dofs s <= i < dim_G1_Dofs s + dim_G1_Bdy s).
Proof.
  intros s' n. unfold s', finalize. rewrite finalize_interior_spec. cbv zeta. simpl.
  fold n.
  set (Bi := for_each (Z.to_nat (dim_G1_Dofs s))
               (fun i B => identity_insert (Z.of_nat i) B) (resize n n)).
  set (Bb := for_each (Z.to_nat (dim_G1_Bdy s))
               (fun i B => identity_insert (dim_G1_Dofs s + Z.of_nat i) B) (resize n n)).
  exists (apply_writes (map diag_of (finalize_writes s mb)) Bi), Bb.
  split; [reflexivity|]. split; [reflexivity|].
  destruct (apply_writes_shape (map diag_of (finalize_writes s mb)) Bi) as [-> ->].
  destruct (identity_loop_shape (fun i => Z.of_nat i) (Z.to_nat (dim_G1_Dofs s)) (resize n n))
    as [Hr Hc].
  destruct (identity_loop_shape (fun i => dim_G1_Dofs s + Z.of_nat i)
              (Z.to_nat (dim_G1_Bdy s)) (resize n n)) as [Hr' Hc'].
  split; [exact Hr|]. split; [exact Hc|]. split; [exact Hr'|]. split; [exact Hc'|].
  assert (forall i j v, entries Bi !! (i, j) = Some v <->
            v = 1%Q /\ i = j /\ 0 <= i < dim_G1_Dofs s) as HBi.
  { intros i j v. unfold Bi.
    pose proof (identity_loop 0 (Z.to_nat (dim_G1_Dofs s)) n i j v) as H.
    simpl in H. rewrite H. split; intros (-> & -> & Hi); repeat split; lia. }
  assert (forall i j, (i, j) ∈ (map diag_of (finalize_writes s mb)).*1 <->
            i = j /\ exists c, interior_position s mb i c) as Hkeys.
  { intros i j. split.
    - intros Hin. apply list_elem_of_fmap in Hin as (w & Hk & Hw).
      apply list_elem_of_fmap in Hw as (w0 & -> & Hw0).
      apply elem_of_finalize_writes in Hw0 as (np & i0 & j0 & Hnp & Hi & Hj & ->).
      simpl in Hk. injection Hk as -> ->. split; [done|].
      eexists. exists np, i0, j0. repeat split; try done; lia.
    - intros (<- & c & np & i0 & j0 & Hnp & Hi & Hj & -> & ->).
      apply list_elem_of_fmap. eexists (_, 1%Q). split; [reflexivity|].
      apply list_elem_of_fmap.
      exists ((dim_G1_Dofs s + dim_G1_Bdy s
               + (entry s 5 np + j0 * bsize (component (basis mb np) 0) + i0),
               entry s 5 np + j0 * bsize (component (basis mb np) 0) + i0), 1%Q).
      split; [reflexivity|]. apply elem_of_finalize_writes. by exists np, i0, j0. }
  split.
  - intros i j v.
    destruct (decide ((i, j) ∈ (map diag_of (finalize_writes s mb)).*1)) as [Hin|Hnin].
    + destruct (lookup_apply_writes_in _ Bi _ Hin) as (v' & Hv' & ->).
      apply list_elem_of_fmap in Hv' as (w0 & Hw0 & _).
      unfold diag_of in Hw0. injection Hw0 as _ _ ->.
      apply Hkeys in Hin as [-> Hc0]. split.
      * intros [= <-]. by repeat split; [..|right].
      * intros (-> & _). reflexivity.
    + rewrite lookup_apply_writes_notin by done. rewrite HBi. split.
      * intros (-> & -> & Hi). by repeat split; [..|left].
      * intros (-> & -> & [Hi|Hc0]); [done|].
        exfalso. apply Hnin. by apply Hkeys.
  - intros i j v. unfold Bb. rewrite identity_loop.
    split; intros (-> & -> & Hi); repeat split; lia.
Qed.

(** ** Counts of the boundary sides and of the vertices *)

(** X15.  The counts the constructor allocates to a boundary side and to a
    vertex.  A side has [2*size - 8] functions in two-patch mode ([size] the
    size of the side's univariate basis) and [2*plus - 11] in general mode
    ([plus] its plus-space size), in the edge and boundary blocks together;
    the Neumann flag does not change the total but leaves the edge block
    empty.  An interior vertex has no boundary-vertex function, and no
    vertex function in two-patch mode but six in general mode; a boundary
    vertex has four functions in two-patch mode and seven in general mode;
    an interface-boundary vertex has nine in general mode and, in two-patch
    mode, none in the vertex block. *)
Theorem side_and_vertex_counts (mp : gsMultiPatch) (mb : list gsMultiBasis)
    (ikm : Z) (nb tp iso : bool) :
  let s := new_gsG1System mp mb ikm nb tp iso in
  (forall b, (b < length (boundaries mp))%nat ->
     block_size s 1 b + block_size s 3 b
     = (if tp then 2 * bsize (bdy_basis_edge mp mb b) - 8 else 2 * gen_plus mp mb b - 11)
     /\ (nb = true -> block_size s 1 b = 0))
  /\ (forall v, (v < length (vertices mp))%nat ->
        (vertex_kind mp v = 0 ->
           block_size s 4 v = 0 /\ block_size s 2 v = if tp then 0 else 6)
        /\ (vertex_kind mp v = -1 ->
              block_size s 2 v + block_size s 4 v = if tp then 4 else 7)
        /\ (vertex_kind mp v = 1 ->
              if tp then block_size s 2 v = 0
              else block_size s 2 v + block_size s 4 v = 9)).
Proof.
  intros s.
  destruct (new_gsG1System_blocks mp mb ikm nb tp iso) as (_ & _ & BB & BV).
  fold s in BB, BV. split.
  - intros b Hb. destruct (BB b Hb) as [-> ->].
    unfold tp_edge_count, tp_boundary_count, gen_edge_count, gen_boundary_count.
    destruct tp, nb; split; try lia; try discriminate; done.
  - intros v Hv. destruct (BV v Hv) as [-> ->].
    unfold tp_vertex_count, tp_bdy_vertex_count, gen_vertex_count, gen_bdy_vertex_count.
    split; [|split]; intros ->; simpl; destruct tp, nb; simpl; try done; lia.
Qed.

Lemma side_and_vertex_counts_witness :
  (block_size sys_general 1 2 + block_size sys_general 3 2
   = 2 * gen_plus (two_patch_domain flat_patch) (two_patch_bases 3 4) 2 - 11
   /\ (false = true -> block_size sys_general 1 2 = 0))
  /\ block_size sys_general 2 1 + block_size sys_general 4 1 = 9.
Proof.
  destruct (side_and_vertex_counts (two_patch_domain flat_patch) (two_patch_bases 3 4)
              0 false false true) as [HB HV].
  split.
  - apply (HB 2%nat). simpl; lia.
  - destruct (HV 1%nat ltac:(simpl; lia)) as (_ & _ & H). apply H. reflexivity.
Defined.

(** ** The number of columns *)

Lemma offsets_total (a : Z) (cs : list Z) : vlast (offsets a cs) = a + Zsum cs.
Proof.
  revert a. induction cs as [|c cs IH]; intros a.
  - unfold vlast, Zsum. simpl. lia.
  - specialize (IH (a + c)). simpl offsets.
    pose proof (length_offsets (a + c) cs) as Hl.
    destruct (offsets (a + c) cs) as [|z l] eqn:E; [simpl in Hl; lia|].
    change (vlast (a :: z :: l)) with (vlast (z :: l)). rewrite IH.
    unfold Zsum. simpl. lia.
Qed.

Lemma map_basis_seq (mb : gsMultiBasis) :
  map (fun i => size (basis mb i)) (seq 0 (nBases mb)) = map size mb.
Proof.
  apply list_eq. intros i. change (map ?f ?l) with (f <$> l).
  rewrite !list_lookup_fmap. unfold nBases, basis.
  destruct (decide (i < length mb)%nat) as [Hi|Hi].
  - rewrite lookup_seq_lt by done. simpl.
    by rewrite (list_lookup_lookup_total_lt mb i Hi).
  - rewrite lookup_seq_ge by lia. by rewrite lookup_ge_None_2 by lia.
Qed.

Lemma column_table_total (a : Z) (mb : gsMultiBasis) (n : nat) :
  nBases mb = n -> vlast (column_table a mb n) = a + Zsum (map size mb).
Proof.
  intros Hn. subst n. unfold column_table. rewrite fill_loop_full.
  by rewrite offsets_total, map_basis_seq.
Qed.

Lemma vlast_setZero (n : nat) : vlast (setZero n) = 0.
Proof.
  unfold setZero. rewrite vlast_lookup.
  destruct n as [|n]; [reflexivity|].
  rewrite length_replicate. change (pred (Datatypes.S n)) with n.
  apply lookup_total_replicate_2. lia.
Qed.

(** X16.  The number of columns.  With one basis per patch, [dim_K], the
    number of columns of [D_sparse], is the total size of the bases of
    [mb[0]] when the system is isogeometric; the total size of the bases of
    [mb[0]] and [mb[1]] in two-patch mode, not isogeometric, with exactly
    two multi-bases; and zero in every other case, in particular in
    general mode whenever the system is not isogeometric. *)
Theorem dim_K_counts_the_columns (mp : gsMultiPatch) (mb : list gsMultiBasis)
    (ikm : Z) (nb tp iso : bool) :
  nBases (mb !!! 0%nat) = nPatches mp ->
  (tp = true -> iso = false -> length mb = 2%nat -> nBases (mb !!! 1%nat) = nPatches mp) ->
  let s := new_gsG1System mp mb ikm nb tp iso in
  dim_K s = (if iso then Zsum (map size (mb !!! 0%nat))
             else if tp && (length mb =? 2)%nat
                  then Zsum (map size (mb !!! 0%nat)) + Zsum (map size (mb !!! 1%nat))
                  else 0)
  /\ cols (D_sparse s) = dim_K s.
Proof.
  intros H0 H1 s.
  destruct (new_gsG1System_dimensions mp mb ikm nb tp iso) as (EK & _ & _ & ED & _).
  pose proof (new_gsG1System_tables mp mb ikm nb tp iso) as Ht.
  fold s in EK, ED, Ht. split; [|by rewrite ED].
  rewrite EK. unfold last_entry, table. rewrite Ht.
  destruct tp.
  - unfold tp_tables. rewrite lookup_total_app_r by (simpl; lia).
    unfold tp_column_tables. simpl length. simpl Nat.sub. cbv zeta.
    change ([?a; ?b] !!! 1%nat) with b.
    destruct iso; simpl negb; simpl andb; cbv iota.
    + rewrite column_table_total by done. lia.
    + destruct (Nat.eqb_spec (length mb) 2) as [E|E].
      * rewrite (column_table_total _ (mb !!! 1%nat)) by (by apply H1).
        rewrite column_table_total by done. lia.
      * apply vlast_setZero.
  - unfold gen_tables. rewrite lookup_total_app_r by (simpl; lia).
    unfold gen_column_tables. simpl length. simpl Nat.sub. cbv zeta.
    change ([?a; ?b] !!! 1%nat) with b.
    destruct iso; cbv iota.
    + rewrite column_table_total by done. lia.
    + apply vlast_setZero.
Qed.

Lemma dim_K_counts_the_columns_witness :
  let s := new_gsG1System (two_patch_domain flat_patch) (two_patch_bases 3 4)
             0 false false false in
  dim_K s = 0 /\ cols (D_sparse s) = dim_K s.
Proof.
  apply (dim_K_counts_the_columns (two_patch_domain flat_patch) (two_patch_bases 3 4)
           0 false false false).
  - reflexivity.
  - discriminate.
Defined.

(** ** The blocks partition the G1 rows *)

Lemma table_search (T : list Z) (r : Z) (m : nat) :
  (m < length T)%nat -> T !!! 0%nat <= r < T !!! m ->
  exists e, (e < m)%nat /\ T !!! e <= r < T !!! Datatypes.S e.
Proof.
  induction m as [|m IH]; intros Hm Hr; [lia|].
  destruct (decide (r < T !!! m)) as [Hlt|Hge].
  - destruct (IH ltac:(lia) ltac:(lia)) as (e & He & Hb). exists e. split; [lia|done].
  - exists m. split; [lia|]. lia.
Qed.

(** X17.  On a constructed system with non-negative counts, every row below
    [dim_G1_Dofs + dim_G1_Bdy] lies in the block of exactly one entity of
    exactly one of the five categories: the tables leave no G1 row without
    an owner and give no row two owners. *)
Theorem every_row_has_one_owner (mp : gsMultiPatch) (mb : list gsMultiBasis)
    (ikm : Z) (nb tp iso : bool) (r : Z) :
  counts_nonneg mp mb ikm nb tp ->
  let s := new_gsG1System mp mb ikm nb tp iso in
  0 <= r < dim_G1_Dofs s + dim_G1_Bdy s ->
  exists k e, (k < 5)%nat /\ block_of s k e r
              /\ forall k' e', (k' < 5)%nat -> block_of s k' e' r -> k' = k /\ e' = e.
Proof.
  intros Hc s Hr.
  pose proof (new_gsG1System_tables_ok mp mb ikm nb tp iso Hc) as Hok. fold s in Hok.
  destruct (new_gsG1System_dimensions mp mb ikm nb tp iso) as (_ & Ed & Eb & _).
  destruct (new_gsG1System_chained mp mb ikm nb tp iso)
    as (cI & cE & cV & cB & cBV & cols & Ht & _).
  fold s in Ed, Eb, Ht.
  assert (entry s 0 0 = 0) as Z0.
  { unfold entry. rewrite (table_of_chained _ _ _ _ _ _ _ 0 Ht) by lia.
    apply chained_tables_start. }
  destruct Hok as [Hm Hch].
  pose proof (Hch 0%nat ltac:(lia)) as C0. pose proof (Hch 1%nat ltac:(lia)) as C1.
  pose proof (Hch 2%nat ltac:(lia)) as C2. pose proof (Hch 3%nat ltac:(lia)) as C3.
  assert (exists k, (k < 5)%nat /\ entry s k 0 <= r < last_entry s k) as (k & Hk & Hrk).
  { destruct (decide (r < last_entry s 0)); [exists 0%nat; split; lia|].
    destruct (decide (r < last_entry s 1)); [exists 1%nat; split; lia|].
    destruct (decide (r < last_entry s 2)); [exists 2%nat; split; lia|].
    destruct (decide (r < last_entry s 3)); [exists 3%nat; split; lia|].
    exists 4%nat. split; lia. }
  destruct (Hm k Hk) as [_ Hl].
  unfold last_entry in Hrk. rewrite vlast_lookup in Hrk.
  destruct (table_search (table s k) r (pred (length (table s k))) ltac:(lia) Hrk)
    as (e & He & Hb).
  assert (block_of s k e r) as B by (split; [lia|exact Hb]).
  exists k, e. split; [done|]. split; [done|].
  intros k' e' Hk' B'.
  destruct (blocks_disjoint s k' e' k e r (conj Hm Hch) Hk' Hk B' B). by split.
Qed.

Lemma every_row_has_one_owner_witness :
  exists k e, (k < 5)%nat /\ block_of sys_general k e 40
              /\ forall k' e', (k' < 5)%nat -> block_of sys_general k' e' 40 ->
                   k' = k /\ e' = e.
Proof.
  apply (every_row_has_one_owner (two_patch_domain flat_patch) (two_patch_bases 3 4)
           0 false false true 40).
  - vm_compute. repeat split; repeat constructor; discriminate.
  - vm_compute. split; [discriminate|reflexivity].
Defined.
